(** * NaviSearch: query interpretation, tag state machine, hybrid ranking, EIG

    A shallow embedding of the two React components of the repository,

    - [src/frontend/src/NaviSearch.jsx] (the application: parser, tag state
      machine, search entry point that calls the backend), and
    - [src/frontend/src/prototype.jsx] (the self-contained prototype: its own
      parser, a mock similarity recall, the ranker and the EIG scorer),

    followed by the properties of the specification proved about them and
    by further properties of the code.

    Conventions of the model.

    - A JavaScript string is a list of code units; the code units are those of
      Latin-1 (U+0000..U+00FF), one [ascii] each.  On that range
      [String.prototype.toLowerCase] works code unit by code unit and the
      regular expression class [\s] and [String.prototype.trim] agree on the
      white space characters 9..13, 32 and 160.
    - A JavaScript array is a list; [push] appends at the end.
    - [Array.prototype.sort] is the stable sort that the language standard
      requires for a consistent comparator.
    - Finite JavaScript numbers that are only compared are exact rationals
      ([Q]); the mock similarity heuristic computes in IEEE binary64
      ([PrimFloat]) and its result is read as the rational it denotes.
    - An object used as a map is the list of its own properties in the order
      they were set; the names that it inherits from [Object.prototype] are
      taken into account where the code reads or writes a property by a name
      that is data.
    - React state is passed explicitly: a handler takes the state it reads and
      returns the state it sets. *)

From Stdlib Require Import Ascii String.
From Stdlib Require Import List Bool Arith ZArith QArith Qabs Lia.
From Stdlib Require Import Permutation Sorted.
From Stdlib Require Import Qpower Lqa.
From Stdlib Require Floats.
Import ListNotations.
Close Scope Q_scope.

Set Implicit Arguments.
Set Warnings "-inexact-float".

(* ================================================================== *)
(** * JavaScript strings *)
(* ================================================================== *)

Module JsString.

Definition str : Type := list ascii.

(** A literal. *)
Definition lit (s : string) : str := list_ascii_of_string s.

Definition code (c : ascii) : N := N_of_ascii c.

(** The class [\s] (and the characters [trim] removes) on Latin-1. *)
Definition is_space (c : ascii) : bool :=
  let n := code c in
  ((9 <=? n) && (n <=? 13) || (n =? 32) || (n =? 160))%N.

(** [toLowerCase] on one Latin-1 code unit: A..Z and the accented capitals
    U+00C0..U+00DE except the multiplication sign U+00D7. *)
Definition lower_char (c : ascii) : ascii :=
  let n := code c in
  if ((65 <=? n) && (n <=? 90)
      || (192 <=? n) && (n <=? 222) && negb (n =? 215))%N
  then ascii_of_N (n + 32) else c.

Definition toLowerCase (s : str) : str := map lower_char s.

Definition str_eqb (a b : str) : bool :=
  if list_eq_dec ascii_dec a b then true else false.

Definition is_empty (s : str) : bool :=
  match s with [] => true | _ :: _ => false end.

(** [s.startsWith(c)] for a one-character string [c]. *)
Definition startsWith (s : str) (c : ascii) : bool :=
  match s with
  | [] => false
  | c' :: _ => Ascii.eqb c' c
  end.

(** [s.substring(1)]. *)
Definition substring1 (s : str) : str := tl s.

Fixpoint is_prefix_of (t s : str) : bool :=
  match t, s with
  | [], _ => true
  | _ :: _, [] => false
  | a :: t', b :: s' => Ascii.eqb a b && is_prefix_of t' s'
  end.

(** [s.includes(t)]: [t] occurs in [s] as a contiguous substring. *)
Fixpoint includes (s t : str) : bool :=
  is_prefix_of t s ||
  match s with
  | [] => false
  | _ :: s' => includes s' t
  end.

(** [s.trimStart()] *)
Fixpoint trimStart (s : str) : str :=
  match s with
  | [] => []
  | c :: s' => if is_space c then trimStart s' else s
  end.

(** [s.trimEnd()]: a character is dropped when it is white space and
    everything after it has been dropped. *)
Fixpoint trimEnd (s : str) : str :=
  match s with
  | [] => []
  | c :: s' =>
      match trimEnd s' with
      | [] => if is_space c then [] else [c]
      | r => c :: r
      end
  end.

(** [s.trim()] *)
Definition trim (s : str) : str := trimEnd (trimStart s).

Definition starts_with_space (s : str) : bool :=
  match s with
  | [] => false
  | c :: _ => is_space c
  end.

(** [s.split(/\s+/)]: the pieces between the maximal runs of white space; a
    run at the start or at the end leaves an empty piece there, and the empty
    string splits into one empty piece. *)
Fixpoint split_ws (s : str) : list str :=
  match s with
  | [] => [[]]
  | c :: s' =>
      if is_space c then
        if starts_with_space s' then split_ws s' else [] :: split_ws s'
      else
        match split_ws s' with
        | w :: ws => (c :: w) :: ws
        | [] => [[c]]
        end
  end.

(** [s.replace(/\s+/g, ' ')]: every maximal run of white space becomes one
    space. *)
Fixpoint collapse_ws (s : str) : str :=
  match s with
  | [] => []
  | c :: s' =>
      if is_space c then
        if starts_with_space s' then collapse_ws s'
        else " "%char :: collapse_ws s'
      else c :: collapse_ws s'
  end.

(** [s.replace(/\s/g, '')] *)
Definition remove_ws (s : str) : str :=
  filter (fun c => negb (is_space c)) s.

(** [l.join(sep)] *)
Fixpoint join (sep : str) (l : list str) : str :=
  match l with
  | [] => []
  | [x] => x
  | x :: l' => x ++ sep ++ join sep l'
  end.

(** Strings with no white space in them, and tokens: the non-empty ones. *)
Definition no_space (s : str) : bool := forallb (fun c => negb (is_space c)) s.

Definition is_token (s : str) : bool := negb (is_empty s) && no_space s.

(** The maximal runs of characters that are not white space, in order. *)
Fixpoint words (s : str) : list str :=
  match s with
  | [] => []
  | c :: s' =>
      if is_space c then words s'
      else if is_empty s' || starts_with_space s' then [c] :: words s'
      else match words s' with
           | w :: ws => (c :: w) :: ws
           | [] => [[c]]
           end
  end.

(** [s.split(sep)] for a separator [sep] of one character: the pieces between
    its occurrences; the empty string splits into one empty piece. *)
Fixpoint split_char (sep : ascii) (s : str) : list str :=
  match s with
  | [] => [[]]
  | c :: s' =>
      if Ascii.eqb c sep then [] :: split_char sep s'
      else match split_char sep s' with
           | w :: ws => (c :: w) :: ws
           | [] => [[c]]
           end
  end.

(** The line feed, ['\n']. *)
Definition newline : ascii := "010"%char.

(** The class [[0-9a-fA-F]]. *)
Definition is_hex_digit (c : ascii) : bool :=
  let n := code c in
  ((48 <=? n) && (n <=? 57) || (65 <=? n) && (n <=? 70)
   || (97 <=? n) && (n <=? 102))%N.

(** The line terminators of Latin-1 (line feed and carriage return): the
    characters that [.] does not match in a regular expression. *)
Definition is_line_terminator (c : ascii) : bool :=
  let n := code c in ((n =? 10) || (n =? 13))%N.

End JsString.

Import JsString.


(* ================================================================== *)
(** * JavaScript arrays *)
(* ================================================================== *)

Module JsArray.

(** [l.sort(cmp)] for a consistent comparator, given by [after a b], which
    says that [cmp(a, b) > 0] ([a] is to come after [b]).  The sort is stable:
    an element is inserted in front of the elements that followed it in the
    input unless it is to come strictly after them. *)
Section Sort.
Variable A : Type.
Variable after : A -> A -> bool.

Fixpoint insert (x : A) (l : list A) : list A :=
  match l with
  | [] => [x]
  | y :: l' => if after x y then y :: insert x l' else x :: l
  end.

Definition sort (l : list A) : list A := fold_right insert [] l.

(** [before a b]: the comparator does not put [a] after [b]. *)
Definition before (a b : A) : Prop := after a b = false.
End Sort.

(** [l.slice(0, n)] *)
Definition slice0 (A : Type) (n : nat) (l : list A) : list A := firstn n l.

(** [l.some(p)] and [l.every(p)] *)
Definition some (A : Type) (p : A -> bool) (l : list A) : bool := existsb p l.
Definition every (A : Type) (p : A -> bool) (l : list A) : bool := forallb p l.

End JsArray.

(* ================================================================== *)
(** * The structured query and the tag states *)
(* ================================================================== *)

(** [{ query, likeTags, mustTags, mustNotTags }] *)
Record ParsedQuery : Type := mkParsed {
  query : str;
  likeTags : list str;
  mustTags : list str;
  mustNotTags : list str
}.

Definition emptyParsed : ParsedQuery := mkParsed [] [] [] [].

(** ['none' | 'like' | 'must' | 'mustNot'] *)
Inductive TagState : Type := none | like | must | mustNot.

Definition TagState_eqb (a b : TagState) : bool :=
  match a, b with
  | none, none | like, like | must, must | mustNot, mustNot => true
  | _, _ => false
  end.

(** The characters [+], [-] and [~]. *)
Definition is_prefix_char (c : ascii) : bool :=
  Ascii.eqb c "+"%char || Ascii.eqb c "-"%char || Ascii.eqb c "~"%char.

(** [part.match(/^([+\-~])/)] is not null. *)
Definition starts_with_prefix (part : str) : bool :=
  match part with
  | [] => false
  | c :: _ => is_prefix_char c
  end.

(** [part.match(/^([+\-~])$/)] is not null. *)
Definition only_prefix (part : str) : bool :=
  match part with
  | [c] => is_prefix_char c
  | _ => false
  end.

(** A tag token: a prefix character followed by at least one more character. *)
Definition is_tag_token (part : str) : bool :=
  starts_with_prefix part && (1 <? length part).

(* ================================================================== *)
(** * src/frontend/src/NaviSearch.jsx *)
(* ================================================================== *)

Module NaviSearch.

(** The variables of the loop of [parseSearchInput]. *)
Record ParseVars : Type := mkVars {
  queryTerms : list str;
  v_likeTags : list str;
  v_mustTags : list str;
  v_mustNotTags : list str;
  parsingQuery : bool
}.

Definition initVars : ParseVars := mkVars [] [] [] [] true.

(** The body of [for (const part of parts)]. *)
Definition parseStep (v : ParseVars) (part : str) : ParseVars :=
  if is_empty part then v
  else if startsWith part "+" && (1 <? length part) then
    mkVars (queryTerms v) (v_likeTags v) (v_mustTags v ++ [substring1 part])
           (v_mustNotTags v) false
  else if startsWith part "-" && (1 <? length part) then
    mkVars (queryTerms v) (v_likeTags v) (v_mustTags v)
           (v_mustNotTags v ++ [substring1 part]) false
  else if startsWith part "~" && (1 <? length part) then
    mkVars (queryTerms v) (v_likeTags v ++ [substring1 part]) (v_mustTags v)
           (v_mustNotTags v) false
  else if parsingQuery v && negb (starts_with_prefix part) then
    mkVars (queryTerms v ++ [part]) (v_likeTags v) (v_mustTags v)
           (v_mustNotTags v) (parsingQuery v)
  else if only_prefix part then
    if parsingQuery v then
      mkVars (queryTerms v ++ [part]) (v_likeTags v) (v_mustTags v)
             (v_mustNotTags v) (parsingQuery v)
    else
      mkVars (queryTerms v) (v_likeTags v ++ [part]) (v_mustTags v)
             (v_mustNotTags v) (parsingQuery v)
  else
    mkVars (queryTerms v) (v_likeTags v ++ [part]) (v_mustTags v)
           (v_mustNotTags v) false.

Definition parseLoop (parts : list str) (v : ParseVars) : ParseVars :=
  fold_left parseStep parts v.

(** [{ query: queryTerms.join(' '), likeTags, mustTags, mustNotTags }] *)
Definition parseResult (v : ParseVars) : ParsedQuery :=
  mkParsed (join (lit " ") (queryTerms v)) (v_likeTags v) (v_mustTags v)
           (v_mustNotTags v).

Definition parseSearchInput (input : str) : ParsedQuery :=
  let cleanedInput := trim input in
  if is_empty cleanedInput then mkParsed [] [] [] []
  else parseResult (parseLoop (split_ws cleanedInput) initVars).

(** The part of the component's state that [performSearch] sets. *)
Record SearchState (R T : Type) : Type := mkSearchState {
  searchResults : list R;
  recommendedTags : list T
}.

(** The body the backend receives and the answer it gives; a field the answer
    lacks is [None]. *)
Record Payload : Type := mkPayload {
  p_query : str;
  like_tags : list str;
  must_tags : list str;
  must_not_tags : list str
}.

Record SearchData (R T : Type) : Type := mkData {
  results : option (list R);
  recommended_tags : option (list T)
}.

Definition orEmpty (A : Type) (o : option (list A)) : list A :=
  match o with
  | Some l => l
  | None => []
  end.

(** [performSearch].  [makeApiRequest] stands for the request to [/search];
    it answers [None] when the request fails. *)
Definition performSearch (R T : Type)
    (makeApiRequest : Payload -> option (SearchData R T))
    (parsed : ParsedQuery) : SearchState R T :=
  if is_empty (query parsed)
     && (length (likeTags parsed) =? 0)
     && (length (mustTags parsed) =? 0)
     && (length (mustNotTags parsed) =? 0)
  then mkSearchState [] []
  else
    let payload := mkPayload (query parsed) (likeTags parsed)
                             (mustTags parsed) (mustNotTags parsed) in
    match makeApiRequest payload with
    | Some data =>
        mkSearchState (orEmpty (results data)) (orEmpty (recommended_tags data))
    | None => mkSearchState [] []
    end.

(** [getTagState]; [parsedQuery] is the component's parsed query, which the
    effect on [searchInput] keeps equal to [parseSearchInput searchInput]. *)
Definition same_tag (lowerTag : str) (t : str) : bool :=
  str_eqb (toLowerCase t) lowerTag.

Definition getTagState (parsedQuery : ParsedQuery) (tag : str) : TagState :=
  let lowerTag := toLowerCase tag in
  if JsArray.some (same_tag lowerTag) (mustTags parsedQuery) then must
  else if JsArray.some (same_tag lowerTag) (mustNotTags parsedQuery) then mustNot
  else if JsArray.some (same_tag lowerTag) (likeTags parsedQuery) then like
  else none.

(** [updateSearchInputWithTags]: the new value of [searchInput]. *)
Definition updateSearchInputWithTags
    (query : str) (likeTags mustTags mustNotTags : list str) : str :=
  let queryPart := if is_empty query then [] else query ++ lit " " in
  let likePart := join (lit " ") (map (fun t => "~"%char :: t) likeTags) in
  let mustPart := join (lit " ") (map (fun t => "+"%char :: t) mustTags) in
  let mustNotPart := join (lit " ") (map (fun t => "-"%char :: t) mustNotTags) in
  trim (collapse_ws
          (queryPart ++ likePart ++ lit " " ++ mustPart ++ lit " " ++ mustNotPart)).

(** [l.filter(t => t.toLowerCase() !== lowerTag)] *)
Definition without (lowerTag : str) (l : list str) : list str :=
  filter (fun t => negb (same_tag lowerTag t)) l.

(** [toggleTagInSearch]: from the current [searchInput] to the next. *)
Definition toggleTagInSearch (searchInput : str) (tagToToggle : str) : str :=
  let parsed := parseSearchInput searchInput in
  let lowerTagToToggle := toLowerCase tagToToggle in
  let likeTags1 := without lowerTagToToggle (likeTags parsed) in
  let mustTags1 := without lowerTagToToggle (mustTags parsed) in
  let mustNotTags1 := without lowerTagToToggle (mustNotTags parsed) in
  let currentState := getTagState (parseSearchInput searchInput) tagToToggle in
  match currentState with
  | none =>
      updateSearchInputWithTags (query parsed)
        (likeTags1 ++ [tagToToggle]) mustTags1 mustNotTags1
  | like =>
      updateSearchInputWithTags (query parsed)
        likeTags1 (mustTags1 ++ [tagToToggle]) mustNotTags1
  | must =>
      updateSearchInputWithTags (query parsed)
        likeTags1 mustTags1 (mustNotTags1 ++ [tagToToggle])
  | mustNot =>
      updateSearchInputWithTags (query parsed) likeTags1 mustTags1 mustNotTags1
  end.

(** [addTagFromRecommendation]; [type] is one of ['like'], ['must'] and
    ['mustNot'] at every call in the component, any other value appends
    nothing. *)
Definition addTagFromRecommendation
    (searchInput : str) (tag : str) (type : TagState) : str :=
  let parsed := parseSearchInput searchInput in
  let lowerTag := toLowerCase tag in
  let likeTags1 := without lowerTag (likeTags parsed) in
  let mustTags1 := without lowerTag (mustTags parsed) in
  let mustNotTags1 := without lowerTag (mustNotTags parsed) in
  match type with
  | like =>
      updateSearchInputWithTags (query parsed)
        (likeTags1 ++ [tag]) mustTags1 mustNotTags1
  | must =>
      updateSearchInputWithTags (query parsed)
        likeTags1 (mustTags1 ++ [tag]) mustNotTags1
  | mustNot =>
      updateSearchInputWithTags (query parsed)
        likeTags1 mustTags1 (mustNotTags1 ++ [tag])
  | none =>
      updateSearchInputWithTags (query parsed) likeTags1 mustTags1 mustNotTags1
  end.

(** [removeTagFromPill] *)
Definition removeTagFromPill
    (searchInput : str) (tagToRemove : str) (type : TagState) : str :=
  let parsed := parseSearchInput searchInput in
  let lowerTagToRemove := toLowerCase tagToRemove in
  match type with
  | like =>
      updateSearchInputWithTags (query parsed)
        (without lowerTagToRemove (likeTags parsed))
        (mustTags parsed) (mustNotTags parsed)
  | must =>
      updateSearchInputWithTags (query parsed)
        (likeTags parsed)
        (without lowerTagToRemove (mustTags parsed)) (mustNotTags parsed)
  | mustNot =>
      updateSearchInputWithTags (query parsed)
        (likeTags parsed) (mustTags parsed)
        (without lowerTagToRemove (mustNotTags parsed))
  | none =>
      updateSearchInputWithTags (query parsed)
        (likeTags parsed) (mustTags parsed) (mustNotTags parsed)
  end.

(** One click of the tag state machine. *)
Inductive TagOp : Type :=
| OpToggle (tag : str)
| OpAdd (tag : str) (type : TagState)
| OpRemove (tag : str) (type : TagState).

Definition applyOp (searchInput : str) (op : TagOp) : str :=
  match op with
  | OpToggle tag => toggleTagInSearch searchInput tag
  | OpAdd tag type => addTagFromRecommendation searchInput tag type
  | OpRemove tag type => removeTagFromPill searchInput tag type
  end.

Definition applyOps (searchInput : str) (ops : list TagOp) : str :=
  fold_left applyOp ops searchInput.

(** The tag of a click. *)
Definition opTag (op : TagOp) : str :=
  match op with
  | OpToggle tag => tag
  | OpAdd tag _ => tag
  | OpRemove tag _ => tag
  end.

(** The query and the tag sets that each handler passes to
    [updateSearchInputWithTags], from the parsed query it starts with. *)
Definition toggled (parsed : ParsedQuery) (tagToToggle : str) : ParsedQuery :=
  let lowerTagToToggle := toLowerCase tagToToggle in
  let likeTags1 := without lowerTagToToggle (likeTags parsed) in
  let mustTags1 := without lowerTagToToggle (mustTags parsed) in
  let mustNotTags1 := without lowerTagToToggle (mustNotTags parsed) in
  match getTagState parsed tagToToggle with
  | none => mkParsed (query parsed) (likeTags1 ++ [tagToToggle]) mustTags1 mustNotTags1
  | like => mkParsed (query parsed) likeTags1 (mustTags1 ++ [tagToToggle]) mustNotTags1
  | must => mkParsed (query parsed) likeTags1 mustTags1 (mustNotTags1 ++ [tagToToggle])
  | mustNot => mkParsed (query parsed) likeTags1 mustTags1 mustNotTags1
  end.

Definition added (parsed : ParsedQuery) (tag : str) (type : TagState)
    : ParsedQuery :=
  let lowerTag := toLowerCase tag in
  let likeTags1 := without lowerTag (likeTags parsed) in
  let mustTags1 := without lowerTag (mustTags parsed) in
  let mustNotTags1 := without lowerTag (mustNotTags parsed) in
  match type with
  | like => mkParsed (query parsed) (likeTags1 ++ [tag]) mustTags1 mustNotTags1
  | must => mkParsed (query parsed) likeTags1 (mustTags1 ++ [tag]) mustNotTags1
  | mustNot => mkParsed (query parsed) likeTags1 mustTags1 (mustNotTags1 ++ [tag])
  | none => mkParsed (query parsed) likeTags1 mustTags1 mustNotTags1
  end.

Definition removed (parsed : ParsedQuery) (tagToRemove : str) (type : TagState)
    : ParsedQuery :=
  let lowerTagToRemove := toLowerCase tagToRemove in
  match type with
  | like =>
      mkParsed (query parsed) (without lowerTagToRemove (likeTags parsed))
               (mustTags parsed) (mustNotTags parsed)
  | must =>
      mkParsed (query parsed) (likeTags parsed)
               (without lowerTagToRemove (mustTags parsed)) (mustNotTags parsed)
  | mustNot =>
      mkParsed (query parsed) (likeTags parsed) (mustTags parsed)
               (without lowerTagToRemove (mustNotTags parsed))
  | none => parsed
  end.

Definition applied (parsed : ParsedQuery) (op : TagOp) : ParsedQuery :=
  match op with
  | OpToggle tag => toggled parsed tag
  | OpAdd tag type => added parsed tag type
  | OpRemove tag type => removed parsed tag type
  end.

(** ** The tag dictionary *)

(** The part of the component's state that holds the dictionary and the text
    of its editor. *)
Record TagDictionaryState : Type := mkTagDictionaryState {
  tagDictionary : list str;
  editableTags : str
}.

(** [fetchTagDictionary].  [data_tags] is the field [tags] of the answer to
    [GET /tags], [None] when the request fails or the answer has no tags. *)
Definition fetchTagDictionary (authToken : str) (data_tags : option (list str))
    (st : TagDictionaryState) : TagDictionaryState :=
  if is_empty authToken then st
  else
    match data_tags with
    | Some tags => mkTagDictionaryState tags (join [newline] tags)
    | None => st
    end.

(** [editableTags.split('\n').map(tag => tag.trim()).filter(tag => tag)] *)
Definition tagsArray (editableTags : str) : list str :=
  filter (fun tag => negb (is_empty tag))
         (map trim (split_char newline editableTags)).

(** [handleUpdateTagDictionary].  [putTags] is the request [PUT /tags] with
    the body [{ tags: tagsArray }]: it says whether the request succeeds;
    [data_tags] is the answer to the [GET /tags] that follows a success. *)
Definition handleUpdateTagDictionary (authToken : str)
    (putTags : list str -> bool) (data_tags : option (list str))
    (st : TagDictionaryState) : TagDictionaryState :=
  let sent := tagsArray (editableTags st) in
  if putTags sent then
    fetchTagDictionary authToken data_tags
      (mkTagDictionaryState sent (editableTags st))
  else st.

(** ** The original document of a result *)

(** [s.match(re)] for the regular expression of [handleViewOriginalDocument]
    and of the result list, which reads: [^], 32 characters of the class
    [[0-9a-fA-F]] (group 1), [_], any number of [.] (group 2), [$].  The value
    is the groups 1 and 2 of the match, [None] for [null].  The expression has
    no flag: [^] and [$] are the two ends of the string and [.] is any
    character but a line terminator. *)
Definition matchFileId (s : str) : option (str * str) :=
  let fileId := firstn 32 s in
  if (length fileId =? 32) && forallb is_hex_digit fileId then
    match skipn 32 s with
    | c :: name =>
        if Ascii.eqb c "_"
           && forallb (fun c => negb (is_line_terminator c)) name
        then Some (fileId, name)
        else None
    | [] => None
    end
  else None.





End NaviSearch.

(* ================================================================== *)
(** * JavaScript numbers *)
(* ================================================================== *)

Module JsNumber.
Import PrimFloat.

Definition float : Set := PrimFloat.float.

(** The literals of [calculateSimilarity]. *)
Definition f0_3 : float := 0.3%float.
Definition f0_8 : float := 0.8%float.
Definition f0_6 : float := 0.6%float.
Definition f0_85 : float := 0.85%float.
Definition f0_15 : float := 0.15%float.
Definition f0_95 : float := 0.95%float.
Definition f0 : float := 0%float.
Definition f1 : float := 1%float.
Definition f10 : float := 10%float.
Definition f0_5 : float := 0.5%float.

(** A length or a count as a number. *)
Definition of_nat (n : nat) : float :=
  PrimFloat.of_uint63 (Uint63.of_Z (Z.of_nat n)).

Definition fadd : float -> float -> float := PrimFloat.add.
Definition fmul : float -> float -> float := PrimFloat.mul.
Definition fdiv : float -> float -> float := PrimFloat.div.

(** [Math.sqrt] *)
Definition Math_sqrt : float -> float := PrimFloat.sqrt.

(** [Math.min] and [Math.max] of two numbers: NaN if one is NaN, and -0 is
    below +0. *)
Definition Math_min (x y : float) : float :=
  if PrimFloat.is_nan x || PrimFloat.is_nan y then PrimFloat.nan
  else if PrimFloat.ltb x y then x
  else if PrimFloat.ltb y x then y
  else if PrimFloat.get_sign x then x else y.

Definition Math_max (x y : float) : float :=
  if PrimFloat.is_nan x || PrimFloat.is_nan y then PrimFloat.nan
  else if PrimFloat.ltb x y then y
  else if PrimFloat.ltb y x then x
  else if PrimFloat.get_sign x then y else x.

(** The rational that a finite number denotes (0 for the two zeros; NaN and
    the infinities, which [calculateSimilarity] never returns, read as 0). *)
Definition number (f : float) : Q :=
  match FloatOps.Prim2SF f with
  | SpecFloat.S754_finite s m e =>
      let v := (inject_Z (Zpos m) * Qpower 2 e)%Q in
      if s then (- v)%Q else v
  | _ => 0%Q
  end.

(** [x > 0] for the value [x] a comparator returns. *)
Definition positive (x : Q) : bool :=
  match (x ?= 0)%Q with
  | Gt => true
  | _ => false
  end.

(** A number that may be NaN, where the code computes with a value that need
    not be a number: [Finite q] is the number [q]. *)
Inductive numeric : Type :=
| Finite (q : Q)
| NaN.

(** [x - y] and [Math.abs(x)]: NaN when an operand is NaN. *)
Definition minus (x y : numeric) : numeric :=
  match x, y with
  | Finite a, Finite b => Finite (a - b)%Q
  | _, _ => NaN
  end.

Definition Math_abs (x : numeric) : numeric :=
  match x with
  | Finite a => Finite (Qabs a)
  | NaN => NaN
  end.

(** [x > 0] for the value [x] a comparator returns, when it may be NaN:
    [Array.prototype.sort] takes NaN as 0. *)
Definition positive_or_nan (x : numeric) : bool :=
  match x with
  | Finite a => positive a
  | NaN => false
  end.

End JsNumber.

(* ================================================================== *)
(** * src/frontend/src/prototype.jsx *)
(* ================================================================== *)

Module Prototype.

(** An entry of [mockDocuments].  The constant itself holds Chinese text,
    which is outside Latin-1; the functions that read it take the document
    collection as an argument of the same name. *)
Record Document : Type := mkDoc {
  id : Z;
  content : str;
  source : str;
  tags : list str
}.

(** [{ ...doc, similarity }] *)
Record Candidate : Type := mkCand {
  c_doc : Document;
  similarity : Q
}.

(** [{ ...doc, likeScore }] *)
Record RankedResult : Type := mkRanked {
  r_cand : Candidate;
  likeScore : Z
}.

Definition r_tags (r : RankedResult) : list str := tags (c_doc (r_cand r)).
Definition r_similarity (r : RankedResult) : Q := similarity (r_cand r).

(** A value that [calculateTagEIG] stores in its object [tagFrequency]: a
    count, or, under a name that the object inherits from [Object.prototype]
    with a function as its value, a string: the text of that function
    followed by one character [1] for every time the name was counted.  (The
    language leaves the text of a built-in function to the implementation; it
    starts with [function] and is no numeral.) *)
Inductive Frequency : Type :=
| Count (n : Z)
| FunctionText (name : str) (ones : nat).

(** [{ tag, frequency, eig }] *)
Record TagRecommendation : Type := mkRec {
  tag : str;
  frequency : Frequency;
  eig : JsNumber.numeric
}.

(** ** [parseSearchInput] *)

(** The body of [tags.forEach]; the accumulator holds [likeTags], [mustTags]
    and [mustNotTags]. *)
Definition classify (acc : list str * list str * list str) (tag : str)
    : list str * list str * list str :=
  let '(likeTags, mustTags, mustNotTags) := acc in
  if startsWith tag "+" then (likeTags, mustTags ++ [substring1 tag], mustNotTags)
  else if startsWith tag "-" then (likeTags, mustTags, mustNotTags ++ [substring1 tag])
  else if startsWith tag "~" then (likeTags ++ [substring1 tag], mustTags, mustNotTags)
  else (likeTags ++ [tag], mustTags, mustNotTags).

Definition parseSearchInput (input : str) : ParsedQuery :=
  let parts := split_ws (trim input) in
  let query := hd [] parts in
  let tags := tl parts in
  let '(likeTags, mustTags, mustNotTags) := fold_left classify tags ([], [], []) in
  mkParsed query likeTags mustTags mustNotTags.

(** ** [Math.random] *)

(** A computation that may call [Math.random]: it is given the values that
    the successive calls return (numbers from 0 up to, not including, 1) and
    the number of calls made so far. *)
Definition Rand (A : Type) : Type := (nat -> JsNumber.float) -> nat -> A * nat.

Definition ret (A : Type) (a : A) : Rand A := fun _ n => (a, n).

Definition bind (A B : Type) (m : Rand A) (k : A -> Rand B) : Rand B :=
  fun draws n => let (a, n') := m draws n in k a draws n'.

Definition Math_random : Rand JsNumber.float := fun draws n => (draws n, S n).

(** [l.map(f)] for an [f] that may call [Math.random]. *)
Fixpoint mapR (A B : Type) (f : A -> Rand B) (l : list A) : Rand (list B) :=
  match l with
  | [] => ret []
  | a :: l' => bind (f a) (fun b => bind (mapR f l') (fun bs => ret (b :: bs)))
  end.

(** The result of a computation that starts with no call made. *)
Definition run (A : Type) (m : Rand A) (draws : nat -> JsNumber.float) : A :=
  fst (m draws 0).

(** ** [calculateSimilarity] *)

(** [qWord => contentWords.some(cWord => cWord.includes(qWord) || qWord.includes(cWord))] *)
Definition wordMatches (contentWords : list str) (qWord : str) : bool :=
  JsArray.some (fun cWord => includes cWord qWord || includes qWord cWord)
               contentWords.

(** The score before the random factor ([totalScore]). *)
Definition totalScore (query content : str) : JsNumber.float :=
  let queryLower := toLowerCase query in
  let contentLower := toLowerCase content in
  let exactMatch :=
    if includes contentLower queryLower then JsNumber.f0_8 else JsNumber.f0 in
  let queryWords :=
    filter (fun w => 0 <? length w) (split_ws queryLower) in
  let contentWords := split_ws contentLower in
  let keywordMatch :=
    if 0 <? length queryWords then
      let matchedWords := filter (wordMatches contentWords) queryWords in
      JsNumber.fmul
        (JsNumber.fdiv (JsNumber.of_nat (length matchedWords))
                       (JsNumber.of_nat (length queryWords)))
        JsNumber.f0_6
    else JsNumber.f0 in
  let queryChars := remove_ws queryLower in
  let charMatches :=
    fold_left (fun n char => if includes contentLower [char] then S n else n)
              queryChars 0 in
  let partialMatch :=
    if 0 <? length queryChars then
      JsNumber.fmul
        (JsNumber.Math_sqrt
           (JsNumber.fdiv (JsNumber.of_nat charMatches)
                          (JsNumber.of_nat (length queryChars))))
        JsNumber.f0_3
    else JsNumber.f0 in
  let lengthPenalty :=
    JsNumber.Math_min
      (JsNumber.fdiv (JsNumber.of_nat (length queryLower)) JsNumber.f10)
      JsNumber.f1 in
  JsNumber.fmul
    (JsNumber.Math_max exactMatch (JsNumber.fadd keywordMatch partialMatch))
    lengthPenalty.

Definition calculateSimilarity (query content : str) : Rand JsNumber.float :=
  if is_empty query then ret JsNumber.f0_3
  else
    let total := totalScore query content in
    bind Math_random (fun r =>
      let randomFactor :=
        JsNumber.fadd JsNumber.f0_85 (JsNumber.fmul r JsNumber.f0_15) in
      ret (JsNumber.Math_min (JsNumber.fmul total randomFactor) JsNumber.f0_95)).

(** ** [performSearch] *)

(** [docTag.toLowerCase().includes(tag.toLowerCase())] *)
Definition tagIncludes (docTag tag : str) : bool :=
  includes (toLowerCase docTag) (toLowerCase tag).

(** [doc.tags.some(docTag => docTag.toLowerCase().includes(tag.toLowerCase()))] *)
Definition hasTag (docTags : list str) (tag : str) : bool :=
  JsArray.some (fun docTag => tagIncludes docTag tag) docTags.

(** [(a, b) => b.similarity - a.similarity] is positive. *)
Definition bySimilarity (a b : Candidate) : bool :=
  JsNumber.positive (similarity b - similarity a)%Q.

(** Step 1: the similarity recall over the documents, the best eight kept. *)
Definition recall (mockDocuments : list Document) (query : str)
    : Rand (list Candidate) :=
  bind (mapR (fun doc =>
                bind (calculateSimilarity query (content doc)) (fun s =>
                  ret (mkCand doc (JsNumber.number s))))
             mockDocuments)
       (fun candidates =>
          ret (JsArray.slice0 8 (JsArray.sort bySimilarity candidates))).

(** Step 2: the filter on [mustTags] and [mustNotTags]. *)
Definition keeps (mustTags mustNotTags : list str) (doc : Candidate) : bool :=
  let hasMustTags :=
    JsArray.every (fun tag => hasTag (tags (c_doc doc)) tag) mustTags in
  let hasNoMustNotTags :=
    JsArray.every (fun tag => negb (hasTag (tags (c_doc doc)) tag)) mustNotTags in
  hasMustTags && hasNoMustNotTags.

Definition applyFilterTags (mustTags mustNotTags : list str)
    (candidates : list Candidate) : list Candidate :=
  filter (keeps mustTags mustNotTags) candidates.

(** Step 3: the like score and the final order. *)
Definition countLikes (likeTags : list str) (doc : Candidate) : Z :=
  fold_left (fun likeScore tag =>
               if hasTag (tags (c_doc doc)) tag then (likeScore + 1)%Z
               else likeScore)
            likeTags 0%Z.

Definition byLikeThenSimilarity (a b : RankedResult) : bool :=
  if negb (likeScore b =? likeScore a)%Z
  then (0 <? likeScore b - likeScore a)%Z
  else JsNumber.positive (r_similarity b - r_similarity a)%Q.

Definition rerank (likeTags : list str) (candidates : list Candidate)
    : list RankedResult :=
  JsArray.sort byLikeThenSimilarity
    (map (fun doc => mkRanked doc (countLikes likeTags doc)) candidates).

(** Steps 2 and 3 and the cut to five results, on given candidates. *)
Definition rank (parsed : ParsedQuery) (candidates : list Candidate)
    : list RankedResult :=
  JsArray.slice0 5
    (rerank (likeTags parsed)
       (applyFilterTags (mustTags parsed) (mustNotTags parsed) candidates)).

Definition performSearch (mockDocuments : list Document) (parsed : ParsedQuery)
    : Rand (list RankedResult) :=
  bind (recall mockDocuments (query parsed)) (fun candidates =>
    ret (rank parsed candidates)).

(** ** [calculateTagEIG] *)

(** The object [tagFrequency] starts as [{}], so it inherits the properties
    of [Object.prototype].  These are the names under which it inherits a
    function. *)
Definition inherited_methods : list str :=
  map lit ["constructor"; "hasOwnProperty"; "isPrototypeOf";
           "propertyIsEnumerable"; "toLocaleString"; "toString"; "valueOf";
           "__defineGetter__"; "__defineSetter__"; "__lookupGetter__";
           "__lookupSetter__"]%string.

Definition is_inherited_method (tag : str) : bool :=
  existsb (str_eqb tag) inherited_methods.

(** The name under which it inherits the accessor of its prototype. *)
Definition proto : str := lit "__proto__".

(** A name that [{}] inherits. *)
Definition is_inherited (tag : str) : bool :=
  str_eqb tag proto || is_inherited_method tag.

(** [value + 1]: a number is incremented; a string gets the character [1]
    appended. *)
Definition plusOne (value : Frequency) : Frequency :=
  match value with
  | Count n => Count (n + 1)%Z
  | FunctionText name ones => FunctionText name (S ones)
  end.

(** [tagFrequency[tag] = (tagFrequency[tag] || 0) + 1], the own properties of
    the object in the order they were first set.

    - A property of its own holds a positive count or a non-empty string,
      which [||] keeps.
    - Without a property of its own, [tagFrequency[tag]] is [undefined] and
      the count starts from 0, unless the name is inherited.
    - Under an inherited method name, [tagFrequency[tag]] is the function;
      [+ 1] makes of it the text of the function followed by [1], and the
      assignment stores that string as a property of the object.
    - Under [__proto__], [tagFrequency[tag]] is [Object.prototype]; [+ 1]
      makes a string of it, and the assignment calls the inherited setter,
      which ignores a value that is neither an object nor [null]: the object
      stays as it is, and [__proto__] never is a property of its own. *)
Fixpoint increment (tagFrequency : list (str * Frequency)) (tag : str)
    : list (str * Frequency) :=
  match tagFrequency with
  | [] =>
      if str_eqb tag proto then []
      else if is_inherited_method tag then [(tag, FunctionText tag 1)]
      else [(tag, Count 1)]
  | (k, value) :: rest =>
      if str_eqb k tag then (k, plusOne value) :: rest
      else (k, value) :: increment rest tag
  end.

(** The two nested [forEach] loops, from the object [o]. *)
Definition countFrom (o : list (str * Frequency)) (results : list RankedResult)
    : list (str * Frequency) :=
  fold_left (fun tagFrequency doc => fold_left increment (r_tags doc) tagFrequency)
            results o.

Definition countTags (results : list RankedResult) : list (str * Frequency) :=
  countFrom [] results.

(** The keys that are array indices (["0"], ["1"], ... up to 2^32 - 2, written
    without a leading zero) and their values. *)
Definition is_digit (c : ascii) : bool :=
  ((48 <=? code c) && (code c <=? 57))%N.

Definition index_value (k : str) : N :=
  fold_left (fun n c => (10 * n + (code c - 48))%N) k 0%N.

Definition is_array_index (k : str) : bool :=
  match k with
  | [] => false
  | c :: k' =>
      forallb is_digit k
      && (negb (Ascii.eqb c "0"%char) || is_empty k')
      && (length k <=? 10)
      && (index_value k <? 4294967295)%N
  end.

(** [Object.entries(tagFrequency)]: the array indices first, in ascending
    order, then the other keys in the order they were set. *)
Definition Object_entries (o : list (str * Frequency)) : list (str * Frequency) :=
  JsArray.sort (fun a b => (index_value (fst b) <? index_value (fst a))%N)
               (filter (fun e => is_array_index (fst e)) o)
  ++ filter (fun e => negb (is_array_index (fst e))) o.

(** [(a, b) => b.eig - a.eig] is positive. *)
Definition byEig (a b : TagRecommendation) : bool :=
  JsNumber.positive_or_nan (JsNumber.minus (eig b) (eig a)).

(** [freq] read as a number, as [-] does: the string of an inherited name is
    no numeral and gives NaN. *)
Definition toNumber (freq : Frequency) : JsNumber.numeric :=
  match freq with
  | Count n => JsNumber.Finite (inject_Z n)
  | FunctionText _ _ => JsNumber.NaN
  end.

(** [([tag, freq]) => ({ tag, frequency: freq, eig: Math.abs(freq - totalResults / 2) })] *)
Definition scored (totalResults : nat) (e : str * Frequency) : TagRecommendation :=
  let (tag, freq) := e in
  mkRec tag freq
        (JsNumber.Math_abs
           (JsNumber.minus (toNumber freq)
              (JsNumber.Finite (inject_Z (Z.of_nat totalResults) / 2)%Q))).

(** [tagsWithEIG].  When an [eig] is NaN the comparator returns NaN, which
    [sort] takes as 0; such a comparator is not a consistent one, and the
    language then leaves the order of the sorted array to the
    implementation.  The entries are the same in any order. *)
Definition tagsWithEIG (results : list RankedResult) : list TagRecommendation :=
  let totalResults := length results in
  JsArray.sort byEig
    (map (scored totalResults) (Object_entries (countTags results))).

Definition calculateTagEIG (results : list RankedResult) : list TagRecommendation :=
  let totalResults := length results in
  if totalResults =? 0 then []
  else JsArray.slice0 15 (tagsWithEIG results).

(** ** The effect on [searchInput]: parse, search, recommend *)

Definition pipeline (mockDocuments : list Document) (searchInput : str)
    : Rand (list RankedResult * list TagRecommendation) :=
  let parsed := parseSearchInput searchInput in
  bind (performSearch mockDocuments parsed) (fun results =>
    ret (results, calculateTagEIG results)).

(** ** [getTagState] and [toggleTag] *)

(** [existingTag.replace(/^[+\-~]/, '')] *)
Definition cleanTag (existingTag : str) : str :=
  if starts_with_prefix existingTag then tl existingTag else existingTag.

Fixpoint tagStateIn (existingTags : list str) (tag : str) : TagState :=
  match existingTags with
  | [] => none
  | existingTag :: rest =>
      if str_eqb (cleanTag existingTag) tag then
        if startsWith existingTag "+" then must
        else if startsWith existingTag "-" then mustNot
        else like
      else tagStateIn rest tag
  end.

Definition getTagState (searchInput : str) (tag : str) : TagState :=
  let parts := split_ws (trim searchInput) in
  tagStateIn (tl parts) tag.

(** [toggleTag]: from the current [searchInput] to the next. *)
Definition toggleTag (searchInput : str) (tag : str) : str :=
  let currentState := getTagState searchInput tag in
  let parts := split_ws (trim searchInput) in
  let query := hd [] parts in
  let filteredTags :=
    filter (fun existingTag => negb (str_eqb (cleanTag existingTag) tag))
           (tl parts) in
  let newInput :=
    if 0 <? length filteredTags
    then query ++ lit " " ++ join (lit " ") filteredTags
    else query in
  let newInput :=
    match currentState with
    | none => newInput ++ lit " ~" ++ tag
    | like => newInput ++ lit " +" ++ tag
    | must => newInput ++ lit " -" ++ tag
    | mustNot => newInput
    end in
  trim newInput.

(** ** [addTagWithType], [addTag] and [removeTag] *)

(** [type === 'must' ? '+' : type === 'mustNot' ? '-' : '~'] *)
Definition prefixFor (type : TagState) : str :=
  match type with
  | must => lit "+"
  | mustNot => lit "-"
  | _ => lit "~"
  end.

(** [addTagWithType]: from the current [searchInput] to the next. *)
Definition addTagWithType (searchInput : str) (tag : str) (type : TagState)
    : str :=
  let prefix := prefixFor type in
  let currentInput := trim searchInput in
  let newTag := prefix ++ tag in
  if is_empty currentInput then newTag
  else currentInput ++ lit " " ++ newTag.

(** [addTag]: the tag is added only when its state is ['none']. *)
Definition addTag (searchInput : str) (tag : str) (type : TagState) : str :=
  match getTagState searchInput tag with
  | none => addTagWithType searchInput tag type
  | _ => searchInput
  end.

(** [removeTag] *)
Definition removeTag (searchInput : str) (tagToRemove : str) (type : TagState)
    : str :=
  let parts := split_ws (trim searchInput) in
  let query := hd [] parts in
  let prefix := prefixFor type in
  let filteredTags :=
    filter (fun tag => negb (str_eqb tag (prefix ++ tagToRemove))
                       && negb (str_eqb tag tagToRemove))
           (tl parts) in
  let newInput :=
    query ++ (if 0 <? length filteredTags
              then lit " " ++ join (lit " ") filteredTags
              else []) in
  trim newInput.

End Prototype.

(* ================================================================== *)
(** * The specification's words *)
(* ================================================================== *)

(** Definitions that follow the wording of the specification; the properties
    below compare them with the code. *)
Module Spec.

(** The tokens before the first tag token, and the tokens from it on. *)
Fixpoint splitAtFirstTag (tokens : list str) : list str * list str :=
  match tokens with
  | [] => ([], [])
  | t :: rest =>
      if is_tag_token t then ([], tokens)
      else let (before, from) := splitAtFirstTag rest in (t :: before, from)
  end.

(** The tags of [l], each with the prefix [c] put in front. *)
Definition prefixed (c : ascii) (l : list str) : list str :=
  map (fun t => c :: t) l.

(** The tag tokens with prefix [c], stripped of it. *)
Definition tagsWithPrefix (c : ascii) (tokens : list str) : list str :=
  map substring1 (filter (fun t => is_tag_token t && startsWith t c) tokens).

(** Once free text has ended: the [~] tag tokens stripped of the prefix, and
    every token that is not a tag token as it stands. *)
Definition likesAfterFreeText (tokens : list str) : list str :=
  map (fun t => if is_tag_token t then substring1 t else t)
      (filter (fun t => negb (is_tag_token t) || startsWith t "~") tokens).

Definition parse (input : str) : ParsedQuery :=
  let (before, from) := splitAtFirstTag (words input) in
  mkParsed (join (lit " ") before)
           (likesAfterFreeText from)
           (tagsWithPrefix "+" from)
           (tagsWithPrefix "-" from).

(** Fully empty: no free text and no tag in any set. *)
Definition fullyEmpty (q : ParsedQuery) : Prop :=
  query q = [] /\ likeTags q = [] /\ mustTags q = [] /\ mustNotTags q = [].

(** [u] and [t] are the same tag up to case. *)
Definition sameTag (u t : str) : bool :=
  str_eqb (toLowerCase u) (toLowerCase t).

(** [t] is in [l] up to case. *)
Definition member (l : list str) (t : str) : bool :=
  existsb (fun u => str_eqb (toLowerCase u) (toLowerCase t)) l.

(** The normalized tag of [u] is in at most one of the three sets. *)
Definition oneSetFor (p : ParsedQuery) (u : str) : Prop :=
  member (likeTags p) u && member (mustTags p) u = false
  /\ member (likeTags p) u && member (mustNotTags p) u = false
  /\ member (mustTags p) u && member (mustNotTags p) u = false.

(** No normalized tag is in more than one of the three sets. *)
Definition atMostOneSet (q : ParsedQuery) : bool :=
  forallb (fun t => negb (member (mustTags q) t) && negb (member (mustNotTags q) t))
          (likeTags q)
  && forallb (fun t => negb (member (mustNotTags q) t)) (mustTags q).

(** [t] is in none of the three sets. *)
Definition absent (q : ParsedQuery) (t : str) : bool :=
  negb (member (likeTags q) t) && negb (member (mustTags q) t)
  && negb (member (mustNotTags q) t).

(** The canonical serialization is [NaviSearch.updateSearchInputWithTags]. *)
Definition serialize (q : ParsedQuery) : str :=
  NaviSearch.updateSearchInputWithTags
    (query q) (likeTags q) (mustTags q) (mustNotTags q).

(** Equal up to the case and the order of the tags within each set. *)
Definition sameUpToCaseAndOrder (q1 q2 : ParsedQuery) : Prop :=
  query q1 = query q2
  /\ Permutation (map toLowerCase (likeTags q1)) (map toLowerCase (likeTags q2))
  /\ Permutation (map toLowerCase (mustTags q1)) (map toLowerCase (mustTags q2))
  /\ Permutation (map toLowerCase (mustNotTags q1))
                 (map toLowerCase (mustNotTags q2)).

(** A query that the text format can carry: the free text is made of tokens
    joined by single spaces, none of them a tag token, and every tag is a
    token (not empty, no white space). *)
Definition textual (q : ParsedQuery) : bool :=
  str_eqb (join (lit " ") (words (query q))) (query q)
  && forallb (fun w => negb (is_tag_token w)) (words (query q))
  && forallb is_token (likeTags q)
  && forallb is_token (mustTags q)
  && forallb is_token (mustNotTags q).

(** A query tag matches a document tag, as the specification has it: up to
    case, one contains the other. *)
Definition matchesEitherWay (docTag tag : str) : bool :=
  includes (toLowerCase docTag) (toLowerCase tag)
  || includes (toLowerCase tag) (toLowerCase docTag).

(** [t] occurs in [s] as a contiguous substring. *)
Definition substringOf (t s : str) : Prop :=
  exists before after, s = before ++ t ++ after.

(** A candidate is to be kept, as the specification has it: every must tag
    matches some tag of the document and no must-not tag matches any. *)
Definition keepsEitherWay (mustTags mustNotTags : list str)
    (doc : Prototype.Candidate) : bool :=
  forallb (fun tag => existsb (fun docTag => matchesEitherWay docTag tag)
                              (Prototype.tags (Prototype.c_doc doc)))
          mustTags
  && forallb (fun tag => negb (existsb (fun docTag => matchesEitherWay docTag tag)
                                       (Prototype.tags (Prototype.c_doc doc))))
             mustNotTags.

(** Descending by the pair (likeScore, similarity): [a] may stand before [b]. *)
Definition descending (a b : Prototype.RankedResult) : Prop :=
  (Prototype.likeScore b < Prototype.likeScore a)%Z
  \/ (Prototype.likeScore a = Prototype.likeScore b
      /\ (Prototype.r_similarity b <= Prototype.r_similarity a)%Q).

(** The tags of every result form a set: no tag is listed twice. *)
Fixpoint distinct (l : list str) : bool :=
  match l with
  | [] => true
  | t :: rest => negb (existsb (str_eqb t) rest) && distinct rest
  end.

Definition tagSets (results : list Prototype.RankedResult) : bool :=
  forallb (fun r => distinct (Prototype.r_tags r)) results.

(** The parser of the prototype, by tokens: the first token is the free text
    whatever it starts with; every later token goes by its first character,
    to the like tags when that is no prefix. *)
Definition parsePrototype (input : str) : ParsedQuery :=
  match words input with
  | [] => mkParsed [] [] [] []
  | first :: rest =>
      mkParsed first
        (map Prototype.cleanTag
             (filter (fun t => negb (startsWith t "+") && negb (startsWith t "-"))
                     rest))
        (map substring1 (filter (fun t => startsWith t "+") rest))
        (map substring1 (filter (fun t => startsWith t "-") rest))
  end.

(** The token that [toggleTag] of the prototype appends for a tag in state
    [st]. *)
Definition suffixFor (st : TagState) (t : str) : list str :=
  match st with
  | none => ["~"%char :: t]
  | like => ["+"%char :: t]
  | must => ["-"%char :: t]
  | mustNot => []
  end.

(** A click whose tag the text format can carry: a toggled or directly set
    tag is a token. *)
Definition textualOp (op : NaviSearch.TagOp) : bool :=
  match op with
  | NaviSearch.OpRemove _ _ => true
  | _ => is_token (NaviSearch.opTag op)
  end.

(** Two invocations see the same first [k] values of [Math.random]. *)
Definition sameDraws (k : nat) (draws1 draws2 : nat -> JsNumber.float) : Prop :=
  forall i, (i < k)%nat -> draws1 i = draws2 i.

(** The number of times that a value of the object [tagFrequency] was
    counted. *)
Definition amount (value : Prototype.Frequency) : Z :=
  match value with
  | Prototype.Count n => n
  | Prototype.FunctionText _ ones => Z.of_nat ones
  end.

(** The number of times that the object has counted [k] (0 when it has no
    property [k] of its own). *)
Fixpoint lookup (o : list (str * Prototype.Frequency)) (k : str) : Z :=
  match o with
  | [] => 0%Z
  | (k', value) :: rest => if str_eqb k' k then amount value else lookup rest k
  end.

(** The number of times [k] occurs in [l]. *)
Definition occurrences (k : str) (l : list str) : Z :=
  Z.of_nat (length (filter (str_eqb k) l)).

(** The number of results whose tag set contains the tag. *)
Definition frequencyIn (results : list Prototype.RankedResult) (tag : str) : Z :=
  Z.of_nat
    (length (filter (fun r => existsb (str_eqb tag) (Prototype.r_tags r)) results)).

End Spec.

(* ================================================================== *)
(** * Notions for the further properties of the code *)
(* ================================================================== *)

Module Notions.

(** The cycle of a tag's state under repeated clicks, as the title of the tag
    button and the comment on [toggleTag] have it: none, like, must, must-not
    and none again. *)
Definition nextState (st : TagState) : TagState :=
  match st with
  | none => like
  | like => must
  | must => mustNot
  | mustNot => none
  end.

(** The tag set of a structured query that a state names. *)
Definition tagsIn (st : TagState) (p : ParsedQuery) : list str :=
  match st with
  | like => likeTags p
  | must => mustTags p
  | mustNot => mustNotTags p
  | none => []
  end.

(** A tag that a line of the dictionary editor can hold: not empty, no white
    space at its two ends, no line feed. *)
Definition dictionaryTag (t : str) : bool :=
  negb (is_empty t) && str_eqb (trim t) t
  && forallb (fun c => negb (Ascii.eqb c newline)) t.

(** Two structured queries that differ in the case of their letters only. *)
Definition sameUpToCase (p1 p2 : ParsedQuery) : Prop :=
  toLowerCase (query p1) = toLowerCase (query p2)
  /\ map toLowerCase (likeTags p1) = map toLowerCase (likeTags p2)
  /\ map toLowerCase (mustTags p1) = map toLowerCase (mustTags p2)
  /\ map toLowerCase (mustNotTags p1) = map toLowerCase (mustNotTags p2).

(** A list whose elements are elements of [l], each at most as often as [l]
    has it. *)
Definition taken (A : Type) (part l : list A) : Prop :=
  exists others, Permutation (part ++ others) l.

(** The number of times a tag is listed in the results, a tag that a result
    lists twice counted twice. *)
Definition listings (results : list Prototype.RankedResult) (tag : str) : Z :=
  fold_right (fun r n => (Spec.occurrences tag (Prototype.r_tags r) + n)%Z)
             0%Z results.

(** No tag of the results is a name that an object inherits from
    [Object.prototype]. *)
Definition ownNames (results : list Prototype.RankedResult) : bool :=
  forallb (fun r => forallb (fun t => negb (Prototype.is_inherited t))
                            (Prototype.r_tags r))
          results.

(** The value that the object [tagFrequency] holds under a tag that it has
    counted [n] times. *)
Definition counted (tag : str) (n : Z) : Prototype.Frequency :=
  if Prototype.is_inherited_method tag
  then Prototype.FunctionText tag (Z.to_nat n)
  else Prototype.Count n.

(** Every value of the object is the one that goes with its name and the
    number of times it was counted. *)
Definition shaped (o : list (str * Prototype.Frequency)) : Prop :=
  forall k value, In (k, value) o -> value = counted k (Spec.amount value).

(** Descending by [eig], the two values numbers: [a] may stand before [b]. *)
Definition descendingByEig (a b : Prototype.TagRecommendation) : Prop :=
  match Prototype.eig a, Prototype.eig b with
  | JsNumber.Finite x, JsNumber.Finite y => (y <= x)%Q
  | _, _ => False
  end.

End Notions.

(* ================================================================== *)
(** * Example data *)
(* ================================================================== *)

Module Examples.
Import Prototype.

(** Two documents in the manner of [mockDocuments]. *)
Definition reactGuide : Document :=
  mkDoc 1 (lit "React is a JavaScript library for user interfaces")
        (lit "react-guide.md") [lit "JavaScript"; lit "React"].

Definition vueTutorial : Document :=
  mkDoc 2 (lit "Vue is a progressive JavaScript framework")
        (lit "vue-tutorial.md") [lit "JavaScript"; lit "Vue"].

Definition documents : list Document := [reactGuide; vueTutorial].

(** Values of [Math.random]: 0 then 0.5 from then on, and the other way. *)
Definition drawsLowFirst (n : nat) : JsNumber.float :=
  match n with
  | O => JsNumber.f0
  | S _ => JsNumber.f0_5
  end.

Definition drawsHighFirst (n : nat) : JsNumber.float :=
  match n with
  | O => JsNumber.f0_5
  | S _ => JsNumber.f0
  end.

(** Candidates and results with given tags. *)
Definition candidate (i : Z) (ts : list string) (sim : Q) : Candidate :=
  mkCand (mkDoc i [] [] (map lit ts)) sim.

Definition result (i : Z) (ts : list string) : RankedResult :=
  mkRanked (candidate i ts 0) 0.

End Examples.

(* ================================================================== *)
(** * Properties *)
(* ================================================================== *)

Unset Implicit Arguments.

Example split_ws_ex1 : split_ws (lit "a  b") = [lit "a"; lit "b"].
Proof. reflexivity. Qed.
Example split_ws_ex2 : split_ws (lit " a ") = [lit ""; lit "a"; lit ""].
Proof. reflexivity. Qed.
Example split_ws_ex3 : split_ws (lit "") = [lit ""].
Proof. reflexivity. Qed.
Example trim_ex : trim (lit "  a b  ") = lit "a b".
Proof. reflexivity. Qed.
Example collapse_ex : collapse_ws (lit "a   b  ") = lit "a b ".
Proof. reflexivity. Qed.
Example words_ex : words (lit "  ab  c ") = [lit "ab"; lit "c"].
Proof. reflexivity. Qed.
Example lower_ex : toLowerCase (lit "Web-DEV") = lit "web-dev".
Proof. reflexivity. Qed.
Example includes_ex : includes (lit "nosql") (lit "sql") = true /\ includes (lit "sql") (lit "nosql") = false.
Proof. split; reflexivity. Qed.

Example navi_parse_ex1 :
  NaviSearch.parseSearchInput (lit "firewall +security ~policy -deprecated")
  = mkParsed (lit "firewall") [lit "policy"] [lit "security"] [lit "deprecated"].
Proof. reflexivity. Qed.

Example navi_parse_ex2 :
  NaviSearch.parseSearchInput (lit " a + b +x c - ")
  = mkParsed (lit "a + b") [lit "c"; lit "-"] [lit "x"] [].
Proof. reflexivity. Qed.

Example navi_toggle_ex :
  NaviSearch.toggleTagInSearch (lit "react ~JS") (lit "js") = lit "react +js".
Proof. reflexivity. Qed.

(** The scenarios of the specification. *)
Example filter_ex_must :
  Prototype.applyFilterTags [lit "secure"] []
    [Examples.candidate 1 ["secure"; "audit"]%string 0;
     Examples.candidate 2 ["audit"%string] 1]
  = [Examples.candidate 1 ["secure"; "audit"]%string 0].
Proof. reflexivity. Qed.

Example filter_ex_must_not :
  Prototype.applyFilterTags [] [lit "legacy"]
    [Examples.candidate 1 ["legacy"%string] 1] = [].
Proof. reflexivity. Qed.

Example rank_ex_end_to_end :
  map (fun r => (Prototype.id (Prototype.c_doc (Prototype.r_cand r)),
                 Prototype.likeScore r))
      (Prototype.rank
         (NaviSearch.parseSearchInput (lit "firewall +security ~policy -deprecated"))
         [Examples.candidate 1 ["security"; "policy"]%string (9 # 10);
          Examples.candidate 2 ["security"%string] (95 # 100);
          Examples.candidate 3 ["deprecated"; "security"]%string (99 # 100)])
  = [(1%Z, 1%Z); (2%Z, 0%Z)].
Proof. reflexivity. Qed.

Example eig_ex :
  Prototype.calculateTagEIG
    [Examples.result 1 ["a"; "b"]%string; Examples.result 2 ["a"%string];
     Examples.result 3 ["b"%string]; Examples.result 4 ["c"%string]]
  = [Prototype.mkRec (lit "c") (Prototype.Count 1)
                     (JsNumber.Finite (Qabs (1 - 4 / 2)));
     Prototype.mkRec (lit "a") (Prototype.Count 2)
                     (JsNumber.Finite (Qabs (2 - 4 / 2)));
     Prototype.mkRec (lit "b") (Prototype.Count 2)
                     (JsNumber.Finite (Qabs (2 - 4 / 2)))].
Proof. reflexivity. Qed.

(** The names that the object [tagFrequency] inherits: under [toString] the
    frequency is a string and the [eig] is NaN, and [__proto__] gets no
    entry. *)
Example eig_ex_inherited :
  Prototype.calculateTagEIG [Examples.result 1 ["toString"; "__proto__"]%string]
  = [Prototype.mkRec (lit "toString")
                     (Prototype.FunctionText (lit "toString") 1) JsNumber.NaN].
Proof. reflexivity. Qed.

Example prototype_parse_ex :
  Prototype.parseSearchInput (lit "React +web -backend ~JS x +")
  = mkParsed (lit "React") [lit "JS"; lit "x"] [lit "web"; lit ""] [lit "backend"].
Proof. reflexivity. Qed.

(* ------------------------------------------------------------------ *)
(** ** Strings *)
(* ------------------------------------------------------------------ *)

Section StringFacts.

Lemma str_eqb_eq (a b : str) : str_eqb a b = true <-> a = b.
Proof.
  unfold str_eqb. destruct (list_eq_dec ascii_dec a b); split; congruence.
Qed.

Lemma str_eqb_refl (a : str) : str_eqb a a = true.
Proof. now apply str_eqb_eq. Qed.

Lemma str_eqb_neq (a b : str) : str_eqb a b = false <-> a <> b.
Proof.
  unfold str_eqb. destruct (list_eq_dec ascii_dec a b); split; congruence.
Qed.

Lemma lower_char_space (c : ascii) : is_space (lower_char c) = is_space c.
Proof.
  destruct c as [[] [] [] [] [] [] [] []]; reflexivity.
Qed.

Lemma toLowerCase_no_space (s : str) : no_space (toLowerCase s) = no_space s.
Proof.
  induction s as [|c s IH]; simpl; [reflexivity|].
  now rewrite lower_char_space, IH.
Qed.

Lemma toLowerCase_is_token (s : str) : is_token (toLowerCase s) = is_token s.
Proof.
  unfold is_token. rewrite toLowerCase_no_space. now destruct s.
Qed.

Lemma is_token_cons (c : ascii) (s : str) :
  is_token (c :: s) = negb (is_space c) && no_space s.
Proof. reflexivity. Qed.

Lemma words_space (c : ascii) (s : str) :
  is_space c = true -> words (c :: s) = words s.
Proof. intros H. simpl. now rewrite H. Qed.

Lemma words_head_nonspace (s : str) :
  is_empty s || starts_with_space s = false -> words s <> [].
Proof.
  destruct s as [|c s]; simpl; [discriminate|].
  intros H. rewrite H.
  destruct (is_empty s || starts_with_space s); [discriminate|].
  destruct (words s); discriminate.
Qed.

Lemma words_app (a b : str) :
  is_empty b || starts_with_space b = true ->
  words (a ++ b) = words a ++ words b.
Proof.
  intros Hb. induction a as [|c a IH]; [reflexivity|].
  simpl. destruct (is_space c); [exact IH|].
  destruct a as [|c' a'].
  - simpl. now rewrite Hb.
  - change ((c' :: a') ++ b) with (c' :: a' ++ b) in *.
    cbn [is_empty starts_with_space orb].
    destruct (is_space c') eqn:Hc'.
    + now rewrite IH.
    + rewrite IH.
      assert (Hne : words (c' :: a') <> [])
        by (apply words_head_nonspace; simpl; now rewrite Hc').
      destruct (words (c' :: a')); [congruence|reflexivity].
Qed.

Lemma words_token (w : str) : is_token w = true -> words w = [w].
Proof.
  induction w as [|c w IH]; [discriminate|].
  rewrite is_token_cons. intros H. apply andb_prop in H as [Hc Hw].
  apply negb_true_iff in Hc. simpl. rewrite Hc.
  destruct w as [|c' w']; [reflexivity|].
  cbn [is_empty orb starts_with_space].
  simpl in Hw. apply andb_prop in Hw as [Hc' Hw'].
  apply negb_true_iff in Hc'. rewrite Hc'.
  rewrite IH; [reflexivity|].
  rewrite is_token_cons, Hc'. simpl. exact Hw'.
Qed.

Lemma words_join (l : list str) :
  words (join (lit " ") l) = concat (map words l).
Proof.
  induction l as [|x l IH]; [reflexivity|].
  destruct l as [|y l'].
  - simpl. now rewrite app_nil_r.
  - change (join (lit " ") (x :: y :: l'))
      with (x ++ lit " " ++ join (lit " ") (y :: l')).
    rewrite words_app by reflexivity.
    change (lit " " ++ join (lit " ") (y :: l'))
      with (" "%char :: join (lit " ") (y :: l')).
    rewrite words_space by reflexivity.
    now rewrite IH.
Qed.

Lemma words_join_tokens (l : list str) :
  forallb is_token l = true -> words (join (lit " ") l) = l.
Proof.
  intros H. rewrite words_join.
  induction l as [|x l IH]; [reflexivity|].
  simpl in H. apply andb_prop in H as [Hx Hl].
  simpl. rewrite (words_token _ Hx). simpl. now rewrite IH.
Qed.

Lemma words_trimStart (s : str) : words (trimStart s) = words s.
Proof.
  induction s as [|c s IH]; [reflexivity|].
  simpl. destruct (is_space c) eqn:Hc; [exact IH|].
  simpl. now rewrite Hc.
Qed.

Lemma trimEnd_head (s : str) :
  trimEnd s <> [] ->
  is_empty (trimEnd s) = is_empty s
  /\ starts_with_space (trimEnd s) = starts_with_space s.
Proof.
  destruct s as [|c s]; [intros H; now elim H|].
  simpl. destruct (trimEnd s).
  - destruct (is_space c) eqn:Hc; [intros H; now elim H|].
    intros _. simpl. now rewrite Hc.
  - intros _. now simpl.
Qed.

Lemma trimEnd_nil_head (s : str) :
  trimEnd s = [] -> is_empty s || starts_with_space s = true.
Proof.
  destruct s as [|c s]; [reflexivity|].
  simpl. destruct (trimEnd s); [|discriminate].
  destruct (is_space c); [reflexivity|discriminate].
Qed.

Lemma words_trimEnd (s : str) : words (trimEnd s) = words s.
Proof.
  induction s as [|c s IH]; [reflexivity|].
  simpl. destruct (trimEnd s) as [|r rs] eqn:Hr.
  - simpl in IH. rewrite <- IH.
    destruct (is_space c) eqn:Hc; [reflexivity|].
    simpl. rewrite Hc. now rewrite (trimEnd_nil_head _ Hr).
  - destruct (is_space c) eqn:Hc.
    + rewrite words_space by exact Hc. exact IH.
    + assert (Hne : trimEnd s <> []) by (rewrite Hr; discriminate).
      destruct (trimEnd_head _ Hne) as [He Hs].
      rewrite Hr in He, Hs.
      change (words (c :: r :: rs)) with
        (if is_space c then words (r :: rs)
         else if is_empty (r :: rs) || starts_with_space (r :: rs)
              then [c] :: words (r :: rs)
              else match words (r :: rs) with
                   | w :: ws => (c :: w) :: ws
                   | [] => [[c]]
                   end).
      now rewrite Hc, He, Hs, IH.
Qed.

Lemma words_trim (s : str) : words (trim s) = words s.
Proof. unfold trim. now rewrite words_trimEnd, words_trimStart. Qed.

Lemma collapse_ws_head (s : str) :
  is_empty (collapse_ws s) = is_empty s
  /\ starts_with_space (collapse_ws s) = starts_with_space s.
Proof.
  induction s as [|c s IH]; [now split|].
  simpl. destruct (is_space c) eqn:Hc.
  - destruct (starts_with_space s) eqn:Hs.
    + destruct IH as [IH1 IH2]. rewrite IH1, IH2.
      destruct s; [discriminate|]. now split.
    + now split.
  - simpl. now rewrite Hc.
Qed.

Lemma words_collapse_ws (s : str) : words (collapse_ws s) = words s.
Proof.
  induction s as [|c s IH]; [reflexivity|].
  simpl. destruct (is_space c) eqn:Hc.
  - destruct (starts_with_space s); [exact IH|].
    rewrite words_space by reflexivity. exact IH.
  - destruct (collapse_ws_head s) as [He Hs].
    simpl. now rewrite Hc, He, Hs, IH.
Qed.

Lemma split_ws_head (s : str) :
  exists w ws, split_ws s = w :: ws
    /\ is_empty w = is_empty s || starts_with_space s.
Proof.
  induction s as [|c s IH]; [now exists [], []|].
  destruct IH as (w & ws & E & Hw).
  simpl. destruct (is_space c) eqn:Hc.
  - destruct (starts_with_space s) eqn:Hs.
    + exists w, ws. split; [exact E|]. rewrite Hw. now rewrite orb_true_r.
    + now exists [], (split_ws s).
  - rewrite E. now exists (c :: w), ws.
Qed.

Lemma words_split_ws (s : str) :
  filter (fun w => negb (is_empty w)) (split_ws s) = words s.
Proof.
  induction s as [|c s IH]; [reflexivity|].
  simpl. destruct (is_space c) eqn:Hc.
  - destruct (starts_with_space s); [exact IH|]. simpl. exact IH.
  - destruct (split_ws_head s) as (w & ws & E & Hw).
    rewrite E in *. simpl in *. rewrite <- Hw.
    destruct (is_empty w) eqn:Hew.
    + destruct w; [|discriminate]. simpl in *. now rewrite IH.
    + simpl in IH. rewrite <- IH. reflexivity.
Qed.

Lemma words_all_tokens (s : str) : forallb is_token (words s) = true.
Proof.
  induction s as [|c s IH]; [reflexivity|].
  simpl. destruct (is_space c) eqn:Hc; [exact IH|].
  destruct (is_empty s || starts_with_space s).
  - simpl. rewrite IH. unfold is_token. simpl. now rewrite Hc.
  - destruct (words s) as [|w ws]; simpl.
    + unfold is_token. simpl. now rewrite Hc.
    + simpl in IH. apply andb_prop in IH as [Hw Hws].
      rewrite Hws, andb_true_r. rewrite is_token_cons, Hc. simpl.
      unfold is_token in Hw. now apply andb_prop in Hw as [_ Hw].
Qed.

Lemma trim_empty_words (s : str) : is_empty (trim s) = true -> words s = [].
Proof.
  intros H. rewrite <- words_trim. now destruct (trim s).
Qed.

Lemma words_nil_trim (s : str) : words s = [] -> trim s = [].
Proof.
  intros H. rewrite <- words_trim in H.
  assert (G : forall r, trimEnd r <> [] -> words (trimEnd r) <> []).
  { intros r. rewrite words_trimEnd.
    induction r as [|c r IH]; [intros Hn; now elim Hn|].
    simpl. destruct (trimEnd r) eqn:Hr.
    - destruct (is_space c) eqn:Hc; [intros Hn; now elim Hn|].
      intros _. destruct (is_empty r || starts_with_space r); [discriminate|].
      destruct (words r); discriminate.
    - intros _. destruct (is_space c).
      + apply IH. discriminate.
      + destruct (is_empty r || starts_with_space r); [discriminate|].
        destruct (words r); discriminate. }
  unfold trim in *. destruct (trimEnd (trimStart s)) eqn:E; [reflexivity|].
  exfalso. apply (G (trimStart s)); rewrite E; [discriminate|exact H].
Qed.

End StringFacts.

(* ------------------------------------------------------------------ *)
(** ** The parser of NaviSearch.jsx *)
(* ------------------------------------------------------------------ *)

Section ParserFacts.
Import NaviSearch.

Lemma parseLoop_app (a b : list str) (v : ParseVars) :
  parseLoop (a ++ b) v = parseLoop b (parseLoop a v).
Proof. apply fold_left_app. Qed.

Lemma parseLoop_skips_empty (parts : list str) (v : ParseVars) :
  parseLoop parts v
  = parseLoop (filter (fun w => negb (is_empty w)) parts) v.
Proof.
  revert v. induction parts as [|p parts IH]; intros v; [reflexivity|].
  unfold parseLoop in *. simpl. destruct (is_empty p) eqn:Hp; simpl.
  - replace (parseStep v p) with v by (unfold parseStep; now rewrite Hp).
    apply IH.
  - apply IH.
Qed.

(** The parser runs its loop over the words of the input. *)
Lemma parseSearchInput_words (input : str) :
  parseSearchInput input = parseResult (parseLoop (words input) initVars).
Proof.
  unfold parseSearchInput.
  destruct (is_empty (trim input)) eqn:He.
  - now rewrite (trim_empty_words _ He).
  - now rewrite parseLoop_skips_empty, words_split_ws, words_trim.
Qed.

(** The three kinds of token. *)
Lemma token_kinds (t : str) :
  is_token t = true ->
  (exists c rest, t = c :: rest /\ rest <> [] /\ is_prefix_char c = true)
  \/ (is_tag_token t = false /\ only_prefix t = true)
  \/ (is_tag_token t = false /\ starts_with_prefix t = false).
Proof.
  destruct t as [|c rest]; [discriminate|]. intros _.
  unfold is_tag_token. simpl.
  destruct (is_prefix_char c) eqn:Hc.
  - destruct rest as [|c' rest'].
    + right. left. now split.
    + left. exists c, (c' :: rest'). repeat split; [discriminate|exact Hc].
  - right. right. now split.
Qed.

Lemma is_prefix_char_cases (c : ascii) :
  is_prefix_char c = true -> c = "+"%char \/ c = "-"%char \/ c = "~"%char.
Proof.
  unfold is_prefix_char. intros H.
  apply orb_prop in H as [H|H]; [apply orb_prop in H as [H|H]|];
    apply Ascii.eqb_eq in H; auto.
Qed.

(** A tag token: stripped, appended to its set, and free text is over. *)
Lemma parseStep_tag (v : ParseVars) (c : ascii) (rest : str) :
  rest <> [] -> is_prefix_char c = true ->
  parseStep v (c :: rest) =
    mkVars (queryTerms v)
           (v_likeTags v ++ (if Ascii.eqb c "~" then [rest] else []))
           (v_mustTags v ++ (if Ascii.eqb c "+" then [rest] else []))
           (v_mustNotTags v ++ (if Ascii.eqb c "-" then [rest] else []))
           false.
Proof.
  intros Hr Hc. destruct rest as [|c' rest']; [now elim Hr|].
  apply is_prefix_char_cases in Hc as [->|[->| ->]];
    unfold parseStep; simpl; now rewrite ?app_nil_r.
Qed.

(** Any other token while free text is collected joins the free text. *)
Lemma parseStep_free (v : ParseVars) (t : str) :
  is_token t = true -> is_tag_token t = false -> parsingQuery v = true ->
  parseStep v t =
    mkVars (queryTerms v ++ [t]) (v_likeTags v) (v_mustTags v)
           (v_mustNotTags v) true.
Proof.
  intros Ht Hn Hv. destruct t as [|c rest]; [discriminate|].
  unfold is_tag_token in Hn. simpl in Hn.
  unfold parseStep. rewrite Hv. simpl.
  destruct (is_prefix_char c) eqn:Hc.
  - destruct rest as [|c' rest']; [|discriminate].
    apply is_prefix_char_cases in Hc as [->|[->| ->]]; reflexivity.
  - assert (Ascii.eqb c "+" = false /\ Ascii.eqb c "-" = false
            /\ Ascii.eqb c "~" = false) as (H1 & H2 & H3).
    { unfold is_prefix_char in Hc.
      apply orb_false_elim in Hc as [Hc H3].
      apply orb_false_elim in Hc as [H1 H2]. auto. }
    now rewrite H1, H2, H3.
Qed.

(** Any other token once free text is over is a like tag. *)
Lemma parseStep_like (v : ParseVars) (t : str) :
  is_token t = true -> is_tag_token t = false -> parsingQuery v = false ->
  parseStep v t =
    mkVars (queryTerms v) (v_likeTags v ++ [t]) (v_mustTags v)
           (v_mustNotTags v) false.
Proof.
  intros Ht Hn Hv. destruct t as [|c rest]; [discriminate|].
  unfold is_tag_token in Hn. simpl in Hn.
  unfold parseStep. rewrite Hv. simpl.
  destruct (is_prefix_char c) eqn:Hc.
  - destruct rest as [|c' rest']; [|discriminate].
    apply is_prefix_char_cases in Hc as [->|[->| ->]]; reflexivity.
  - assert (Ascii.eqb c "+" = false /\ Ascii.eqb c "-" = false
            /\ Ascii.eqb c "~" = false) as (H1 & H2 & H3).
    { unfold is_prefix_char in Hc.
      apply orb_false_elim in Hc as [Hc H3].
      apply orb_false_elim in Hc as [H1 H2]. auto. }
    rewrite H1, H2, H3. simpl.
    destruct rest; reflexivity.
Qed.

(** The loop while free text is collected, over tokens with no tag token. *)
Lemma parseLoop_free (ts : list str) (v : ParseVars) :
  forallb is_token ts = true ->
  forallb (fun t => negb (is_tag_token t)) ts = true ->
  parsingQuery v = true ->
  parseLoop ts v =
    mkVars (queryTerms v ++ ts) (v_likeTags v) (v_mustTags v)
           (v_mustNotTags v) true.
Proof.
  revert v. induction ts as [|t ts IH]; intros v Ht Hn Hv.
  - simpl. rewrite app_nil_r. destruct v; simpl in *; now subst.
  - simpl in Ht, Hn. apply andb_prop in Ht as [Ht Hts].
    apply andb_prop in Hn as [Hn Hns]. apply negb_true_iff in Hn.
    simpl. rewrite (parseStep_free _ _ Ht Hn Hv).
    rewrite IH by (auto). simpl. now rewrite <- app_assoc.
Qed.

(** The loop once free text is over. *)
Lemma parseLoop_tags (ts : list str) (v : ParseVars) :
  forallb is_token ts = true ->
  parsingQuery v = false ->
  parseLoop ts v =
    mkVars (queryTerms v)
           (v_likeTags v ++ Spec.likesAfterFreeText ts)
           (v_mustTags v ++ Spec.tagsWithPrefix "+" ts)
           (v_mustNotTags v ++ Spec.tagsWithPrefix "-" ts)
           false.
Proof.
  revert v. induction ts as [|t ts IH]; intros v Ht Hv.
  - simpl. unfold Spec.likesAfterFreeText, Spec.tagsWithPrefix. simpl.
    rewrite !app_nil_r. destruct v; simpl in *; now subst.
  - simpl in Ht. apply andb_prop in Ht as [Ht Hts].
    simpl. destruct (token_kinds _ Ht) as [(c & rest & -> & Hr & Hc)|Hk].
    + rewrite (parseStep_tag _ _ _ Hr Hc). rewrite IH by auto. simpl.
      unfold Spec.likesAfterFreeText, Spec.tagsWithPrefix.
      assert (Htag : is_tag_token (c :: rest) = true).
      { unfold is_tag_token. simpl. rewrite Hc.
        destruct rest; [now elim Hr|reflexivity]. }
      simpl filter. rewrite Htag. simpl.
      apply is_prefix_char_cases in Hc as [->|[->| ->]]; simpl;
        rewrite ?Htag, ?app_nil_r, <- ?app_assoc; reflexivity.
    + assert (Hn : is_tag_token t = false) by (destruct Hk as [[H _]|[H _]]; exact H).
      rewrite (parseStep_like _ _ Ht Hn Hv). rewrite IH by auto. simpl.
      unfold Spec.likesAfterFreeText, Spec.tagsWithPrefix.
      simpl filter. rewrite Hn. simpl. rewrite ?Hn, <- ?app_assoc. reflexivity.
Qed.

(** The loop from a tag token on, whatever the flag was before. *)
Lemma parseLoop_from_tag (t : str) (ts : list str) (v : ParseVars) :
  forallb is_token (t :: ts) = true ->
  is_tag_token t = true ->
  parseLoop (t :: ts) v =
    mkVars (queryTerms v)
           (v_likeTags v ++ Spec.likesAfterFreeText (t :: ts))
           (v_mustTags v ++ Spec.tagsWithPrefix "+" (t :: ts))
           (v_mustNotTags v ++ Spec.tagsWithPrefix "-" (t :: ts))
           false.
Proof.
  intros Htok Ht. simpl in Htok. apply andb_prop in Htok as [Htt Htr].
  destruct (token_kinds _ Htt) as [(c & r & -> & Hr & Hc)|Hk].
  - change (parseLoop ((c :: r) :: ts) v)
      with (parseLoop ts (parseStep v (c :: r))).
    rewrite (parseStep_tag _ _ _ Hr Hc).
    rewrite parseLoop_tags by auto. simpl.
    unfold Spec.likesAfterFreeText, Spec.tagsWithPrefix.
    simpl filter. rewrite Ht. simpl.
    apply is_prefix_char_cases in Hc as [->|[->| ->]]; simpl;
      rewrite ?Ht, <- ?app_assoc, ?app_nil_r; reflexivity.
  - destruct Hk as [[H _]|[H _]]; congruence.
Qed.

Lemma splitAtFirstTag_app (ts : list str) :
  ts = fst (Spec.splitAtFirstTag ts) ++ snd (Spec.splitAtFirstTag ts).
Proof.
  induction ts as [|t ts IH]; [reflexivity|].
  simpl. destruct (is_tag_token t); [reflexivity|].
  destruct (Spec.splitAtFirstTag ts). simpl in *. now f_equal.
Qed.

Lemma splitAtFirstTag_before (ts : list str) :
  forallb (fun t => negb (is_tag_token t)) (fst (Spec.splitAtFirstTag ts)) = true.
Proof.
  induction ts as [|t ts IH]; [reflexivity|].
  simpl. destruct (is_tag_token t) eqn:Ht; [reflexivity|].
  destruct (Spec.splitAtFirstTag ts). simpl in *. now rewrite Ht.
Qed.

Lemma splitAtFirstTag_from (ts : list str) :
  snd (Spec.splitAtFirstTag ts) = []
  \/ exists t rest, snd (Spec.splitAtFirstTag ts) = t :: rest
                    /\ is_tag_token t = true.
Proof.
  induction ts as [|t ts IH]; [now left|].
  simpl. destruct (is_tag_token t) eqn:Ht.
  - right. now exists t, ts.
  - destruct (Spec.splitAtFirstTag ts). exact IH.
Qed.

Lemma forallb_app_inv (A : Type) (f : A -> bool) (a b : list A) :
  forallb f (a ++ b) = true -> forallb f a = true /\ forallb f b = true.
Proof. rewrite forallb_app. apply andb_prop. Qed.

(** The code and the description of the parser agree on every input. *)
Lemma parseSearchInput_spec (input : str) :
  parseSearchInput input = Spec.parse input.
Proof.
  rewrite parseSearchInput_words. unfold Spec.parse.
  pose proof (words_all_tokens input) as Htok.
  pose proof (splitAtFirstTag_app (words input)) as Happ.
  pose proof (splitAtFirstTag_before (words input)) as Hbefore.
  pose proof (splitAtFirstTag_from (words input)) as Hfrom.
  destruct (Spec.splitAtFirstTag (words input)) as [before from].
  simpl in *. rewrite Happ in Htok |- *.
  apply forallb_app_inv in Htok as [Htb Htf].
  rewrite parseLoop_app.
  rewrite (parseLoop_free before initVars Htb Hbefore eq_refl). simpl.
  destruct Hfrom as [->|(t & rest & -> & Ht)]; [reflexivity|].
  now rewrite (parseLoop_from_tag t rest _ Htf Ht).
Qed.

End ParserFacts.

(* ------------------------------------------------------------------ *)
(** ** Serialization and the round trip *)
(* ------------------------------------------------------------------ *)

Section RoundTripFacts.
Import NaviSearch.

Lemma words_prefixed_join (c : ascii) (l : list str) :
  is_space c = false -> forallb no_space l = true ->
  words (join (lit " ") (Spec.prefixed c l)) = Spec.prefixed c l.
Proof.
  intros Hc Hl. apply words_join_tokens.
  unfold Spec.prefixed. induction l as [|t l IH]; [reflexivity|].
  simpl in Hl. apply andb_prop in Hl as [Ht Hl].
  simpl. rewrite IH by exact Hl. rewrite is_token_cons, Hc, Ht. reflexivity.
Qed.

Lemma forallb_token_no_space (l : list str) :
  forallb is_token l = true -> forallb no_space l = true.
Proof.
  induction l as [|t l IH]; [reflexivity|].
  simpl. intros H. apply andb_prop in H as [Ht Hl].
  unfold is_token in Ht. apply andb_prop in Ht as [_ Ht].
  now rewrite Ht, IH.
Qed.

(** The words of the serialized text, for tags without white space. *)
Lemma words_updateSearchInputWithTags (q : str) (l m n : list str) :
  forallb no_space l = true -> forallb no_space m = true ->
  forallb no_space n = true ->
  words (updateSearchInputWithTags q l m n)
  = words q ++ Spec.prefixed "~" l ++ Spec.prefixed "+" m ++ Spec.prefixed "-" n.
Proof.
  intros Hl Hm Hn. unfold updateSearchInputWithTags.
  rewrite words_trim, words_collapse_ws.
  fold (Spec.prefixed "~" l) (Spec.prefixed "+" m) (Spec.prefixed "-" n).
  set (L := join (lit " ") (Spec.prefixed "~" l)).
  set (M := join (lit " ") (Spec.prefixed "+" m)).
  set (N := join (lit " ") (Spec.prefixed "-" n)).
  assert (E : words (L ++ lit " " ++ M ++ lit " " ++ N)
              = Spec.prefixed "~" l ++ Spec.prefixed "+" m ++ Spec.prefixed "-" n).
  { rewrite words_app by reflexivity.
    change (lit " " ++ M ++ lit " " ++ N) with (" "%char :: M ++ lit " " ++ N).
    rewrite words_space by reflexivity.
    rewrite words_app by reflexivity.
    change (lit " " ++ N) with (" "%char :: N).
    rewrite words_space by reflexivity.
    unfold L, M, N. now rewrite !words_prefixed_join. }
  destruct (is_empty q) eqn:Hq.
  - destruct q; [|discriminate]. rewrite app_nil_l. now rewrite E.
  - rewrite <- app_assoc. rewrite words_app by reflexivity.
    change (lit " " ++ L ++ lit " " ++ M ++ lit " " ++ N)
      with (" "%char :: L ++ lit " " ++ M ++ lit " " ++ N).
    rewrite words_space by reflexivity. now rewrite E.
Qed.

Lemma prefixed_are_tokens (c : ascii) (l : list str) :
  is_space c = false -> forallb is_token l = true ->
  forallb is_token (Spec.prefixed c l) = true.
Proof.
  intros Hc Hl. induction l as [|t l IH]; [reflexivity|].
  simpl in Hl. apply andb_prop in Hl as [Ht Hl]. simpl.
  rewrite IH by exact Hl. rewrite is_token_cons, Hc.
  unfold is_token in Ht. apply andb_prop in Ht as [_ Ht]. now rewrite Ht.
Qed.

Lemma is_tag_token_prefixed (c : ascii) (t : str) :
  is_prefix_char c = true -> is_token t = true -> is_tag_token (c :: t) = true.
Proof.
  intros Hc Ht. unfold is_tag_token. simpl. rewrite Hc.
  destruct t; [discriminate|reflexivity].
Qed.

Lemma likes_of_prefixed (c : ascii) (l : list str) :
  is_prefix_char c = true -> forallb is_token l = true ->
  Spec.likesAfterFreeText (Spec.prefixed c l)
  = if Ascii.eqb c "~" then l else [].
Proof.
  intros Hc Hl. unfold Spec.likesAfterFreeText.
  induction l as [|t l IH]; [now destruct (Ascii.eqb c "~")|].
  simpl in Hl. apply andb_prop in Hl as [Ht Hl]. specialize (IH Hl).
  simpl Spec.prefixed. simpl filter.
  rewrite (is_tag_token_prefixed c t Hc Ht). simpl.
  destruct (Ascii.eqb c "~"); simpl.
  - rewrite (is_tag_token_prefixed c t Hc Ht). now rewrite IH.
  - exact IH.
Qed.

Lemma tags_of_prefixed (c d : ascii) (l : list str) :
  is_prefix_char c = true -> forallb is_token l = true ->
  Spec.tagsWithPrefix d (Spec.prefixed c l)
  = if Ascii.eqb c d then l else [].
Proof.
  intros Hc Hl. unfold Spec.tagsWithPrefix.
  induction l as [|t l IH]; [now destruct (Ascii.eqb c d)|].
  simpl in Hl. apply andb_prop in Hl as [Ht Hl]. specialize (IH Hl).
  simpl Spec.prefixed. simpl filter.
  rewrite (is_tag_token_prefixed c t Hc Ht). simpl.
  destruct (Ascii.eqb c d); simpl; now rewrite IH.
Qed.

Lemma likesAfterFreeText_app (a b : list str) :
  Spec.likesAfterFreeText (a ++ b)
  = Spec.likesAfterFreeText a ++ Spec.likesAfterFreeText b.
Proof.
  unfold Spec.likesAfterFreeText. now rewrite filter_app, map_app.
Qed.

Lemma tagsWithPrefix_app (c : ascii) (a b : list str) :
  Spec.tagsWithPrefix c (a ++ b)
  = Spec.tagsWithPrefix c a ++ Spec.tagsWithPrefix c b.
Proof.
  unfold Spec.tagsWithPrefix. now rewrite filter_app, map_app.
Qed.

Lemma textual_parts (q : ParsedQuery) :
  Spec.textual q = true ->
  join (lit " ") (words (query q)) = query q
  /\ forallb (fun w => negb (is_tag_token w)) (words (query q)) = true
  /\ forallb is_token (likeTags q) = true
  /\ forallb is_token (mustTags q) = true
  /\ forallb is_token (mustNotTags q) = true.
Proof.
  unfold Spec.textual. intros H.
  repeat (apply andb_prop in H as [H ?]).
  apply str_eqb_eq in H. auto.
Qed.

(** Parsing the serialization of a textual query gives the query back. *)
Lemma parse_serialize_textual (q : ParsedQuery) :
  Spec.textual q = true -> parseSearchInput (Spec.serialize q) = q.
Proof.
  intros H. destruct (textual_parts q H) as (Hq & Hnt & Hl & Hm & Hn).
  rewrite parseSearchInput_words. unfold Spec.serialize.
  rewrite words_updateSearchInputWithTags
    by (now apply forallb_token_no_space).
  rewrite parseLoop_app.
  rewrite (parseLoop_free (words (query q)) initVars
             (words_all_tokens (query q)) Hnt eq_refl).
  set (ts := Spec.prefixed "~" (likeTags q) ++ Spec.prefixed "+" (mustTags q)
             ++ Spec.prefixed "-" (mustNotTags q)).
  assert (Htok : forallb is_token ts = true).
  { unfold ts. rewrite !forallb_app.
    rewrite !prefixed_are_tokens by auto. reflexivity. }
  assert (Hlikes : Spec.likesAfterFreeText ts = likeTags q).
  { unfold ts. rewrite !likesAfterFreeText_app.
    rewrite !likes_of_prefixed by auto. simpl. now rewrite app_nil_r. }
  assert (Hmusts : Spec.tagsWithPrefix "+" ts = mustTags q).
  { unfold ts. rewrite !tagsWithPrefix_app.
    rewrite !tags_of_prefixed by auto. simpl. now rewrite app_nil_r. }
  assert (Hnots : Spec.tagsWithPrefix "-" ts = mustNotTags q).
  { unfold ts. rewrite !tagsWithPrefix_app.
    rewrite !tags_of_prefixed by auto. reflexivity. }
  assert (Hhead : ts = [] \/ exists t rest, ts = t :: rest /\ is_tag_token t = true).
  { unfold ts.
    destruct (likeTags q) as [|a l]; simpl in *.
    - destruct (mustTags q) as [|b m]; simpl in *.
      + destruct (mustNotTags q) as [|c n]; simpl in *; [now left|].
        right. eexists _, _. split; [reflexivity|].
        apply andb_prop in Hn as [Hc _]. now apply is_tag_token_prefixed.
      + right. eexists _, _. split; [reflexivity|].
        apply andb_prop in Hm as [Hb _]. now apply is_tag_token_prefixed.
    - right. eexists _, _. split; [reflexivity|].
      apply andb_prop in Hl as [Ha _]. now apply is_tag_token_prefixed. }
  destruct Hhead as [E|(t & rest & E & Ht)].
  - rewrite E in *. unfold Spec.likesAfterFreeText, Spec.tagsWithPrefix in *.
    simpl in *. unfold parseResult. simpl. rewrite Hq.
    destruct q as [q0 l m n]. simpl in *. congruence.
  - rewrite E in *. rewrite (parseLoop_from_tag t rest _ Htok Ht).
    unfold parseResult. simpl. change [" "%char] with (lit " ").
    rewrite Hq, Hlikes, Hmusts, Hnots. now destruct q.
Qed.

(** What the parser returns is textual. *)
Lemma likesAfterFreeText_tokens (ts : list str) :
  forallb is_token ts = true ->
  forallb is_token (Spec.likesAfterFreeText ts) = true.
Proof.
  unfold Spec.likesAfterFreeText.
  induction ts as [|t ts IH]; [reflexivity|].
  simpl. intros H. apply andb_prop in H as [Ht Hts]. specialize (IH Hts).
  destruct (token_kinds t Ht) as [(c & r & -> & Hr & Hc)|Hk].
  - assert (Htag : is_tag_token (c :: r) = true).
    { unfold is_tag_token. simpl. rewrite Hc. destruct r; [now elim Hr|reflexivity]. }
    rewrite Htag. simpl.
    destruct (Ascii.eqb c "~"); [|exact IH].
    simpl. rewrite Htag, IH, andb_true_r.
    rewrite is_token_cons in Ht. apply andb_prop in Ht as [_ Ht].
    unfold is_token. rewrite Ht. destruct r; [now elim Hr|reflexivity].
  - assert (Hn : is_tag_token t = false) by (destruct Hk as [[E _]|[E _]]; exact E).
    rewrite Hn. simpl. now rewrite Hn, Ht, IH.
Qed.

Lemma tagsWithPrefix_tokens (c : ascii) (ts : list str) :
  forallb is_token ts = true ->
  forallb is_token (Spec.tagsWithPrefix c ts) = true.
Proof.
  unfold Spec.tagsWithPrefix.
  induction ts as [|t ts IH]; [reflexivity|].
  simpl. intros H. apply andb_prop in H as [Ht Hts]. specialize (IH Hts).
  destruct (is_tag_token t && startsWith t c) eqn:E; [|exact IH].
  simpl. rewrite IH, andb_true_r.
  apply andb_prop in E as [E _]. unfold is_tag_token in E.
  destruct t as [|a [|b r]]; try discriminate.
  - simpl in E. now rewrite andb_false_r in E.
  - rewrite is_token_cons in Ht. apply andb_prop in Ht as [_ Ht].
    change (substring1 (a :: b :: r)) with (b :: r).
    unfold is_token. now rewrite Ht.
Qed.

Lemma parseSearchInput_textual (input : str) :
  Spec.textual (parseSearchInput input) = true.
Proof.
  rewrite parseSearchInput_spec. unfold Spec.parse.
  pose proof (words_all_tokens input) as Htok.
  pose proof (splitAtFirstTag_app (words input)) as Happ.
  pose proof (splitAtFirstTag_before (words input)) as Hbefore.
  destruct (Spec.splitAtFirstTag (words input)) as [before from].
  cbn [fst snd] in *. rewrite Happ in Htok.
  apply forallb_app_inv in Htok as [Htb Htf].
  unfold Spec.textual. cbn [query likeTags mustTags mustNotTags].
  rewrite (words_join_tokens before Htb).
  rewrite str_eqb_refl, Hbefore.
  rewrite likesAfterFreeText_tokens, !tagsWithPrefix_tokens by exact Htf.
  reflexivity.
Qed.

End RoundTripFacts.

(* ------------------------------------------------------------------ *)
(** ** The tag state machine of NaviSearch.jsx *)
(* ------------------------------------------------------------------ *)

Section TagMachineFacts.
Import NaviSearch.

Lemma sameTag_refl (t : str) : Spec.sameTag t t = true.
Proof. apply str_eqb_refl. Qed.

Lemma sameTag_sym (u t : str) : Spec.sameTag u t = Spec.sameTag t u.
Proof.
  unfold Spec.sameTag. destruct (str_eqb (toLowerCase u) (toLowerCase t)) eqn:E.
  - apply str_eqb_eq in E. symmetry. now apply str_eqb_eq.
  - apply str_eqb_neq in E. symmetry. apply str_eqb_neq. congruence.
Qed.

Lemma sameTag_trans_l (a u t : str) :
  Spec.sameTag a t = true -> Spec.sameTag a u = Spec.sameTag t u.
Proof.
  unfold Spec.sameTag. intros H. apply str_eqb_eq in H. now rewrite H.
Qed.

Lemma sameTag_is_token (u t : str) :
  Spec.sameTag u t = true -> is_token u = is_token t.
Proof.
  unfold Spec.sameTag. intros H. apply str_eqb_eq in H.
  rewrite <- (toLowerCase_is_token u), <- (toLowerCase_is_token t).
  now rewrite H.
Qed.

Lemma member_app (l1 l2 : list str) (u : str) :
  Spec.member (l1 ++ l2) u = Spec.member l1 u || Spec.member l2 u.
Proof. unfold Spec.member. apply existsb_app. Qed.

Lemma member_single (t u : str) : Spec.member [t] u = Spec.sameTag t u.
Proof. unfold Spec.member, Spec.sameTag. simpl. now rewrite orb_false_r. Qed.

Lemma member_without (l : list str) (t u : str) :
  Spec.member (without (toLowerCase t) l) u
  = Spec.member l u && negb (Spec.sameTag t u).
Proof.
  unfold Spec.member, without, same_tag.
  induction l as [|a l IH]; [reflexivity|].
  simpl. fold (Spec.sameTag a t). fold (Spec.sameTag a u).
  destruct (Spec.sameTag a t) eqn:Hat; simpl.
  - rewrite IH. rewrite (sameTag_trans_l a u t Hat).
    fold (Spec.sameTag t u). destruct (Spec.sameTag t u); simpl; [|reflexivity].
    now rewrite andb_false_r.
  - fold (Spec.sameTag a u). rewrite IH.
    destruct (Spec.sameTag a u) eqn:Hau; simpl; [|reflexivity].
    rewrite sameTag_sym in Hat.
    rewrite sameTag_sym in Hau.
    assert (Spec.sameTag t u = false).
    { destruct (Spec.sameTag t u) eqn:Htu; [|reflexivity].
      rewrite sameTag_sym in Htu.
      rewrite (sameTag_trans_l u a t Htu) in Hau. congruence. }
    now rewrite H.
Qed.

Lemma member_sameTag (l : list str) (t u : str) :
  Spec.sameTag t u = true -> Spec.member l t = Spec.member l u.
Proof.
  unfold Spec.member, Spec.sameTag. intros H. apply str_eqb_eq in H. now rewrite H.
Qed.

Lemma without_absent (l : list str) (t : str) :
  Spec.member l t = false -> without (toLowerCase t) l = l.
Proof.
  unfold Spec.member, without, same_tag.
  induction l as [|a l IH]; [reflexivity|].
  simpl. intros H. apply orb_false_elim in H as [Ha Hl].
  rewrite Ha. simpl. now rewrite IH.
Qed.

Lemma without_app (l1 l2 : list str) (t : str) :
  without t (l1 ++ l2) = without t l1 ++ without t l2.
Proof. apply filter_app. Qed.

Lemma without_single (t : str) : without (toLowerCase t) [t] = [].
Proof.
  unfold without, same_tag. simpl. now rewrite str_eqb_refl.
Qed.

Lemma getTagState_member (p : ParsedQuery) (t : str) :
  getTagState p t =
    if Spec.member (mustTags p) t then must
    else if Spec.member (mustNotTags p) t then mustNot
    else if Spec.member (likeTags p) t then like
    else none.
Proof. reflexivity. Qed.

Lemma getTagState_none (p : ParsedQuery) (t : str) :
  getTagState p t = none <-> Spec.absent p t = true.
Proof.
  rewrite getTagState_member. unfold Spec.absent.
  destruct (Spec.member (mustTags p) t), (Spec.member (mustNotTags p) t),
    (Spec.member (likeTags p) t); simpl; split; congruence.
Qed.

(** Each handler serializes the sets named above. *)
Lemma applyOp_serialize (s : str) (op : TagOp) :
  applyOp s op = Spec.serialize (applied (parseSearchInput s) op).
Proof.
  destruct op as [t|t ty|t ty]; simpl.
  - unfold toggleTagInSearch, toggled.
    now destruct (getTagState (parseSearchInput s) t).
  - unfold addTagFromRecommendation, added. now destruct ty.
  - unfold removeTagFromPill, removed. now destruct ty.
Qed.

Lemma without_tokens (t : str) (l : list str) :
  forallb is_token l = true -> forallb is_token (without t l) = true.
Proof.
  unfold without. induction l as [|a l IH]; [reflexivity|].
  simpl. intros H. apply andb_prop in H as [Ha Hl].
  destruct (negb (same_tag t a)); simpl; [rewrite Ha|]; now apply IH.
Qed.

Lemma forallb_snoc (l : list str) (t : str) :
  forallb is_token l = true -> is_token t = true ->
  forallb is_token (l ++ [t]) = true.
Proof.
  intros Hl Ht. rewrite forallb_app, Hl. simpl. now rewrite Ht.
Qed.

Lemma applied_textual (p : ParsedQuery) (op : TagOp) :
  Spec.textual p = true -> Spec.textualOp op = true ->
  Spec.textual (applied p op) = true.
Proof.
  intros Hp Ht. destruct (textual_parts p Hp) as (Hq & Hnt & Hl & Hm & Hn).
  assert (G : forall l m n,
             forallb is_token l = true -> forallb is_token m = true ->
             forallb is_token n = true ->
             Spec.textual (mkParsed (query p) l m n) = true).
  { intros l m n Hl' Hm' Hn'. unfold Spec.textual.
    cbn [query likeTags mustTags mustNotTags].
    rewrite Hq, str_eqb_refl, Hnt, Hl', Hm', Hn'. reflexivity. }
  destruct op as [t|t ty|t ty]; simpl in *.
  - unfold toggled. destruct (getTagState p t); apply G;
      auto using without_tokens, forallb_snoc.
  - unfold added. destruct ty; apply G;
      auto using without_tokens, forallb_snoc.
  - unfold removed. destruct ty; [exact Hp|..]; apply G;
      auto using without_tokens, forallb_snoc.
Qed.

(** A click with a tag that is a token: parsing the new text gives the sets
    the handler built. *)
Lemma parse_applyOp (s : str) (op : TagOp) :
  Spec.textualOp op = true ->
  parseSearchInput (applyOp s op) = applied (parseSearchInput s) op.
Proof.
  intros Ht. rewrite applyOp_serialize.
  apply parse_serialize_textual.
  apply applied_textual; [apply parseSearchInput_textual|exact Ht].
Qed.

(** Membership in the three sets after a toggle. *)
Lemma member_toggled (p : ParsedQuery) (t u : str) :
  let q := toggled p t in
  let st := getTagState p t in
  Spec.member (likeTags q) u
    = Spec.member (likeTags p) u && negb (Spec.sameTag t u)
      || TagState_eqb st none && Spec.sameTag t u
  /\ Spec.member (mustTags q) u
    = Spec.member (mustTags p) u && negb (Spec.sameTag t u)
      || TagState_eqb st like && Spec.sameTag t u
  /\ Spec.member (mustNotTags q) u
    = Spec.member (mustNotTags p) u && negb (Spec.sameTag t u)
      || TagState_eqb st must && Spec.sameTag t u.
Proof.
  unfold toggled. destruct (getTagState p t); simpl;
    rewrite ?member_app, ?member_single, ?member_without, ?orb_false_r;
    auto.
Qed.

Lemma member_added (p : ParsedQuery) (t u : str) (ty : TagState) :
  let q := added p t ty in
  Spec.member (likeTags q) u
    = Spec.member (likeTags p) u && negb (Spec.sameTag t u)
      || TagState_eqb ty like && Spec.sameTag t u
  /\ Spec.member (mustTags q) u
    = Spec.member (mustTags p) u && negb (Spec.sameTag t u)
      || TagState_eqb ty must && Spec.sameTag t u
  /\ Spec.member (mustNotTags q) u
    = Spec.member (mustNotTags p) u && negb (Spec.sameTag t u)
      || TagState_eqb ty mustNot && Spec.sameTag t u.
Proof.
  unfold added. destruct ty; simpl;
    rewrite ?member_app, ?member_single, ?member_without, ?orb_false_r;
    auto.
Qed.

Lemma member_removed (p : ParsedQuery) (t u : str) (ty : TagState) :
  let q := removed p t ty in
  Spec.member (likeTags q) u
    = Spec.member (likeTags p) u && negb (TagState_eqb ty like && Spec.sameTag t u)
  /\ Spec.member (mustTags q) u
    = Spec.member (mustTags p) u && negb (TagState_eqb ty must && Spec.sameTag t u)
  /\ Spec.member (mustNotTags q) u
    = Spec.member (mustNotTags p) u
      && negb (TagState_eqb ty mustNot && Spec.sameTag t u).
Proof.
  unfold removed. destruct ty; simpl;
    rewrite ?member_without, ?andb_true_r; auto.
Qed.

Lemma member_In (l : list str) (u : str) :
  Spec.member l u = true <-> exists a, In a l /\ Spec.sameTag a u = true.
Proof. unfold Spec.member. apply existsb_exists. Qed.

Lemma atMostOneSet_spec (p : ParsedQuery) :
  Spec.atMostOneSet p = true <-> forall u, Spec.oneSetFor p u.
Proof.
  unfold Spec.atMostOneSet, Spec.oneSetFor. split.
  - intros H u. apply andb_prop in H as [H1 H2].
    rewrite forallb_forall in H1, H2.
    assert (A : Spec.member (likeTags p) u = true ->
                Spec.member (mustTags p) u = false
                /\ Spec.member (mustNotTags p) u = false).
    { intros Hu. apply member_In in Hu as (a & Ha & Hau).
      specialize (H1 a Ha). apply andb_prop in H1 as [X Y].
      apply negb_true_iff in X, Y.
      now rewrite <- (member_sameTag _ a u Hau), <- (member_sameTag _ a u Hau). }
    assert (B : Spec.member (mustTags p) u = true ->
                Spec.member (mustNotTags p) u = false).
    { intros Hu. apply member_In in Hu as (a & Ha & Hau).
      specialize (H2 a Ha). apply negb_true_iff in H2.
      now rewrite <- (member_sameTag _ a u Hau). }
    destruct (Spec.member (likeTags p) u) eqn:E1;
      destruct (Spec.member (mustTags p) u) eqn:E2;
      destruct (Spec.member (mustNotTags p) u) eqn:E3; simpl;
      repeat split; try reflexivity;
      try (destruct (A eq_refl); congruence);
      try (specialize (B eq_refl); congruence).
  - intros H. apply andb_true_intro. split; apply forallb_forall; intros a Ha.
    + destruct (H a) as (X & Y & _).
      assert (Spec.member (likeTags p) a = true)
        by (apply member_In; exists a; split; [exact Ha|apply sameTag_refl]).
      rewrite H0 in X, Y. simpl in X, Y. now rewrite X, Y.
    + destruct (H a) as (_ & _ & Z).
      assert (Spec.member (mustTags p) a = true)
        by (apply member_In; exists a; split; [exact Ha|apply sameTag_refl]).
      rewrite H0 in Z. simpl in Z. now rewrite Z.
Qed.

Lemma applied_oneSetFor (p : ParsedQuery) (op : TagOp) (u : str) :
  Spec.oneSetFor p u -> Spec.oneSetFor (applied p op) u.
Proof.
  unfold Spec.oneSetFor. intros (X & Y & Z).
  destruct op as [t|t ty|t ty]; simpl.
  - destruct (member_toggled p t u) as (-> & -> & ->).
    destruct (getTagState p t), (Spec.sameTag t u),
      (Spec.member (likeTags p) u), (Spec.member (mustTags p) u),
      (Spec.member (mustNotTags p) u); simpl in *; auto.
  - destruct (member_added p t u ty) as (-> & -> & ->).
    destruct ty, (Spec.sameTag t u),
      (Spec.member (likeTags p) u), (Spec.member (mustTags p) u),
      (Spec.member (mustNotTags p) u); simpl in *; auto.
  - destruct (member_removed p t u ty) as (-> & -> & ->).
    destruct ty, (Spec.sameTag t u),
      (Spec.member (likeTags p) u), (Spec.member (mustTags p) u),
      (Spec.member (mustNotTags p) u); simpl in *; auto.
Qed.

Lemma applied_atMostOneSet (p : ParsedQuery) (op : TagOp) :
  Spec.atMostOneSet p = true -> Spec.atMostOneSet (applied p op) = true.
Proof.
  rewrite !atMostOneSet_spec. intros H u. apply applied_oneSetFor, H.
Qed.

(** The cycle on the sets: from [none], four toggles give the sets back. *)
Lemma toggled_four (p : ParsedQuery) (t : str) :
  Spec.absent p t = true ->
  toggled (toggled (toggled (toggled p t) t) t) t = p.
Proof.
  unfold Spec.absent. intros H.
  apply andb_prop in H as [H Hn]. apply andb_prop in H as [Hl Hm].
  apply negb_true_iff in Hl, Hm, Hn.
  destruct p as [q l m n]. simpl in *.
  assert (E1 : toggled (mkParsed q l m n) t = mkParsed q (l ++ [t]) m n).
  { unfold toggled. rewrite getTagState_member. simpl.
    rewrite Hl, Hm, Hn. now rewrite !without_absent. }
  assert (E2 : toggled (mkParsed q (l ++ [t]) m n) t = mkParsed q l (m ++ [t]) n).
  { unfold toggled. rewrite getTagState_member. simpl.
    rewrite member_app, member_single, sameTag_refl, Hm, Hn, orb_true_r.
    rewrite without_app, without_single, app_nil_r.
    now rewrite !without_absent. }
  assert (E3 : toggled (mkParsed q l (m ++ [t]) n) t = mkParsed q l m (n ++ [t])).
  { unfold toggled. rewrite getTagState_member. simpl.
    rewrite member_app, member_single, sameTag_refl, orb_true_r.
    rewrite without_app, without_single, app_nil_r.
    now rewrite !without_absent. }
  assert (E4 : toggled (mkParsed q l m (n ++ [t])) t = mkParsed q l m n).
  { unfold toggled. rewrite getTagState_member. simpl.
    rewrite member_app, member_single, sameTag_refl, Hm, orb_true_r.
    rewrite without_app, without_single, app_nil_r.
    now rewrite !without_absent. }
  now rewrite E1, E2, E3, E4.
Qed.

(** A tag that is not a token is in no set of a parsed text. *)
Lemma member_tokens_only (l : list str) (t : str) :
  forallb is_token l = true -> is_token t = false -> Spec.member l t = false.
Proof.
  intros Hl Ht. destruct (Spec.member l t) eqn:E; [|reflexivity].
  apply member_In in E as (a & Ha & Hat).
  rewrite forallb_forall in Hl. specialize (Hl a Ha).
  rewrite (sameTag_is_token a t Hat) in Hl. congruence.
Qed.

Lemma absent_not_token (s : str) (t : str) :
  is_token t = false -> Spec.absent (parseSearchInput s) t = true.
Proof.
  intros Ht.
  destruct (textual_parts _ (parseSearchInput_textual s)) as (_ & _ & Hl & Hm & Hn).
  unfold Spec.absent.
  now rewrite !member_tokens_only.
Qed.

End TagMachineFacts.

(* ------------------------------------------------------------------ *)
(** ** Sorting *)
(* ------------------------------------------------------------------ *)

Section SortFacts.
Variable A : Type.
Variable after : A -> A -> bool.

Lemma insert_perm (x : A) (l : list A) :
  Permutation (JsArray.insert after x l) (x :: l).
Proof.
  induction l as [|y l IH]; simpl; [apply Permutation_refl|].
  destruct (after x y); [|apply Permutation_refl].
  eapply Permutation_trans; [apply perm_skip, IH|apply perm_swap].
Qed.

Lemma sort_perm (l : list A) : Permutation (JsArray.sort after l) l.
Proof.
  induction l as [|x l IH]; simpl; [apply Permutation_refl|].
  eapply Permutation_trans; [apply insert_perm|now apply perm_skip].
Qed.

Lemma sort_In (l : list A) (x : A) : In x (JsArray.sort after l) <-> In x l.
Proof.
  split; apply Permutation_in;
    [apply sort_perm|apply Permutation_sym, sort_perm].
Qed.

Hypothesis after_asym : forall a b, after a b = true -> after b a = false.
Hypothesis before_trans :
  forall a b c, after a b = false -> after b c = false -> after a c = false.

Lemma insert_sorted (x : A) (l : list A) :
  StronglySorted (JsArray.before after) l -> StronglySorted (JsArray.before after) (JsArray.insert after x l).
Proof.
  induction l as [|y l IH]; intros Hs; simpl.
  - constructor; constructor.
  - inversion Hs as [|? ? Hl Hy]; subst.
    destruct (after x y) eqn:E.
    + constructor; [now apply IH|].
      apply Forall_forall. intros z Hz.
      apply (Permutation_in _ (insert_perm x l)) in Hz.
      destruct Hz as [<-|Hz]; [now apply after_asym|].
      rewrite Forall_forall in Hy. now apply Hy.
    + constructor; [exact Hs|].
      constructor; [exact E|].
      rewrite Forall_forall in Hy |- *. intros z Hz.
      apply (before_trans x y z E). now apply Hy.
Qed.

Lemma sort_sorted (l : list A) : StronglySorted (JsArray.before after) (JsArray.sort after l).
Proof.
  induction l as [|x l IH]; simpl; [constructor|now apply insert_sorted].
Qed.

End SortFacts.

(** The same for a comparator that is consistent on the elements with a
    property [P] only, when the array holds such elements only. *)
Section SortOnFacts.
Variable A : Type.
Variable after : A -> A -> bool.
Variable P : A -> Prop.

Hypothesis after_asym : forall a b, P a -> P b -> after a b = true -> after b a = false.
Hypothesis before_trans :
  forall a b c, P a -> P b -> P c ->
                after a b = false -> after b c = false -> after a c = false.

Lemma insert_sorted_on (x : A) (l : list A) :
  P x ->
  StronglySorted (fun a b => P a /\ P b /\ JsArray.before after a b) l ->
  Forall P l ->
  StronglySorted (fun a b => P a /\ P b /\ JsArray.before after a b)
                 (JsArray.insert after x l).
Proof.
  intros Hx. induction l as [|y l IH]; intros Hs HP; simpl.
  - constructor; constructor.
  - inversion Hs as [|? ? Hl Hy]; subst.
    inversion HP as [|? ? Py Pl]; subst.
    destruct (after x y) eqn:E.
    + constructor; [now apply IH|].
      apply Forall_forall. intros z Hz.
      apply (Permutation_in _ (insert_perm _ after x l)) in Hz.
      destruct Hz as [<-|Hz].
      * split; [exact Py|]. split; [exact Hx|]. now apply after_asym.
      * rewrite Forall_forall in Hy. now apply Hy.
    + constructor; [exact Hs|].
      constructor; [now split|].
      rewrite Forall_forall in Hy, Pl |- *. intros z Hz.
      split; [exact Hx|]. split; [now apply Pl|].
      apply (before_trans x y z Hx Py (Pl z Hz) E). now apply Hy.
Qed.

Lemma sort_sorted_on (l : list A) :
  Forall P l ->
  StronglySorted (fun a b => P a /\ P b /\ JsArray.before after a b)
                 (JsArray.sort after l).
Proof.
  induction l as [|x l IH]; intros HP; simpl; [constructor|].
  inversion HP as [|? ? Px Pl]; subst.
  apply insert_sorted_on; [exact Px|now apply IH|].
  apply Forall_forall. intros z Hz. apply sort_In in Hz.
  rewrite Forall_forall in Pl. now apply Pl.
Qed.

End SortOnFacts.

Lemma In_firstn (A : Type) (n : nat) (l : list A) (x : A) :
  In x (firstn n l) -> In x l.
Proof.
  revert n. induction l as [|y l IH]; intros n H.
  - now rewrite firstn_nil in H.
  - destruct n; simpl in H; [contradiction|].
    destruct H as [->|H]; [now left|right; eapply IH, H].
Qed.

Lemma StronglySorted_firstn (A : Type) (R : A -> A -> Prop) (n : nat) (l : list A) :
  StronglySorted R l -> StronglySorted R (firstn n l).
Proof.
  revert n. induction l as [|x l IH]; intros n Hs.
  - now rewrite firstn_nil.
  - destruct n; simpl; [constructor|].
    inversion Hs as [|? ? Hl Hx]; subst.
    constructor; [now apply IH|].
    rewrite Forall_forall in Hx |- *. intros z Hz.
    apply Hx. eapply In_firstn, Hz.
Qed.

Lemma StronglySorted_nth (A : Type) (R : A -> A -> Prop) (l : list A) :
  StronglySorted R l ->
  forall i j a b, nth_error l i = Some a -> nth_error l j = Some b ->
                  (i < j)%nat -> R a b.
Proof.
  induction 1 as [|x l Hs IH Hx]; intros i j a b Hi Hj Hij.
  - destruct i; discriminate.
  - destruct j as [|j]; [lia|]. simpl in Hj.
    destruct i as [|i]; simpl in Hi.
    + injection Hi as <-. rewrite Forall_forall in Hx.
      apply Hx. eapply nth_error_In, Hj.
    + apply (IH i j); auto. lia.
Qed.

Lemma StronglySorted_weaken (A : Type) (R S : A -> A -> Prop) (l : list A) :
  (forall a b, R a b -> S a b) -> StronglySorted R l -> StronglySorted S l.
Proof.
  intros HRS. induction 1 as [|x l Hs IH Hx]; constructor; [exact IH|].
  rewrite Forall_forall in Hx |- *. auto.
Qed.

(* ------------------------------------------------------------------ *)
(** ** The ranker of prototype.jsx *)
(* ------------------------------------------------------------------ *)

Section RankerFacts.
Import Prototype.

Lemma is_prefix_of_spec (t s : str) :
  is_prefix_of t s = true <-> exists rest, s = t ++ rest.
Proof.
  revert s. induction t as [|a t IH]; intros s; simpl.
  - split; [intros _; now exists s|reflexivity].
  - destruct s as [|b s].
    + split; [discriminate|intros [rest H]; discriminate].
    + split.
      * intros H. apply andb_prop in H as [Hab Ht].
        apply Ascii.eqb_eq in Hab. subst b.
        apply IH in Ht as [rest ->]. now exists rest.
      * intros [rest H]. injection H as -> ->.
        rewrite Ascii.eqb_refl. simpl. apply IH. now exists rest.
Qed.

(** [includes] is the substring relation. *)
Lemma includes_spec (s t : str) :
  includes s t = true <-> Spec.substringOf t s.
Proof.
  unfold Spec.substringOf. induction s as [|c s IH].
  - simpl. rewrite orb_false_r. rewrite is_prefix_of_spec. split.
    + intros [rest H]. exists [], rest. exact H.
    + intros (b & a & H). destruct b; [|discriminate]. now exists a.
  - simpl. split.
    + intros H. apply orb_prop in H as [H|H].
      * apply is_prefix_of_spec in H as [rest H]. exists [], rest. exact H.
      * apply IH in H as (b & a & ->). now exists (c :: b), a.
    + intros (b & a & H). apply orb_true_iff.
      destruct b as [|c' b].
      * left. apply is_prefix_of_spec. now exists a.
      * right. injection H as -> ->. apply IH. now exists b, a.
Qed.

(** [hasTag]: some tag of the document contains the query tag, up to case. *)
Lemma hasTag_spec (docTags : list str) (tag : str) :
  hasTag docTags tag = true <->
  exists docTag, In docTag docTags
    /\ Spec.substringOf (toLowerCase tag) (toLowerCase docTag).
Proof.
  unfold hasTag, JsArray.some, tagIncludes. rewrite existsb_exists.
  split; intros (d & Hd & H); exists d; (split; [exact Hd|]);
    now apply includes_spec.
Qed.

Lemma keeps_spec (mustTags mustNotTags : list str) (doc : Candidate) :
  keeps mustTags mustNotTags doc = true <->
  (forall tag, In tag mustTags -> hasTag (tags (c_doc doc)) tag = true)
  /\ (forall tag, In tag mustNotTags -> hasTag (tags (c_doc doc)) tag = false).
Proof.
  unfold keeps, JsArray.every. rewrite andb_true_iff, !forallb_forall.
  split; intros [H1 H2]; split; auto; intros t Ht.
  - apply negb_true_iff. now apply H2.
  - apply negb_true_iff. now apply H2.
Qed.

(** The comparator of the final sort, read as an order. *)
Lemma positive_spec (x : Q) : JsNumber.positive x = true <-> (0 < x)%Q.
Proof.
  unfold JsNumber.positive. rewrite Qgt_alt.
  destruct (x ?= 0)%Q; split; congruence.
Qed.

Lemma positive_diff (a b : Q) :
  JsNumber.positive (b - a) = true <-> (a < b)%Q.
Proof.
  rewrite positive_spec. unfold Qminus. symmetry. apply Qlt_minus_iff.
Qed.

Lemma positive_diff_false (a b : Q) :
  JsNumber.positive (b - a) = false <-> (b <= a)%Q.
Proof.
  split.
  - intros H. apply Qnot_lt_le. intros Hlt.
    apply positive_diff in Hlt. congruence.
  - intros H. destruct (JsNumber.positive (b - a)) eqn:E; [|reflexivity].
    apply positive_diff in E. exfalso. now apply (Qle_not_lt _ _ H).
Qed.

Lemma byLikeThenSimilarity_true (a b : RankedResult) :
  byLikeThenSimilarity a b = true <->
  (likeScore a < likeScore b)%Z
  \/ (likeScore a = likeScore b /\ (r_similarity a < r_similarity b)%Q).
Proof.
  unfold byLikeThenSimilarity.
  destruct (likeScore b =? likeScore a)%Z eqn:E; simpl.
  - apply Z.eqb_eq in E. rewrite positive_diff. split.
    + intros H. right. now split.
    + intros [H|[_ H]]; [lia|exact H].
  - apply Z.eqb_neq in E. rewrite Z.ltb_lt. split.
    + intros H. left. lia.
    + intros [H|[H _]]; [lia|congruence].
Qed.

Lemma byLikeThenSimilarity_false (a b : RankedResult) :
  byLikeThenSimilarity a b = false <->
  (likeScore b < likeScore a)%Z
  \/ (likeScore a = likeScore b /\ (r_similarity b <= r_similarity a)%Q).
Proof.
  unfold byLikeThenSimilarity.
  destruct (likeScore b =? likeScore a)%Z eqn:E; simpl.
  - apply Z.eqb_eq in E. rewrite positive_diff_false. split.
    + intros H. right. now split.
    + intros [H|[_ H]]; [lia|exact H].
  - apply Z.eqb_neq in E. rewrite Z.ltb_ge. split.
    + intros H. left. lia.
    + intros [H|[H _]]; [lia|congruence].
Qed.

Lemma byLikeThenSimilarity_asym (a b : RankedResult) :
  byLikeThenSimilarity a b = true -> byLikeThenSimilarity b a = false.
Proof.
  rewrite byLikeThenSimilarity_true, byLikeThenSimilarity_false.
  intros [H|[H1 H2]]; [now left|right].
  split; [congruence|now apply Qlt_le_weak].
Qed.

Lemma byLikeThenSimilarity_trans (a b c : RankedResult) :
  byLikeThenSimilarity a b = false -> byLikeThenSimilarity b c = false ->
  byLikeThenSimilarity a c = false.
Proof.
  rewrite !byLikeThenSimilarity_false.
  intros [H1|[H1 H1']] [H2|[H2 H2']].
  - left. lia.
  - left. lia.
  - left. lia.
  - right. split; [congruence|]. eapply Qle_trans; eassumption.
Qed.

Lemma bySimilarity_false (a b : Candidate) :
  bySimilarity a b = false <-> (similarity b <= similarity a)%Q.
Proof. apply positive_diff_false. Qed.

(** The like score counts the like tags that some tag of the document
    contains. *)
Lemma countLikes_spec (likeTags : list str) (doc : Candidate) :
  countLikes likeTags doc
  = Z.of_nat (length (filter (hasTag (tags (c_doc doc))) likeTags)).
Proof.
  unfold countLikes.
  assert (G : forall l z,
    fold_left (fun likeScore tag =>
                 if hasTag (tags (c_doc doc)) tag then (likeScore + 1)%Z
                 else likeScore) l z
    = (z + Z.of_nat (length (filter (hasTag (tags (c_doc doc))) l)))%Z).
  { induction l as [|t l IH]; intros z; simpl; [lia|].
    rewrite IH. destruct (hasTag (tags (c_doc doc)) t); simpl length; lia. }
  now rewrite G.
Qed.

Lemma rerank_sorted (likeTags : list str) (candidates : list Candidate) :
  StronglySorted (JsArray.before byLikeThenSimilarity)
                 (rerank likeTags candidates).
Proof.
  unfold rerank. apply sort_sorted.
  - apply byLikeThenSimilarity_asym.
  - apply byLikeThenSimilarity_trans.
Qed.

Lemma rerank_In (likeTags : list str) (candidates : list Candidate)
    (r : RankedResult) :
  In r (rerank likeTags candidates) <->
  In (r_cand r) candidates /\ likeScore r = countLikes likeTags (r_cand r).
Proof.
  unfold rerank. rewrite sort_In, in_map_iff. split.
  - intros (c & <- & Hc). now split.
  - intros [Hc Hs]. exists (r_cand r). split; [|exact Hc].
    destruct r. simpl in *. now subst.
Qed.

End RankerFacts.

(* ------------------------------------------------------------------ *)
(** ** The recommendation scorer of prototype.jsx *)
(* ------------------------------------------------------------------ *)

Section ScorerFacts.
Import Prototype.

Lemma str_eqb_sym (a b : str) : str_eqb a b = str_eqb b a.
Proof.
  destruct (str_eqb a b) eqn:E.
  - apply str_eqb_eq in E. subst. symmetry. apply str_eqb_refl.
  - apply str_eqb_neq in E. symmetry. apply str_eqb_neq. congruence.
Qed.

Lemma amount_plusOne (value : Frequency) :
  Spec.amount (plusOne value) = (Spec.amount value + 1)%Z.
Proof. destruct value; simpl; lia. Qed.

(** A tag other than [__proto__] is counted once more when it is the one
    incremented. *)
Lemma lookup_increment (o : list (str * Frequency)) (t k : str) :
  k <> proto ->
  Spec.lookup (increment o t) k
  = (Spec.lookup o k + (if str_eqb k t then 1 else 0))%Z.
Proof.
  intros Hk. induction o as [|[k' n] o IH]; simpl.
  - destruct (str_eqb t proto) eqn:Ep.
    + apply str_eqb_eq in Ep. subst t.
      apply str_eqb_neq in Hk. now rewrite Hk.
    + destruct (is_inherited_method t); simpl;
        rewrite (str_eqb_sym t k); destruct (str_eqb k t); reflexivity.
  - destruct (str_eqb k' t) eqn:Ekt; simpl.
    + apply str_eqb_eq in Ekt. subst k'.
      rewrite (str_eqb_sym t k). destruct (str_eqb k t).
      * apply amount_plusOne.
      * lia.
    + destruct (str_eqb k' k) eqn:Ek.
      * apply str_eqb_eq in Ek. subst k'. rewrite Ekt. lia.
      * exact IH.
Qed.

(** The object gets a property for every tag but [__proto__]. *)
Lemma keys_increment (o : list (str * Frequency)) (t k : str) :
  In k (map fst (increment o t)) <-> In k (map fst o) \/ (k = t /\ t <> proto).
Proof.
  induction o as [|[k' n] o IH]; simpl.
  - destruct (str_eqb t proto) eqn:Ep.
    + apply str_eqb_eq in Ep. simpl. split; [intros []|].
      intros [[]|[_ H]]. contradiction.
    + apply str_eqb_neq in Ep.
      destruct (is_inherited_method t); simpl;
        (split; [intros [H|[]]; auto|intros [[]|[H _]]; auto]).
  - destruct (str_eqb k' t) eqn:E; simpl.
    + apply str_eqb_eq in E. subst k'. split; [tauto|].
      intros [[H|H]|[H _]]; auto.
    + rewrite IH. tauto.
Qed.

Lemma keys_increment_NoDup (o : list (str * Frequency)) (t : str) :
  NoDup (map fst o) -> NoDup (map fst (increment o t)).
Proof.
  induction o as [|[k' n] o IH]; simpl; intros H.
  - destruct (str_eqb t proto); [constructor|].
    destruct (is_inherited_method t); simpl;
      (constructor; [intros []|constructor]).
  - inversion H as [|? ? Hk Ho]; subst.
    destruct (str_eqb k' t) eqn:E; simpl.
    + now constructor.
    + constructor; [|now apply IH].
      rewrite keys_increment. intros [H1|[H1 _]]; [contradiction|].
      subst. now rewrite str_eqb_refl in E.
Qed.

Lemma counted_plusOne (k : str) (value : Frequency) :
  value = Notions.counted k (Spec.amount value) ->
  plusOne value = Notions.counted k (Spec.amount (plusOne value)).
Proof.
  unfold Notions.counted.
  destruct (is_inherited_method k), value as [n|name ones];
    cbn [Spec.amount plusOne]; intros H; try discriminate.
  - injection H as -> _. now rewrite Nat2Z.id.
  - reflexivity.
Qed.

Lemma shaped_increment (o : list (str * Frequency)) (t : str) :
  Notions.shaped o -> Notions.shaped (increment o t).
Proof.
  unfold Notions.shaped. induction o as [|[k' n] o IH]; simpl; intros Ho k value H.
  - destruct (str_eqb t proto); [destruct H|].
    destruct (is_inherited_method t) eqn:Et; simpl in H;
      destruct H as [H|[]]; injection H as <- <-;
      unfold Notions.counted; now rewrite Et.
  - destruct (str_eqb k' t) eqn:E; simpl in H; destruct H as [H|H].
    + injection H as <- <-. apply counted_plusOne. apply Ho. now left.
    + apply Ho. now right.
    + apply Ho. now left.
    + apply IH; [|exact H]. intros k0 v0 H0. apply Ho. now right.
Qed.

Lemma lookup_fold_increment (ts : list str) (o : list (str * Frequency)) (k : str) :
  k <> proto ->
  Spec.lookup (fold_left increment ts o) k
  = (Spec.lookup o k + Spec.occurrences k ts)%Z.
Proof.
  intros Hk. unfold Spec.occurrences. revert o.
  induction ts as [|t ts IH]; intros o; simpl; [lia|].
  rewrite IH, (lookup_increment _ _ _ Hk).
  destruct (str_eqb k t); simpl length; lia.
Qed.

Lemma keys_fold_increment (ts : list str) (o : list (str * Frequency)) (k : str) :
  In k (map fst (fold_left increment ts o))
  <-> In k (map fst o) \/ (In k ts /\ k <> proto).
Proof.
  revert o. induction ts as [|t ts IH]; intros o; simpl; [tauto|].
  rewrite IH, keys_increment. intuition (subst; auto).
Qed.

Lemma keys_fold_increment_NoDup (ts : list str) (o : list (str * Frequency)) :
  NoDup (map fst o) -> NoDup (map fst (fold_left increment ts o)).
Proof.
  revert o. induction ts as [|t ts IH]; intros o H; simpl; [exact H|].
  now apply IH, keys_increment_NoDup.
Qed.

Lemma shaped_fold_increment (ts : list str) (o : list (str * Frequency)) :
  Notions.shaped o -> Notions.shaped (fold_left increment ts o).
Proof.
  revert o. induction ts as [|t ts IH]; intros o H; simpl; [exact H|].
  now apply IH, shaped_increment.
Qed.

Lemma occurrences_NoDup (k : str) (l : list str) :
  NoDup l ->
  Spec.occurrences k l = if existsb (str_eqb k) l then 1%Z else 0%Z.
Proof.
  unfold Spec.occurrences. induction 1 as [|a l Ha Hl IH]; [reflexivity|].
  simpl. destruct (str_eqb k a) eqn:E; simpl.
  - apply str_eqb_eq in E. subst a.
    assert (N : existsb (str_eqb k) l = false).
    { destruct (existsb (str_eqb k) l) eqn:X; [|reflexivity].
      apply existsb_exists in X as (x & Hx & Ex).
      apply str_eqb_eq in Ex. subst x. contradiction. }
    rewrite N in IH. simpl length. lia.
  - exact IH.
Qed.

(** What the object holds under a key after the two loops. *)
Lemma lookup_countFrom (results : list RankedResult) (o : list (str * Frequency))
    (k : str) :
  k <> proto ->
  Spec.lookup (countFrom o results) k
  = (Spec.lookup o k + Notions.listings results k)%Z.
Proof.
  intros Hk. revert o.
  induction results as [|r rs IH]; intros o; simpl; [lia|].
  unfold countFrom in *. simpl.
  rewrite IH, (lookup_fold_increment _ _ _ Hk). lia.
Qed.

(** In tag sets a tag is listed as often as there are results with it. *)
Lemma listings_frequencyIn (results : list RankedResult) (k : str) :
  (forall r, In r results -> NoDup (r_tags r)) ->
  Notions.listings results k = Spec.frequencyIn results k.
Proof.
  unfold Spec.frequencyIn.
  induction results as [|r rs IH]; intros Hnd; [reflexivity|].
  simpl. rewrite IH by (intros r' Hr'; apply Hnd; now right).
  rewrite occurrences_NoDup by (apply Hnd; now left).
  destruct (existsb (str_eqb k) (r_tags r)); simpl length; lia.
Qed.

Lemma keys_countFrom (results : list RankedResult) (o : list (str * Frequency))
    (k : str) :
  In k (map fst (countFrom o results)) <->
  In k (map fst o)
  \/ (k <> proto /\ exists r, In r results /\ In k (r_tags r)).
Proof.
  unfold countFrom. revert o.
  induction results as [|r results IH]; intros o; simpl.
  - split; [auto|intros [H|(_ & r & [] & _)]; exact H].
  - rewrite IH, keys_fold_increment. split.
    + intros [[H|[H Hp]]|(Hp & r' & Hr' & Hk)]; auto.
      * right. split; [exact Hp|]. exists r. auto.
      * right. split; [exact Hp|]. exists r'. auto.
    + intros [H|(Hp & r' & [<-|Hr'] & Hk)]; auto.
      right. split; [exact Hp|]. exists r'. auto.
Qed.

Lemma keys_countFrom_NoDup (results : list RankedResult)
    (o : list (str * Frequency)) :
  NoDup (map fst o) -> NoDup (map fst (countFrom o results)).
Proof.
  unfold countFrom. revert o.
  induction results as [|r results IH]; intros o H; simpl; [exact H|].
  now apply IH, keys_fold_increment_NoDup.
Qed.

Lemma shaped_countFrom (results : list RankedResult) (o : list (str * Frequency)) :
  Notions.shaped o -> Notions.shaped (countFrom o results).
Proof.
  unfold countFrom. revert o.
  induction results as [|r results IH]; intros o H; simpl; [exact H|].
  now apply IH, shaped_fold_increment.
Qed.

Lemma lookup_In (o : list (str * Frequency)) (k : str) (value : Frequency) :
  NoDup (map fst o) -> In (k, value) o -> Spec.lookup o k = Spec.amount value.
Proof.
  induction o as [|[k' n'] o IH]; simpl; intros Hnd H; [contradiction|].
  inversion Hnd as [|? ? Hk Ho]; subst.
  destruct H as [H|H].
  - injection H as -> ->. now rewrite str_eqb_refl.
  - destruct (str_eqb k' k) eqn:E; [|now apply IH].
    apply str_eqb_eq in E. subst k'.
    exfalso. apply Hk. change k with (fst (k, value)). now apply in_map.
Qed.

(** The properties of the object after the two loops: one for every tag
    that some result lists, [__proto__] apart, with the value that goes with
    the tag and the number of times the results list it. *)
Lemma countTags_entry (results : list RankedResult) (k : str) (value : Frequency) :
  In (k, value) (countTags results) ->
  k <> proto
  /\ (exists r, In r results /\ In k (r_tags r))
  /\ value = Notions.counted k (Notions.listings results k).
Proof.
  intros H.
  assert (Hk : In k (map fst (countTags results)))
    by (apply in_map_iff; exists (k, value); auto).
  apply keys_countFrom in Hk as [[]|[Hp Hocc]].
  split; [exact Hp|]. split; [exact Hocc|].
  assert (Hkeys : NoDup (map fst (countTags results)))
    by (apply keys_countFrom_NoDup; constructor).
  pose proof (lookup_In _ k value Hkeys H) as Hl.
  unfold countTags in Hl. rewrite (lookup_countFrom results [] k Hp) in Hl.
  simpl in Hl. rewrite Hl.
  apply (shaped_countFrom results []); [intros ? ? []|exact H].
Qed.

Lemma partition_perm (A : Type) (p : A -> bool) (l : list A) :
  Permutation (filter p l ++ filter (fun x => negb (p x)) l) l.
Proof.
  induction l as [|x l IH]; simpl; [constructor|].
  destruct (p x); simpl.
  - now constructor.
  - eapply Permutation_trans; [apply Permutation_sym, Permutation_middle|].
    now constructor.
Qed.

Lemma Object_entries_perm (o : list (str * Frequency)) :
  Permutation (Object_entries o) o.
Proof.
  unfold Object_entries.
  eapply Permutation_trans; [|apply (partition_perm _ (fun e => is_array_index (fst e)))].
  apply Permutation_app_tail. apply sort_perm.
Qed.

Lemma tagsWithEIG_perm (results : list RankedResult) :
  Permutation (tagsWithEIG results)
              (map (scored (length results)) (countTags results)).
Proof.
  unfold tagsWithEIG.
  eapply Permutation_trans; [apply sort_perm|].
  apply Permutation_map, Object_entries_perm.
Qed.

Lemma tagsWithEIG_tags (results : list RankedResult) :
  Permutation (map tag (tagsWithEIG results)) (map fst (countTags results)).
Proof.
  eapply Permutation_trans; [apply Permutation_map, tagsWithEIG_perm|].
  rewrite map_map.
  replace (map (fun x => tag (scored (length results) x)) (countTags results))
    with (map fst (countTags results)); [apply Permutation_refl|].
  apply map_ext. now intros [k n].
Qed.

(** An entry of [tagsWithEIG] is the scored property of a tag. *)
Lemma tagsWithEIG_entry (results : list RankedResult) (e : TagRecommendation) :
  In e (tagsWithEIG results) ->
  tag e <> proto
  /\ (exists r, In r results /\ In (tag e) (r_tags r))
  /\ e = scored (length results)
           (tag e, Notions.counted (tag e) (Notions.listings results (tag e))).
Proof.
  intros He.
  apply (Permutation_in _ (tagsWithEIG_perm results)) in He.
  apply in_map_iff in He as ([k value] & <- & Hkv).
  apply countTags_entry in Hkv as (Hp & Hocc & ->).
  cbn [scored tag]. auto.
Qed.

(** A tag of results without inherited names is no inherited name. *)
Lemma ownNames_tag (results : list RankedResult) (k : str) :
  Notions.ownNames results = true ->
  (exists r, In r results /\ In k (r_tags r)) ->
  k <> proto /\ is_inherited_method k = false.
Proof.
  unfold Notions.ownNames. rewrite forallb_forall.
  intros H (r & Hr & Hk). specialize (H r Hr).
  rewrite forallb_forall in H. specialize (H k Hk).
  apply negb_true_iff in H. unfold is_inherited in H.
  apply orb_false_iff in H as [Hp Hm].
  split; [now apply str_eqb_neq|exact Hm].
Qed.

(** Two recommendations with numbers as [eig]: the comparator puts the
    larger [eig] first. *)
Lemma byEig_false (a b : TagRecommendation) (x y : Q) :
  eig a = JsNumber.Finite x -> eig b = JsNumber.Finite y ->
  byEig a b = false <-> (y <= x)%Q.
Proof.
  intros Ha Hb. unfold byEig. rewrite Ha, Hb. simpl.
  apply positive_diff_false.
Qed.

Lemma tagsWithEIG_sorted (results : list RankedResult) :
  Notions.ownNames results = true ->
  StronglySorted Notions.descendingByEig (tagsWithEIG results).
Proof.
  intros Hown.
  set (P := fun e : TagRecommendation => exists q, eig e = JsNumber.Finite q).
  assert (HP : Forall P (map (scored (length results))
                             (Object_entries (countTags results)))).
  { apply Forall_forall. intros e He.
    apply in_map_iff in He as ([k value] & <- & Hkv).
    apply (Permutation_in _ (Object_entries_perm _)) in Hkv.
    apply countTags_entry in Hkv as (_ & Hocc & ->).
    destruct (ownNames_tag results k Hown Hocc) as [_ Hm].
    unfold P, Notions.counted. rewrite Hm. simpl. eauto. }
  unfold tagsWithEIG.
  apply StronglySorted_weaken
    with (R := fun a b => P a /\ P b /\ JsArray.before byEig a b).
  - intros a b ([x Hx] & [y Hy] & H). unfold Notions.descendingByEig.
    rewrite Hx, Hy. now apply (byEig_false a b x y Hx Hy).
  - apply sort_sorted_on; [| |exact HP].
    + intros a b [x Hx] [y Hy] H.
      apply (byEig_false b a y x Hy Hx).
      unfold byEig in H. rewrite Hx, Hy in H. simpl in H.
      apply positive_diff in H. now apply Qlt_le_weak.
    + intros a b c [x Hx] [y Hy] [z Hz].
      rewrite (byEig_false a b x y Hx Hy), (byEig_false b c y z Hy Hz),
        (byEig_false a c x z Hx Hz).
      intros H1 H2. eapply Qle_trans; eassumption.
Qed.

End ScorerFacts.

(* ------------------------------------------------------------------ *)
(** ** The pipeline of prototype.jsx *)
(* ------------------------------------------------------------------ *)

Section PrototypeFacts.
Import Prototype.

(** After [trim] the split has no empty piece, unless nothing is left. *)
Lemma split_ws_tail_nonempty (s : str) :
  trimEnd s = s ->
  forallb (fun w => negb (is_empty w)) (tl (split_ws s)) = true.
Proof.
  induction s as [|c s IH]; [reflexivity|].
  intros H. simpl in H.
  assert (Hs : s = [] \/ (s <> [] /\ trimEnd s = s)).
  { destruct (trimEnd s) as [|r rs] eqn:E.
    - destruct (is_space c); [discriminate|]. injection H as <-. now left.
    - injection H as <-. right. split; [discriminate|reflexivity]. }
  simpl. destruct (is_space c) eqn:Hc.
  - destruct Hs as [->|[Hne Hs]].
    + simpl in H. discriminate.
    + specialize (IH Hs).
      destruct (starts_with_space s) eqn:Hss; [exact IH|].
      simpl. destruct (split_ws_head s) as (w & ws & E & Hw).
      rewrite E in *. simpl in *. rewrite Hw, Hss.
      destruct s; [now elim Hne|]. simpl. exact IH.
  - destruct (split_ws_head s) as (w & ws & E & Hw).
    rewrite E in *. simpl.
    destruct Hs as [->|[_ Hs]]; [simpl in E; now injection E as <- <-|].
    exact (IH Hs).
Qed.

Lemma trimEnd_cons (c : ascii) (s : str) :
  trimEnd (c :: s) =
    match trimEnd s with
    | [] => if is_space c then [] else [c]
    | r :: rs => c :: r :: rs
    end.
Proof. reflexivity. Qed.

Lemma trimEnd_idem (s : str) : trimEnd (trimEnd s) = trimEnd s.
Proof.
  induction s as [|c s IH]; [reflexivity|].
  rewrite trimEnd_cons. destruct (trimEnd s) as [|r rs] eqn:E.
  - destruct (is_space c) eqn:Hc; [reflexivity|]. simpl. now rewrite Hc.
  - rewrite trimEnd_cons. now rewrite IH.
Qed.

Lemma trimStart_head (s : str) : starts_with_space (trimStart s) = false.
Proof.
  induction s as [|c s IH]; [reflexivity|].
  simpl. destruct (is_space c) eqn:Hc; [exact IH|]. simpl. exact Hc.
Qed.

Lemma split_ws_trim (s : str) :
  split_ws (trim s) = if is_empty (trim s) then [[]] else words s.
Proof.
  destruct (is_empty (trim s)) eqn:He.
  - destruct (trim s); [reflexivity|discriminate].
  - rewrite <- (words_trim s), <- words_split_ws.
    assert (Hhead : starts_with_space (trim s) = false).
    { unfold trim in *.
      assert (Hne : trimEnd (trimStart s) <> [])
        by (intros E; rewrite E in He; discriminate).
      destruct (trimEnd_head _ Hne) as [_ ->]. apply trimStart_head. }
    pose proof (split_ws_tail_nonempty (trim s) (trimEnd_idem (trimStart s))) as Ht.
    destruct (split_ws_head (trim s)) as (w & ws & E & Hw).
    rewrite E in *. simpl in Ht. rewrite He, Hhead in Hw. simpl in Hw.
    simpl. rewrite Hw. simpl. f_equal.
    clear - Ht. induction ws as [|x ws IH]; [reflexivity|].
    simpl in *. apply andb_prop in Ht as [Hx Hws]. rewrite Hx. f_equal. now apply IH.
Qed.

(** The stable sort leaves a list alone when no element is to come after a
    later one. *)
Lemma sort_unchanged (A : Type) (after : A -> A -> bool) (l : list A) :
  (forall a b, In a l -> In b l -> after a b = false) ->
  JsArray.sort after l = l.
Proof.
  induction l as [|x l IH]; intros H; [reflexivity|].
  simpl. rewrite IH by (intros a b Ha Hb; apply H; now right).
  destruct l as [|y l]; [reflexivity|].
  simpl. rewrite H; [reflexivity|now left|right; now left].
Qed.

(** With no free text every document gets the base score and no random
    value is drawn. *)
Lemma mapR_no_query (mockDocuments : list Document) (draws : nat -> JsNumber.float)
    (n : nat) :
  mapR (fun doc =>
          bind (calculateSimilarity [] (content doc)) (fun s =>
            ret (mkCand doc (JsNumber.number s))))
       mockDocuments draws n
  = (map (fun doc => mkCand doc (JsNumber.number JsNumber.f0_3)) mockDocuments, n).
Proof.
  induction mockDocuments as [|d l IH]; [reflexivity|].
  simpl. unfold bind at 1. unfold bind at 1. simpl.
  unfold bind at 1. rewrite IH. reflexivity.
Qed.

Lemma positive_self (x : Q) : JsNumber.positive (x - x) = false.
Proof. apply positive_diff_false. apply Qle_refl. Qed.

(** [performSearch] on a fully empty query: the first five documents, each
    with the base similarity and like score 0. *)
Lemma performSearch_empty_query (mockDocuments : list Document)
    (draws : nat -> JsNumber.float) :
  run (performSearch mockDocuments emptyParsed) draws
  = map (fun doc => mkRanked (mkCand doc (JsNumber.number JsNumber.f0_3)) 0)
        (firstn 5 mockDocuments).
Proof.
  unfold run, performSearch, recall, bind, emptyParsed.
  cbn [query]. rewrite mapR_no_query. unfold ret. cbn [fst].
  rewrite sort_unchanged.
  2:{ intros a b Ha Hb. apply in_map_iff in Ha as (da & <- & _).
      apply in_map_iff in Hb as (db & <- & _).
      unfold bySimilarity. cbn [similarity]. apply positive_self. }
  unfold rank, applyFilterTags, rerank, JsArray.slice0.
  cbn [likeTags mustTags mustNotTags].
  assert (F : forall l : list Candidate, filter (keeps [] []) l = l).
  { induction l as [|c l IH]; [reflexivity|]. simpl. now rewrite IH. }
  rewrite F. rewrite sort_unchanged.
  2:{ intros a b Ha Hb.
      apply in_map_iff in Ha as (ca & <- & Ha).
      apply in_map_iff in Hb as (cb & <- & Hb).
      apply In_firstn in Ha, Hb.
      apply in_map_iff in Ha as (da & <- & _).
      apply in_map_iff in Hb as (db & <- & _).
      unfold byLikeThenSimilarity, r_similarity.
      cbn [likeScore r_cand similarity countLikes fold_left].
      rewrite Z.eqb_refl. cbn [negb]. apply positive_self. }
  rewrite <- !firstn_map, map_map, firstn_firstn. reflexivity.
Qed.

(** The similarity of one document depends on one drawn value at most. *)
Lemma candidate_same_draw (query : str) (doc : Document)
    (draws1 draws2 : nat -> JsNumber.float) (n : nat) :
  draws1 n = draws2 n ->
  bind (calculateSimilarity query (content doc))
       (fun s => ret (mkCand doc (JsNumber.number s))) draws1 n
  = bind (calculateSimilarity query (content doc))
       (fun s => ret (mkCand doc (JsNumber.number s))) draws2 n.
Proof.
  intros H. unfold bind, calculateSimilarity, Math_random, ret.
  destruct (is_empty query); [reflexivity|]. simpl. now rewrite H.
Qed.

Lemma candidate_calls (query : str) (doc : Document)
    (draws : nat -> JsNumber.float) (n : nat) :
  (n <= snd (bind (calculateSimilarity query (content doc))
                  (fun s => ret (mkCand doc (JsNumber.number s))) draws n)
   <= S n)%nat.
Proof.
  unfold bind, calculateSimilarity, Math_random, ret.
  destruct (is_empty query); simpl; lia.
Qed.

Lemma mapR_same_draws (query : str) (mockDocuments : list Document)
    (draws1 draws2 : nat -> JsNumber.float) (n : nat) :
  (forall i, (n <= i < n + length mockDocuments)%nat -> draws1 i = draws2 i) ->
  mapR (fun doc =>
          bind (calculateSimilarity query (content doc)) (fun s =>
            ret (mkCand doc (JsNumber.number s))))
       mockDocuments draws1 n
  = mapR (fun doc =>
          bind (calculateSimilarity query (content doc)) (fun s =>
            ret (mkCand doc (JsNumber.number s))))
       mockDocuments draws2 n.
Proof.
  revert n. induction mockDocuments as [|d l IH]; intros n H; [reflexivity|].
  simpl mapR. unfold bind at 1. unfold bind at 4.
  rewrite (candidate_same_draw query d draws1 draws2 n)
    by (apply H; simpl; lia).
  pose proof (candidate_calls query d draws2 n) as Hn.
  destruct (bind (calculateSimilarity query (content d))
              (fun s => ret (mkCand d (JsNumber.number s))) draws2 n)
    as [c n'] eqn:E.
  simpl in Hn. unfold bind at 1. unfold bind at 2.
  rewrite (IH n') by (intros i Hi; apply H; simpl; lia).
  reflexivity.
Qed.

Lemma bind_eq (A B : Type) (m : Rand A) (k : A -> Rand B)
    (draws : nat -> JsNumber.float) (n : nat) :
  bind m k draws n = (let (a, n') := m draws n in k a draws n').
Proof. reflexivity. Qed.

(** [performSearch] ranks the candidates that the recall step returns. *)
Lemma performSearch_rank (mockDocuments : list Document) (parsed : ParsedQuery)
    (draws : nat -> JsNumber.float) :
  run (performSearch mockDocuments parsed) draws
  = rank parsed (run (recall mockDocuments (query parsed)) draws).
Proof.
  unfold run, performSearch. rewrite bind_eq.
  now destruct (recall mockDocuments (query parsed) draws 0).
Qed.

Lemma recall_same_draws (mockDocuments : list Document) (query : str)
    (draws1 draws2 : nat -> JsNumber.float) :
  Spec.sameDraws (length mockDocuments) draws1 draws2 ->
  recall mockDocuments query draws1 0 = recall mockDocuments query draws2 0.
Proof.
  intros H. unfold recall. rewrite !bind_eq.
  rewrite (mapR_same_draws query mockDocuments draws1 draws2 0); [reflexivity|].
  intros i Hi. apply H. lia.
Qed.

Lemma performSearch_same_draws (mockDocuments : list Document)
    (parsed : ParsedQuery) (draws1 draws2 : nat -> JsNumber.float) :
  Spec.sameDraws (length mockDocuments) draws1 draws2 ->
  performSearch mockDocuments parsed draws1 0
  = performSearch mockDocuments parsed draws2 0.
Proof.
  intros H. unfold performSearch. rewrite !bind_eq.
  now rewrite (recall_same_draws mockDocuments (query parsed) draws1 draws2 H).
Qed.

End PrototypeFacts.

(* ------------------------------------------------------------------ *)
(** ** The parser and the toggle of prototype.jsx *)
(* ------------------------------------------------------------------ *)

Section PrototypeTextFacts.
Import Prototype.

Lemma classify_one (t : str) (l m n : list str) :
  classify (l, m, n) t
  = (l ++ map cleanTag
            (filter (fun t => negb (startsWith t "+") && negb (startsWith t "-")) [t]),
     m ++ map substring1 (filter (fun t => startsWith t "+") [t]),
     n ++ map substring1 (filter (fun t => startsWith t "-") [t])).
Proof.
  unfold classify.
  destruct t as [|c t']; [simpl; now rewrite !app_nil_r|].
  unfold startsWith, cleanTag, starts_with_prefix, is_prefix_char.
  cbn [filter].
  destruct (Ascii.eqb c "+") eqn:E1.
  - apply Ascii.eqb_eq in E1. subst c. simpl. now rewrite !app_nil_r.
  - destruct (Ascii.eqb c "-") eqn:E2; [simpl; now rewrite !app_nil_r|].
    destruct (Ascii.eqb c "~") eqn:E3; simpl; rewrite E1, E2, E3; simpl;
      now rewrite !app_nil_r.
Qed.

Lemma classify_fold (ts : list str) (l m n : list str) :
  fold_left classify ts (l, m, n)
  = (l ++ map cleanTag
            (filter (fun t => negb (startsWith t "+") && negb (startsWith t "-")) ts),
     m ++ map substring1 (filter (fun t => startsWith t "+") ts),
     n ++ map substring1 (filter (fun t => startsWith t "-") ts)).
Proof.
  revert l m n. induction ts as [|t ts IH]; intros l m n.
  - simpl. now rewrite !app_nil_r.
  - change (fold_left classify (t :: ts) (l, m, n))
      with (fold_left classify ts (classify (l, m, n) t)).
    rewrite classify_one, IH.
    change (t :: ts) with ([t] ++ ts).
    rewrite !filter_app, !map_app, <- !app_assoc. reflexivity.
Qed.

Lemma prototype_parseSearchInput_spec (input : str) :
  parseSearchInput input = Spec.parsePrototype input.
Proof.
  unfold parseSearchInput, Spec.parsePrototype.
  rewrite split_ws_trim. destruct (is_empty (trim input)) eqn:He.
  - now rewrite (trim_empty_words _ He).
  - destruct (words input) as [|first rest] eqn:Ew.
    + apply words_nil_trim in Ew. rewrite Ew in He. discriminate.
    + simpl hd. simpl tl. now rewrite classify_fold.
Qed.

Lemma words_nonblank_trim (s : str) :
  words s <> [] -> is_empty (trim s) = false.
Proof.
  intros H. destruct (is_empty (trim s)) eqn:E; [|reflexivity].
  elim H. now apply trim_empty_words.
Qed.

Lemma filter_tokens (p : str -> bool) (l : list str) :
  forallb is_token l = true -> forallb is_token (filter p l) = true.
Proof.
  induction l as [|a l IH]; [reflexivity|].
  simpl. intros H. apply andb_prop in H as [Ha Hl].
  destruct (p a); simpl; [rewrite Ha|]; now apply IH.
Qed.

Lemma words_toggleTag (s t q : str) (ts : list str) :
  words s = q :: ts -> no_space t = true ->
  words (toggleTag s t)
  = q :: filter (fun e => negb (str_eqb (cleanTag e) t)) ts
      ++ Spec.suffixFor (tagStateIn ts t) t.
Proof.
  intros Hw Ht.
  assert (Hne : is_empty (trim s) = false)
    by (apply words_nonblank_trim; rewrite Hw; discriminate).
  pose proof (words_all_tokens s) as Htok. rewrite Hw in Htok.
  simpl in Htok. apply andb_prop in Htok as [Hq Hts].
  unfold toggleTag, getTagState. rewrite split_ws_trim, Hne, Hw.
  cbn [hd tl]. rewrite words_trim.
  set (filtered := filter (fun e => negb (str_eqb (cleanTag e) t)) ts).
  assert (Hf : forallb is_token filtered = true) by now apply filter_tokens.
  assert (Hbase : words q = [q]) by now apply words_token.
  assert (Hjoin : words (q ++ lit " " ++ join (lit " ") filtered) = q :: filtered).
  { rewrite words_app by reflexivity.
    change (lit " " ++ join (lit " ") filtered)
      with (" "%char :: join (lit " ") filtered).
    rewrite words_space by reflexivity.
    now rewrite Hbase, (words_join_tokens filtered Hf). }
  assert (Hpre : forall c, is_space c = false ->
            words ((" "%char :: [c]) ++ t) = [c :: t]).
  { intros c Hc. change ((" "%char :: [c]) ++ t) with (" "%char :: c :: t).
    rewrite words_space by reflexivity. apply words_token.
    rewrite is_token_cons, Hc. exact Ht. }
  change (lit " ~") with (" "%char :: ["~"%char]).
  change (lit " +") with (" "%char :: ["+"%char]).
  change (lit " -") with (" "%char :: ["-"%char]).
  destruct filtered as [|f fs] eqn:Ef; cbn [length Nat.ltb Nat.leb];
    destruct (tagStateIn ts t); cbn [Spec.suffixFor];
    first [ rewrite words_app by reflexivity; rewrite Hpre by reflexivity
          | idtac ];
    rewrite ?Hjoin, ?Hbase, ?app_nil_r; reflexivity.
Qed.

Lemma cleanTag_substring1 (e : str) :
  startsWith e "+" || startsWith e "-" = true -> substring1 e = cleanTag e.
Proof.
  destruct e as [|c e]; [discriminate|].
  unfold startsWith, cleanTag, starts_with_prefix, is_prefix_char. simpl.
  intros H. apply orb_prop in H as [->| ->]; [reflexivity|].
  now rewrite orb_true_r.
Qed.

Lemma musts_as_cleanTag (c : ascii) (ts : list str) :
  c = "+"%char \/ c = "-"%char ->
  map substring1 (filter (fun e => startsWith e c) ts)
  = map cleanTag (filter (fun e => startsWith e c) ts).
Proof.
  intros Hc. apply map_ext_in. intros e He. apply filter_In in He as [_ He].
  apply cleanTag_substring1. destruct Hc; subst c; rewrite He; auto using orb_true_r.
Qed.

(** Tokens whose clean form is the toggled tag do not count for another tag. *)
Lemma member_clean_filter (p : str -> bool) (ts : list str) (t u : str) :
  Spec.sameTag t u = false ->
  Spec.member
    (map cleanTag (filter p (filter (fun e => negb (str_eqb (cleanTag e) t)) ts))) u
  = Spec.member (map cleanTag (filter p ts)) u.
Proof.
  intros Hu. induction ts as [|e ts IH]; [reflexivity|].
  simpl. destruct (str_eqb (cleanTag e) t) eqn:E; simpl.
  - rewrite IH. destruct (p e); [|reflexivity].
    simpl. apply str_eqb_eq in E. rewrite E.
    fold (Spec.sameTag t u). now rewrite Hu.
  - destruct (p e); simpl; now rewrite IH.
Qed.

Lemma member_clean_suffix (p : str -> bool) (st : TagState) (t u : str) :
  Spec.sameTag t u = false ->
  Spec.member (map cleanTag (filter p (Spec.suffixFor st t))) u = false.
Proof.
  intros Hu. destruct st; simpl; try reflexivity;
    destruct (p _); simpl; try reflexivity;
    unfold cleanTag; simpl; fold (Spec.sameTag t u); now rewrite Hu.
Qed.

Lemma member_clean_toggled (p : str -> bool) (ts : list str) (st : TagState)
    (t u : str) :
  Spec.sameTag t u = false ->
  Spec.member
    (map cleanTag
         (filter p (filter (fun e => negb (str_eqb (cleanTag e) t)) ts
                    ++ Spec.suffixFor st t))) u
  = Spec.member (map cleanTag (filter p ts)) u.
Proof.
  intros Hu. rewrite filter_app, map_app, member_app.
  rewrite member_clean_filter, member_clean_suffix by exact Hu.
  apply orb_false_r.
Qed.

(** In the prototype, toggling a tag without white space in a text that has
    a first word leaves the free text and the sets of every other tag. *)
Lemma prototype_toggle_frame (s t u : str) :
  words s <> [] -> no_space t = true -> Spec.sameTag t u = false ->
  query (parseSearchInput (toggleTag s t)) = query (parseSearchInput s)
  /\ Spec.member (likeTags (parseSearchInput (toggleTag s t))) u
     = Spec.member (likeTags (parseSearchInput s)) u
  /\ Spec.member (mustTags (parseSearchInput (toggleTag s t))) u
     = Spec.member (mustTags (parseSearchInput s)) u
  /\ Spec.member (mustNotTags (parseSearchInput (toggleTag s t))) u
     = Spec.member (mustNotTags (parseSearchInput s)) u.
Proof.
  intros Hw Ht Hu. rewrite !prototype_parseSearchInput_spec.
  unfold Spec.parsePrototype.
  destruct (words s) as [|q ts] eqn:Ew; [now elim Hw|].
  rewrite (words_toggleTag s t q ts Ew Ht).
  cbn [query likeTags mustTags mustNotTags].
  rewrite !musts_as_cleanTag by auto.
  now rewrite !member_clean_toggled by exact Hu.
Qed.

(** The state of a tag in the prototype, from the words of the text. *)
Lemma getTagState_words (s t : str) :
  getTagState s t = tagStateIn (tl (words s)) t.
Proof.
  unfold getTagState. rewrite split_ws_trim.
  destruct (is_empty (trim s)) eqn:E; [|reflexivity].
  now rewrite (trim_empty_words _ E).
Qed.

Lemma tagStateIn_none (ts : list str) (t : str) :
  tagStateIn ts t = none ->
  filter (fun e => negb (str_eqb (cleanTag e) t)) ts = ts.
Proof.
  induction ts as [|e ts IH]; [reflexivity|].
  simpl. destruct (str_eqb (cleanTag e) t).
  - destruct (startsWith e "+"); [discriminate|].
    destruct (startsWith e "-"); discriminate.
  - intros H. simpl. now rewrite IH.
Qed.

Lemma tagStateIn_snoc (ts : list str) (c : ascii) (t : str) :
  tagStateIn ts t = none -> is_prefix_char c = true ->
  tagStateIn (ts ++ [c :: t]) t
  = (if Ascii.eqb c "+" then must else if Ascii.eqb c "-" then mustNot else like)
  /\ filter (fun e => negb (str_eqb (cleanTag e) t)) (ts ++ [c :: t]) = ts.
Proof.
  intros Hn Hc. split.
  - induction ts as [|e ts IH]; simpl in *.
    + unfold cleanTag. simpl. rewrite Hc. simpl. now rewrite str_eqb_refl.
    + destruct (str_eqb (cleanTag e) t); [|now apply IH].
      destruct (startsWith e "+"); [discriminate|].
      destruct (startsWith e "-"); discriminate.
  - rewrite filter_app, (tagStateIn_none ts t Hn). simpl.
    unfold cleanTag. simpl. rewrite Hc. simpl.
    now rewrite str_eqb_refl, app_nil_r.
Qed.

Lemma tagStateIn_not_token (ts : list str) (t : str) :
  forallb is_token ts = true -> no_space t = false -> tagStateIn ts t = none.
Proof.
  intros Hts Ht. induction ts as [|e ts IH]; [reflexivity|].
  simpl in Hts. apply andb_prop in Hts as [He Hts]. simpl.
  destruct (str_eqb (cleanTag e) t) eqn:E; [|now apply IH].
  apply str_eqb_eq in E. exfalso.
  assert (Hc : no_space (cleanTag e) = true).
  { unfold is_token in He. apply andb_prop in He as [_ He].
    unfold cleanTag. destruct (starts_with_prefix e); [|exact He].
    destruct e; [reflexivity|]. simpl in He. now apply andb_prop in He as [_ He]. }
  congruence.
Qed.

(** In the prototype the cycle closes when the text has a first word: from
    state [none], four toggles of the tag lead back to state [none]. *)
Lemma prototype_toggle_four (s t : str) :
  words s <> [] -> getTagState s t = none ->
  getTagState (toggleTag (toggleTag (toggleTag (toggleTag s t) t) t) t) t = none.
Proof.
  intros Hw Hn. destruct (no_space t) eqn:Ht.
  - destruct (words s) as [|q ts] eqn:Ew; [now elim Hw|].
    rewrite getTagState_words, Ew in Hn. cbn [tl] in Hn.
    pose proof (words_toggleTag s t q ts Ew Ht) as W1.
    rewrite Hn, (tagStateIn_none ts t Hn) in W1. cbn [Spec.suffixFor] in W1.
    destruct (tagStateIn_snoc ts "~" t Hn eq_refl) as [S1 F1]. simpl in S1.
    pose proof (words_toggleTag _ t q _ W1 Ht) as W2.
    rewrite S1, F1 in W2. cbn [Spec.suffixFor] in W2.
    destruct (tagStateIn_snoc ts "+" t Hn eq_refl) as [S2 F2]. simpl in S2.
    pose proof (words_toggleTag _ t q _ W2 Ht) as W3.
    rewrite S2, F2 in W3. cbn [Spec.suffixFor] in W3.
    destruct (tagStateIn_snoc ts "-" t Hn eq_refl) as [S3 F3]. simpl in S3.
    pose proof (words_toggleTag _ t q _ W3 Ht) as W4.
    rewrite S3, F3 in W4. cbn [Spec.suffixFor] in W4. rewrite app_nil_r in W4.
    rewrite getTagState_words, W4. exact Hn.
  - rewrite getTagState_words. apply tagStateIn_not_token; [|exact Ht].
    set (x := toggleTag (toggleTag (toggleTag (toggleTag s t) t) t) t).
    pose proof (words_all_tokens x) as H.
    destruct (words x); [reflexivity|]. simpl in H.
    now apply andb_prop in H as [_ H].
Qed.

End PrototypeTextFacts.

(* ================================================================== *)
(** * The claims of the specification *)
(* ================================================================== *)

(* ------------------------------------------------------------------ *)
(** ** C1: the fully empty query *)
(* ------------------------------------------------------------------ *)

(** C1, against the claim: the prototype has no guard for the fully empty
    query.  Every document gets the base similarity 0.3, the first five are
    returned, and their tags are recommended: here two results and three
    recommended tags. *)
Lemma empty_query_prototype_returns_documents :
  map (fun r => Prototype.id (Prototype.c_doc (Prototype.r_cand r)))
      (fst (Prototype.run
              (Prototype.pipeline Examples.documents (lit ""))
              Examples.drawsLowFirst))
  = [1%Z; 2%Z]
  /\ map Prototype.tag
       (snd (Prototype.run
               (Prototype.pipeline Examples.documents (lit ""))
               Examples.drawsLowFirst))
     = [lit "JavaScript"; lit "React"; lit "Vue"]
  /\ Prototype.parseSearchInput (lit "") = mkParsed [] [] [] [].
Proof. vm_compute. repeat split. Qed.

(** C1, amended: for every fully empty structured query, [performSearch] of
    NaviSearch.jsx sets an empty result list and an empty recommendation list
    whatever the backend would answer, and [performSearch] of prototype.jsx
    returns the first five documents, each with the base similarity and like
    score 0, whatever [Math.random] would return. *)
Theorem empty_query_results (parsed : ParsedQuery) :
  Spec.fullyEmpty parsed ->
  (forall (R T : Type) (makeApiRequest : NaviSearch.Payload -> option (NaviSearch.SearchData R T)),
      NaviSearch.performSearch makeApiRequest parsed
      = NaviSearch.mkSearchState [] [])
  /\ (forall (mockDocuments : list Prototype.Document) (draws : nat -> JsNumber.float),
        Prototype.run (Prototype.performSearch mockDocuments parsed) draws
        = map (fun doc =>
                 Prototype.mkRanked
                   (Prototype.mkCand doc (JsNumber.number JsNumber.f0_3)) 0)
              (firstn 5 mockDocuments)).
Proof.
  intros (Hq & Hl & Hm & Hn). destruct parsed as [q l m n]. simpl in *. subst.
  split.
  - intros R T api. reflexivity.
  - intros docs draws. apply performSearch_empty_query.
Qed.

Lemma empty_query_results_witness :
  Spec.fullyEmpty (NaviSearch.parseSearchInput (lit "  "))
  /\ NaviSearch.performSearch
       (fun _ => Some (NaviSearch.mkData (Some [1%Z]) (Some [lit "tag"])))
       (NaviSearch.parseSearchInput (lit "  "))
     = NaviSearch.mkSearchState [] [].
Proof.
  assert (H : Spec.fullyEmpty (NaviSearch.parseSearchInput (lit "  ")))
    by (repeat split; reflexivity).
  split; [exact H|].
  exact (proj1 (empty_query_results (NaviSearch.parseSearchInput (lit "  ")) H)
               Z str _).
Defined.

(* ------------------------------------------------------------------ *)
(** ** C2: the filter *)
(* ------------------------------------------------------------------ *)

(** C2, against the claim: matching goes one way only, the document tag must
    contain the query tag.  A must tag that contains a tag of the document
    matches by the claim, and the candidate is dropped; a must-not tag that
    contains a tag of the document matches by the claim, and the candidate
    is kept. *)
Lemma filter_matches_one_way_only :
  Spec.keepsEitherWay [lit "javascript-es6"] []
    (Examples.candidate 1 ["JavaScript"%string] 1) = true
  /\ Prototype.applyFilterTags [lit "javascript-es6"] []
       [Examples.candidate 1 ["JavaScript"%string] 1] = []
  /\ Spec.keepsEitherWay [] [lit "nosql"]
       (Examples.candidate 2 ["SQL"%string] 1) = false
  /\ Prototype.applyFilterTags [] [lit "nosql"]
       [Examples.candidate 2 ["SQL"%string] 1]
     = [Examples.candidate 2 ["SQL"%string] 1].
Proof. vm_compute. repeat split. Qed.

(** C2, amended: the ranker keeps a candidate if and only if, compared in
    lower case, every tag in mustTags is a substring of some tag of the
    document and no tag in mustNotTags is a substring of any tag of the
    document; the results returned are among the candidates kept, and
    [performSearch] returns the results for the candidates of its recall
    step. *)
Theorem filter_keeps_iff (parsed : ParsedQuery)
    (candidates : list Prototype.Candidate) :
  (forall doc,
      In doc (Prototype.applyFilterTags (mustTags parsed) (mustNotTags parsed)
                                        candidates)
      <->
      In doc candidates
      /\ (forall tag, In tag (mustTags parsed) ->
            exists docTag, In docTag (Prototype.tags (Prototype.c_doc doc))
              /\ Spec.substringOf (toLowerCase tag) (toLowerCase docTag))
      /\ (forall tag, In tag (mustNotTags parsed) ->
            ~ exists docTag, In docTag (Prototype.tags (Prototype.c_doc doc))
                /\ Spec.substringOf (toLowerCase tag) (toLowerCase docTag)))
  /\ (forall r, In r (Prototype.rank parsed candidates) ->
        In (Prototype.r_cand r)
           (Prototype.applyFilterTags (mustTags parsed) (mustNotTags parsed)
                                      candidates))
  /\ (forall mockDocuments draws,
        Prototype.run (Prototype.performSearch mockDocuments parsed) draws
        = Prototype.rank parsed
            (Prototype.run (Prototype.recall mockDocuments (query parsed)) draws)).
Proof.
  split; [|split; [|intros docs draws; apply performSearch_rank]].
  - intros doc. unfold Prototype.applyFilterTags.
    rewrite filter_In, keeps_spec. split.
    + intros (Hin & H1 & H2). split; [exact Hin|]. split.
      * intros tag Ht. apply hasTag_spec. now apply H1.
      * intros tag Ht Hex. apply hasTag_spec in Hex.
        rewrite (H2 tag Ht) in Hex. discriminate.
    + intros (Hin & H1 & H2). split; [exact Hin|]. split.
      * intros tag Ht. apply hasTag_spec. now apply H1.
      * intros tag Ht.
        destruct (Prototype.hasTag (Prototype.tags (Prototype.c_doc doc)) tag) eqn:E;
          [|reflexivity].
        exfalso. apply (H2 tag Ht). now apply hasTag_spec.
  - intros r Hr. unfold Prototype.rank, JsArray.slice0 in Hr.
    apply In_firstn in Hr. now apply rerank_In in Hr.
Qed.

(* ------------------------------------------------------------------ *)
(** ** C3: the order of the results *)
(* ------------------------------------------------------------------ *)

(** C3: the candidates that pass the filter are sorted descending by the pair
    (likeScore, similarity), likeScore first; the results are the first five
    of them, so they are sorted in the same way; and of two candidates with
    like scores 2 and 1 the one with like score 2 stands first, whatever the
    similarities.  The sorted list holds the candidates that pass the filter,
    each of them once and none else, and the like score of an entry is the
    number of like tags of the query that a tag of the candidate contains.
    What [performSearch] returns is the ranking of the candidates of the
    recall step, and it is sorted in this way for every document collection
    and every value of [Math.random]. *)
Theorem rank_sorted_by_like_then_similarity (parsed : ParsedQuery)
    (candidates : list Prototype.Candidate) :
  let ranked :=
    Prototype.rerank (likeTags parsed)
      (Prototype.applyFilterTags (mustTags parsed) (mustNotTags parsed)
                                 candidates) in
  Prototype.rank parsed candidates = firstn 5 ranked
  /\ Permutation (map Prototype.r_cand ranked)
                 (Prototype.applyFilterTags (mustTags parsed) (mustNotTags parsed)
                                            candidates)
  /\ (forall r, In r ranked ->
        Prototype.likeScore r
        = Z.of_nat (length (filter (Prototype.hasTag (Prototype.r_tags r))
                                   (likeTags parsed))))
  /\ StronglySorted Spec.descending ranked
  /\ StronglySorted Spec.descending (Prototype.rank parsed candidates)
  /\ (forall i j a b,
        nth_error ranked i = Some a -> nth_error ranked j = Some b ->
        Prototype.likeScore a = 2%Z -> Prototype.likeScore b = 1%Z ->
        (i < j)%nat)
  /\ (forall mockDocuments draws,
        Prototype.run (Prototype.performSearch mockDocuments parsed) draws
        = Prototype.rank parsed
            (Prototype.run (Prototype.recall mockDocuments (query parsed)) draws)
        /\ StronglySorted Spec.descending
             (Prototype.run (Prototype.performSearch mockDocuments parsed) draws)).
Proof.
  intros ranked.
  assert (Hall : forall l, StronglySorted Spec.descending
                   (Prototype.rerank (likeTags parsed) l)).
  { intros l. apply StronglySorted_weaken
      with (R := JsArray.before Prototype.byLikeThenSimilarity).
    - intros a b H. now apply byLikeThenSimilarity_false.
    - apply rerank_sorted. }
  split; [reflexivity|].
  split.
  { unfold ranked, Prototype.rerank.
    set (kept := Prototype.applyFilterTags _ _ candidates).
    eapply Permutation_trans; [apply Permutation_map, sort_perm|].
    rewrite map_map. cbn [Prototype.r_cand]. rewrite map_id.
    apply Permutation_refl. }
  split.
  { intros r Hr. apply rerank_In in Hr as [_ ->]. apply countLikes_spec. }
  split; [apply Hall|].
  split; [unfold Prototype.rank, JsArray.slice0;
          apply StronglySorted_firstn, Hall|].
  split.
  - pose proof (Hall (Prototype.applyFilterTags (mustTags parsed)
                        (mustNotTags parsed) candidates)) as Hs.
    fold ranked in Hs.
    intros i j a b Hi Hj Ha Hb.
    destruct (Nat.lt_trichotomy i j) as [H|[H|H]]; [exact H|exfalso..].
    + subst j. rewrite Hi in Hj. injection Hj as <-. lia.
    + pose proof (StronglySorted_nth _ _ _ Hs j i b a Hj Hi H) as D.
      unfold Spec.descending in D. lia.
  - intros docs draws. rewrite performSearch_rank. split; [reflexivity|].
    unfold Prototype.rank, JsArray.slice0.
    apply StronglySorted_firstn, Hall.
Qed.

(* ------------------------------------------------------------------ *)
(** ** C4: at most one set *)
(* ------------------------------------------------------------------ *)

(** C4, against the claim: a click does not repair the sets it starts from.
    From the text [+a -a] the tag [a] is in two sets and stays there when
    [b] is toggled.  And a tag with white space in it is split when the text
    is parsed again: setting [a b] as must and then [b x] as must-not, from
    the empty text, leaves [b] in the like tags and in the must-not tags. *)
Lemma tag_ops_leave_tag_in_two_sets :
  NaviSearch.parseSearchInput
    (NaviSearch.applyOps (lit "+a -a") [NaviSearch.OpToggle (lit "b")])
  = mkParsed [] [lit "b"] [lit "a"] [lit "a"]
  /\ Spec.atMostOneSet
       (NaviSearch.parseSearchInput
          (NaviSearch.applyOps (lit "+a -a") [NaviSearch.OpToggle (lit "b")]))
     = false
  /\ NaviSearch.parseSearchInput
       (NaviSearch.applyOps (lit "")
          [NaviSearch.OpAdd (lit "a b") must; NaviSearch.OpAdd (lit "b x") mustNot])
     = mkParsed [] [lit "b"; lit "x"] [lit "a"] [lit "b"]
  /\ Spec.atMostOneSet
       (NaviSearch.parseSearchInput
          (NaviSearch.applyOps (lit "")
             [NaviSearch.OpAdd (lit "a b") must;
              NaviSearch.OpAdd (lit "b x") mustNot]))
     = false.
Proof. vm_compute. repeat split. Qed.

(** C4, amended: if no normalized tag is in more than one of the three sets
    parsed from the search text, then after any sequence of toggle, direct-set
    and remove operations in which every toggled or directly set tag is a
    non-empty string without white space, no normalized tag is in more than
    one of the sets parsed from the resulting text. *)
Theorem tag_ops_keep_at_most_one_set (searchInput : str)
    (ops : list NaviSearch.TagOp) :
  Spec.atMostOneSet (NaviSearch.parseSearchInput searchInput) = true ->
  forallb Spec.textualOp ops = true ->
  Spec.atMostOneSet
    (NaviSearch.parseSearchInput (NaviSearch.applyOps searchInput ops)) = true.
Proof.
  revert searchInput. unfold NaviSearch.applyOps.
  induction ops as [|op ops IH]; intros s Hs Hops; [exact Hs|].
  simpl in Hops. apply andb_prop in Hops as [Hop Hops].
  simpl. apply IH; [|exact Hops].
  rewrite parse_applyOp by exact Hop.
  now apply applied_atMostOneSet.
Qed.

Lemma tag_ops_keep_at_most_one_set_witness :
  Spec.atMostOneSet
    (NaviSearch.parseSearchInput
       (NaviSearch.applyOps (lit "react ~JS +web")
          [NaviSearch.OpToggle (lit "js");
           NaviSearch.OpAdd (lit "Web") mustNot;
           NaviSearch.OpRemove (lit "a b") like;
           NaviSearch.OpToggle (lit "css")])) = true.
Proof.
  apply (tag_ops_keep_at_most_one_set (lit "react ~JS +web")); reflexivity.
Defined.

(* ------------------------------------------------------------------ *)
(** ** C5: the toggle cycle *)
(* ------------------------------------------------------------------ *)

Lemma toggle_parse (s t : str) :
  is_token t = true ->
  NaviSearch.parseSearchInput (NaviSearch.toggleTagInSearch s t)
  = NaviSearch.toggled (NaviSearch.parseSearchInput s) t.
Proof. intros H. exact (parse_applyOp s (NaviSearch.OpToggle t) H). Qed.

(** C5 in NaviSearch.jsx: from a text in which the tag is in none of the
    three sets, four toggles of the tag lead to a text in which it is again
    in none of them. *)
Theorem toggle_four_times_absent (searchInput tag : str) :
  Spec.absent (NaviSearch.parseSearchInput searchInput) tag = true ->
  Spec.absent
    (NaviSearch.parseSearchInput
       (NaviSearch.toggleTagInSearch
          (NaviSearch.toggleTagInSearch
             (NaviSearch.toggleTagInSearch
                (NaviSearch.toggleTagInSearch searchInput tag) tag) tag) tag))
    tag = true.
Proof.
  intros H. destruct (is_token tag) eqn:Ht.
  - rewrite !toggle_parse by exact Ht. now rewrite toggled_four.
  - now apply absent_not_token.
Qed.

Lemma toggle_four_times_absent_witness :
  Spec.absent
    (NaviSearch.parseSearchInput
       (NaviSearch.toggleTagInSearch
          (NaviSearch.toggleTagInSearch
             (NaviSearch.toggleTagInSearch
                (NaviSearch.toggleTagInSearch (lit "react +web") (lit "JS"))
                (lit "JS")) (lit "JS")) (lit "JS")))
    (lit "JS") = true.
Proof.
  apply (toggle_four_times_absent (lit "react +web") (lit "JS")). reflexivity.
Defined.

(** C5 in prototype.jsx, at the empty search text: the tag [a] is in state
    [none]; the first toggle makes [~a] the first token, which the prototype
    reads as the free text, so the tag is still in state [none]; after four
    toggles the text is [~a -a] and the tag is in state [mustNot]. *)
Theorem prototype_toggle_cycle_breaks :
  Prototype.getTagState (lit "") (lit "a") = none
  /\ Prototype.toggleTag (lit "") (lit "a") = lit "~a"
  /\ Prototype.getTagState (lit "~a") (lit "a") = none
  /\ Prototype.toggleTag
       (Prototype.toggleTag
          (Prototype.toggleTag (Prototype.toggleTag (lit "") (lit "a")) (lit "a"))
          (lit "a")) (lit "a")
     = lit "~a -a"
  /\ Prototype.getTagState (lit "~a -a") (lit "a") = mustNot
  /\ Prototype.parseSearchInput (lit "~a -a")
     = mkParsed (lit "~a") [] [] [lit "a"].
Proof. vm_compute. repeat split. Qed.

(* ------------------------------------------------------------------ *)
(** ** C6: the round trip *)
(* ------------------------------------------------------------------ *)

(** C6, against the claim: a tag with white space in it, or an empty tag, does
    not come back.  The must tag [network security] is parsed back as the
    must tag [network] and the like tag [security]; the empty must tag is
    written as [+], which is parsed back as free text. *)
Lemma round_trip_loses_tag_with_space :
  let q := mkParsed [] [] [lit "network security"] [] in
  let e := mkParsed [] [] [lit ""] [] in
  Spec.atMostOneSet q = true
  /\ Spec.serialize q = lit "+network security"
  /\ NaviSearch.parseSearchInput (Spec.serialize q)
     = mkParsed [] [lit "security"] [lit "network"] []
  /\ (Spec.sameUpToCaseAndOrder (NaviSearch.parseSearchInput (Spec.serialize q)) q
      -> False)
  /\ Spec.atMostOneSet e = true
  /\ NaviSearch.parseSearchInput (Spec.serialize e) = mkParsed (lit "+") [] [] []
  /\ (Spec.sameUpToCaseAndOrder (NaviSearch.parseSearchInput (Spec.serialize e)) e
      -> False).
Proof.
  cbv zeta. repeat split; try reflexivity.
  - intros (_ & H & _). vm_compute in H.
    apply Permutation_length in H. discriminate.
  - intros (H & _). vm_compute in H. discriminate.
Qed.

(** C6, amended: for every structured query whose free text is a sequence of
    tokens joined by single spaces, none of them a tag token, and whose tags
    are non-empty strings without white space, parsing the canonical
    serialization gives the query back as it was: the same free text and the
    same tags, in the same order and case. *)
Theorem parse_serialize_round_trip (q : ParsedQuery) :
  Spec.textual q = true ->
  NaviSearch.parseSearchInput (Spec.serialize q) = q.
Proof. apply parse_serialize_textual. Qed.

Lemma parse_serialize_round_trip_witness :
  NaviSearch.parseSearchInput
    (Spec.serialize
       (mkParsed (lit "fire wall") [lit "Policy"; lit "x"] [lit "security"]
                 [lit "deprecated"]))
  = mkParsed (lit "fire wall") [lit "Policy"; lit "x"] [lit "security"]
             [lit "deprecated"].
Proof.
  apply (parse_serialize_round_trip
           (mkParsed (lit "fire wall") [lit "Policy"; lit "x"] [lit "security"]
                     [lit "deprecated"])).
  reflexivity.
Defined.

(* ------------------------------------------------------------------ *)
(** ** C7: the recommendation scorer *)
(* ------------------------------------------------------------------ *)


(* ------------------------------------------------------------------ *)
(** ** C8: the parser, token by token *)
(* ------------------------------------------------------------------ *)

(** C8, against the claim: the parser of the prototype takes the first token
    as the free text even when it is a tag token, and takes an unprefixed
    token that follows the free text as a like tag although no tag token has
    been seen. *)
Lemma prototype_parse_first_token_is_free_text :
  Prototype.parseSearchInput (lit "+secure audit")
  = mkParsed (lit "+secure") [lit "audit"] [] []
  /\ NaviSearch.parseSearchInput (lit "+secure audit")
     = mkParsed [] [lit "audit"] [lit "secure"] []
  /\ Prototype.parseSearchInput (lit "fire wall +secure")
     = mkParsed (lit "fire") [lit "wall"] [lit "secure"] []
  /\ NaviSearch.parseSearchInput (lit "fire wall +secure")
     = mkParsed (lit "fire wall") [] [lit "secure"] [].
Proof. vm_compute. repeat split. Qed.

(** C8, amended: for every input string, [parseSearchInput] of NaviSearch.jsx
    goes through the white-space separated tokens from left to right: the
    tokens before the first tag token (a prefix character followed by at
    least one more character) are the free text, joined by single spaces;
    from the first tag token on, every tag token is stripped of its prefix
    and appended to mustTags, mustNotTags or likeTags by its prefix, and every
    other token is appended to likeTags.  [parseSearchInput] of prototype.jsx
    takes the first token as the free text whatever it starts with, and
    appends every later token, stripped of a leading prefix character, to
    mustTags or mustNotTags when it starts with [+] or [-] and to likeTags
    otherwise. *)
Theorem parseSearchInput_by_tokens (input : str) :
  NaviSearch.parseSearchInput input = Spec.parse input
  /\ Prototype.parseSearchInput input = Spec.parsePrototype input.
Proof.
  split; [apply parseSearchInput_spec|apply prototype_parseSearchInput_spec].
Qed.

(* ------------------------------------------------------------------ *)
(** ** C9: determinism *)
(* ------------------------------------------------------------------ *)

(** C9, against the claim: with the same input and the same documents, two
    invocations in which [Math.random] returns different values rank the
    documents differently. *)
Lemma pipeline_depends_on_random_draws :
  map (fun r => Prototype.id (Prototype.c_doc (Prototype.r_cand r)))
      (fst (Prototype.run (Prototype.pipeline Examples.documents (lit "JavaScript"))
                          Examples.drawsLowFirst))
  = [2%Z; 1%Z]
  /\ map (fun r => Prototype.id (Prototype.c_doc (Prototype.r_cand r)))
       (fst (Prototype.run (Prototype.pipeline Examples.documents (lit "JavaScript"))
                           Examples.drawsHighFirst))
     = [1%Z; 2%Z].
Proof. vm_compute. split; reflexivity. Qed.

(** C9, amended: two invocations of the parse, search and recommend pipeline
    with the same input string over the same documents, in which the calls of
    [Math.random] (at most one for each document) return the same values,
    produce the same ranked results and the same recommendations. *)
Theorem pipeline_same_draws (mockDocuments : list Prototype.Document)
    (searchInput : str) (draws1 draws2 : nat -> JsNumber.float) :
  Spec.sameDraws (length mockDocuments) draws1 draws2 ->
  Prototype.run (Prototype.pipeline mockDocuments searchInput) draws1
  = Prototype.run (Prototype.pipeline mockDocuments searchInput) draws2.
Proof.
  intros H. unfold Prototype.run, Prototype.pipeline.
  rewrite !bind_eq.
  now rewrite (performSearch_same_draws mockDocuments _ draws1 draws2 H).
Qed.

Lemma pipeline_same_draws_witness :
  Prototype.run (Prototype.pipeline Examples.documents (lit "JavaScript +react"))
                Examples.drawsLowFirst
  = Prototype.run (Prototype.pipeline Examples.documents (lit "JavaScript +react"))
                  (fun n => match n with
                            | 0%nat => JsNumber.f0
                            | 1%nat => JsNumber.f0_5
                            | _ => JsNumber.f1
                            end).
Proof.
  apply (pipeline_same_draws Examples.documents (lit "JavaScript +react")).
  intros i Hi. destruct i as [|[|i]]; [reflexivity|reflexivity|].
  simpl in Hi. lia.
Defined.

(* ------------------------------------------------------------------ *)
(** ** C10: what a toggle leaves alone *)
(* ------------------------------------------------------------------ *)

(** C10, against the claim: toggling a tag with white space in it puts its
    words into the like tags, so other tags change their set; toggling the
    empty tag adds [~] to the free text. *)
Lemma toggle_changes_other_tags :
  Spec.sameTag (lit "a b") (lit "a") = false
  /\ Spec.member (likeTags (NaviSearch.parseSearchInput (lit ""))) (lit "a") = false
  /\ Spec.member
       (likeTags (NaviSearch.parseSearchInput
                    (NaviSearch.toggleTagInSearch (lit "") (lit "a b"))))
       (lit "a") = true
  /\ query (NaviSearch.parseSearchInput (lit "x +y")) = lit "x"
  /\ query (NaviSearch.parseSearchInput
              (NaviSearch.toggleTagInSearch (lit "x +y") (lit "")))
     = lit "x ~".
Proof. vm_compute. repeat split. Qed.

(** C10, amended: for every search text and every tag that is a non-empty
    string without white space, toggling the tag with [toggleTagInSearch] of
    NaviSearch.jsx leaves the free text as it was and leaves every tag that
    differs from it in lower case in the same sets (like, must, must-not, or
    none) as before; [toggleTag] of prototype.jsx does the same when the
    search text has at least one word. *)
Theorem toggle_frame (searchInput tag other : str) :
  is_token tag = true ->
  Spec.sameTag tag other = false ->
  (let before := NaviSearch.parseSearchInput searchInput in
   let after :=
     NaviSearch.parseSearchInput (NaviSearch.toggleTagInSearch searchInput tag) in
   query after = query before
   /\ Spec.member (likeTags after) other = Spec.member (likeTags before) other
   /\ Spec.member (mustTags after) other = Spec.member (mustTags before) other
   /\ Spec.member (mustNotTags after) other
      = Spec.member (mustNotTags before) other)
  /\ (words searchInput <> [] ->
      let before := Prototype.parseSearchInput searchInput in
      let after :=
        Prototype.parseSearchInput (Prototype.toggleTag searchInput tag) in
      query after = query before
      /\ Spec.member (likeTags after) other = Spec.member (likeTags before) other
      /\ Spec.member (mustTags after) other = Spec.member (mustTags before) other
      /\ Spec.member (mustNotTags after) other
         = Spec.member (mustNotTags before) other).
Proof.
  intros Ht Hu. split.
  - cbv zeta. rewrite toggle_parse by exact Ht.
    destruct (member_toggled (NaviSearch.parseSearchInput searchInput) tag other)
      as (-> & -> & ->).
    rewrite Hu. simpl. rewrite !andb_false_r, !andb_true_r, !orb_false_r.
    split; [|auto].
    unfold NaviSearch.toggled.
    now destruct (NaviSearch.getTagState (NaviSearch.parseSearchInput searchInput) tag).
  - intros Hw. cbv zeta. apply prototype_toggle_frame; [exact Hw| |exact Hu].
    unfold is_token in Ht. now apply andb_prop in Ht as [_ Ht].
Qed.

Lemma toggle_frame_witness :
  query (NaviSearch.parseSearchInput
           (NaviSearch.toggleTagInSearch (lit "react ~JS +web") (lit "js")))
  = lit "react"
  /\ Spec.member
       (mustTags (NaviSearch.parseSearchInput
                    (NaviSearch.toggleTagInSearch (lit "react ~JS +web") (lit "js"))))
       (lit "WEB") = true.
Proof.
  destruct (proj1 (toggle_frame (lit "react ~JS +web") (lit "js") (lit "WEB")
                     eq_refl eq_refl)) as (Hq & _ & Hm & _).
  split; [exact Hq|exact Hm].
Defined.

(* ================================================================== *)
(** * Further properties of the code *)
(* ================================================================== *)

(** Properties of the functions of the two components beyond the claims of
    the specification: the parsers on white space, the text that the handlers
    write, the tag handlers of both components, the dictionary editor, the
    file id of a stored document, and the search and the recommendations of
    the prototype. *)

Example tagsArray_ex :
  NaviSearch.tagsArray
    (lit "  network security " ++ [newline; newline] ++ lit "audit"
     ++ ["013"%char; newline] ++ lit "   ")
  = [lit "network security"; lit "audit"].
Proof. reflexivity. Qed.

Example matchFileId_ex1 :
  NaviSearch.matchFileId (lit "0123456789abcdefABCDEF0123456789_my_report.txt")
  = Some (lit "0123456789abcdefABCDEF0123456789", lit "my_report.txt").
Proof. reflexivity. Qed.

Example matchFileId_ex2 :
  NaviSearch.matchFileId (lit "0123456789abcdefABCDEF012345678_report.txt") = None
  /\ NaviSearch.matchFileId (lit "0123456789abcdefABCDEF012345678g_report.txt") = None
  /\ NaviSearch.matchFileId (lit "0123456789abcdefABCDEF0123456789-report.txt") = None
  /\ NaviSearch.matchFileId
       (lit "0123456789abcdefABCDEF0123456789_a" ++ [newline] ++ lit "b") = None
  /\ NaviSearch.matchFileId (lit "0123456789abcdefABCDEF0123456789_")
     = Some (lit "0123456789abcdefABCDEF0123456789", lit "").
Proof. repeat split; reflexivity. Qed.

Example prototype_addTag_ex :
  Prototype.addTag (lit " React ~web ") (lit "JS") must = lit "React ~web +JS"
  /\ Prototype.addTag (lit "React ~JS") (lit "JS") must = lit "React ~JS"
  /\ Prototype.addTag (lit "") (lit "JS") like = lit "~JS".
Proof. repeat split; reflexivity. Qed.

Example prototype_removeTag_ex :
  Prototype.removeTag (lit "React ~JS +web JS +JS") (lit "JS") like
  = lit "React +web +JS"
  /\ Prototype.removeTag (lit "React +web") (lit "web") must = lit "React".
Proof. repeat split; reflexivity. Qed.

(* ------------------------------------------------------------------ *)
(** ** Strings: the normal spacing of a text *)
(* ------------------------------------------------------------------ *)

Section MoreStringFacts.

Lemma join_tokens_nonempty (w : str) (ws : list str) :
  forallb is_token (w :: ws) = true -> join (lit " ") (w :: ws) <> [].
Proof.
  intros H. simpl in H. apply andb_prop in H as [Hw _].
  destruct w as [|c w]; [discriminate|].
  destruct ws; simpl; discriminate.
Qed.

Lemma join_words_head (c : ascii) (w : str) (ws : list str) :
  join (lit " ") ((c :: w) :: ws) = c :: join (lit " ") (w :: ws).
Proof. destruct ws; reflexivity. Qed.

(** What [trimEnd] leaves of a string whose runs of white space are
    collapsed. *)
Lemma trimEnd_collapse_ws (s : str) :
  trimEnd (collapse_ws s)
  = if starts_with_space s
    then match words s with
         | [] => []
         | _ :: _ => " "%char :: join (lit " ") (words s)
         end
    else join (lit " ") (words s).
Proof.
  induction s as [|c s IH]; [reflexivity|].
  pose proof (words_all_tokens s) as Htok.
  cbn [collapse_ws starts_with_space words].
  destruct (is_space c) eqn:Hc.
  - destruct (starts_with_space s) eqn:Hs.
    + exact IH.
    + rewrite trimEnd_cons, IH.
      destruct (words s) as [|w ws] eqn:Hw; [reflexivity|].
      pose proof (join_tokens_nonempty w ws Htok) as Hne.
      destruct (join (lit " ") (w :: ws)); [contradiction|reflexivity].
  - destruct s as [|d s]; [simpl; now rewrite Hc|].
    rewrite trimEnd_cons, IH.
    cbn [is_empty orb starts_with_space].
    destruct (is_space d) eqn:Hd.
    + destruct (words (d :: s)) as [|w ws] eqn:Hw;
        simpl; rewrite ?Hc; reflexivity.
    + rewrite Hc. destruct (words (d :: s)) as [|w ws] eqn:Hw.
      * exfalso. apply (words_head_nonspace (d :: s)); [|exact Hw].
        simpl. exact Hd.
      * pose proof (join_tokens_nonempty w ws Htok) as Hne.
        rewrite join_words_head.
        destruct (join (lit " ") (w :: ws)); [contradiction|reflexivity].
Qed.

Lemma trimStart_collapse_ws (s : str) :
  trimStart (collapse_ws s) = collapse_ws (trimStart s).
Proof.
  induction s as [|c s IH]; [reflexivity|].
  cbn [collapse_ws trimStart].
  destruct (is_space c) eqn:Hc.
  - destruct (starts_with_space s) eqn:Hs; [exact IH|].
    cbn [trimStart]. change (is_space " "%char) with true. cbn iota. exact IH.
  - cbn [trimStart collapse_ws]. now rewrite Hc.
Qed.

(** [s.replace(/\s+/g, ' ').trim()] is the words of [s] joined by single
    spaces. *)
Lemma trim_collapse_ws (s : str) :
  trim (collapse_ws s) = join (lit " ") (words s).
Proof.
  unfold trim. rewrite trimStart_collapse_ws, trimEnd_collapse_ws.
  rewrite trimStart_head, words_trimStart. reflexivity.
Qed.

Lemma words_join_words (s : str) :
  words (join (lit " ") (words s)) = words s.
Proof. apply words_join_tokens. apply words_all_tokens. Qed.

End MoreStringFacts.

(* ------------------------------------------------------------------ *)
(** ** NaviSearch.jsx: the parser and the tag handlers *)
(* ------------------------------------------------------------------ *)

Section MoreParserFacts.
Import NaviSearch.

Lemma tag_counts (ts : list str) :
  (length (Spec.likesAfterFreeText ts) + length (Spec.tagsWithPrefix "+" ts)
   + length (Spec.tagsWithPrefix "-" ts) = length ts)%nat.
Proof.
  unfold Spec.likesAfterFreeText, Spec.tagsWithPrefix.
  rewrite !length_map.
  induction ts as [|t ts IH]; [reflexivity|].
  cbn [filter].
  destruct (is_tag_token t) eqn:E.
  - unfold is_tag_token in E. apply andb_prop in E as [E _].
    destruct t as [|c r]; [discriminate|]. cbn [starts_with_prefix] in E.
    apply is_prefix_char_cases in E as [-> | [-> | ->]]; simpl; lia.
  - simpl. lia.
Qed.

Lemma parse_token_count (input : str) :
  (length (words (query (parseSearchInput input)))
   + length (likeTags (parseSearchInput input))
   + length (mustTags (parseSearchInput input))
   + length (mustNotTags (parseSearchInput input))
   = length (words input))%nat.
Proof.
  rewrite parseSearchInput_spec. unfold Spec.parse.
  pose proof (splitAtFirstTag_app (words input)) as Happ.
  pose proof (words_all_tokens input) as Htok.
  destruct (Spec.splitAtFirstTag (words input)) as [before from].
  cbn [fst snd] in Happ. cbn [query likeTags mustTags mustNotTags].
  rewrite Happ in Htok. apply forallb_app_inv in Htok as [Hb _].
  rewrite (words_join_tokens before Hb).
  rewrite Happ, length_app.
  pose proof (tag_counts from). lia.
Qed.

(** A tag token is its prefix character in front of its tag. *)
Lemma tag_token_parts (t : str) :
  is_tag_token t = true ->
  exists c, is_prefix_char c = true /\ t = c :: substring1 t.
Proof.
  unfold is_tag_token. destruct t as [|c r]; [discriminate|]. simpl.
  intros H. apply andb_prop in H as [H _]. now exists c.
Qed.

(** The tokens from the first tag token on are the tokens of the tags. *)
Lemma tag_tokens_perm (ts : list str) :
  Permutation ts
    (filter (fun t => negb (is_tag_token t) || startsWith t "~") ts
     ++ Spec.prefixed "+" (Spec.tagsWithPrefix "+" ts)
     ++ Spec.prefixed "-" (Spec.tagsWithPrefix "-" ts)).
Proof.
  unfold Spec.prefixed, Spec.tagsWithPrefix.
  induction ts as [|t ts IH]; [constructor|].
  cbn [filter].
  destruct (is_tag_token t) eqn:E.
  - destruct (tag_token_parts t E) as (c & Hc & Ht).
    destruct t as [|c' r]; [discriminate|]. injection Ht as ->.
    cbn [substring1 tl] in *.
    apply is_prefix_char_cases in Hc as [-> | [-> | ->]];
      cbn [startsWith negb orb andb Ascii.eqb Bool.eqb map app substring1 tl].
    + now apply Permutation_cons_app.
    + rewrite app_assoc. apply Permutation_cons_app.
      now rewrite <- app_assoc.
    + now constructor.
  - cbn [negb orb andb app]. now constructor.
Qed.

(** A like tag is its token, or its token without the [~] in front. *)
Lemma like_tokens (ts : list str) :
  Forall2 (fun token tag => token = tag \/ token = "~"%char :: tag)
          (filter (fun t => negb (is_tag_token t) || startsWith t "~") ts)
          (Spec.likesAfterFreeText ts).
Proof.
  unfold Spec.likesAfterFreeText.
  induction ts as [|t ts IH]; [constructor|].
  cbn [filter].
  destruct (negb (is_tag_token t) || startsWith t "~") eqn:E; [|exact IH].
  cbn [map]. constructor; [|exact IH].
  destruct (is_tag_token t) eqn:Et; [|now left].
  right. simpl in E. destruct t as [|c r]; [discriminate|].
  simpl in E. apply Ascii.eqb_eq in E. now subst c.
Qed.

End MoreParserFacts.

Section MoreTagMachineFacts.
Import NaviSearch.

Lemma without_without (x : str) (l : list str) :
  without x (without x l) = without x l.
Proof.
  unfold without. induction l as [|a l IH]; [reflexivity|].
  simpl. destruct (negb (same_tag x a)) eqn:E; [|exact IH].
  simpl. now rewrite E, IH.
Qed.

Lemma without_snoc_same (t : str) (l : list str) :
  without (toLowerCase t) (l ++ [t]) = without (toLowerCase t) l.
Proof. now rewrite without_app, without_single, app_nil_r. Qed.

Lemma added_added (p : ParsedQuery) (t : str) (previous type : TagState) :
  added (added p t previous) t type = added p t type.
Proof.
  unfold added.
  destruct previous, type; cbn [query likeTags mustTags mustNotTags];
    rewrite ?without_snoc_same, ?without_without; reflexivity.
Qed.

Lemma removed_added (p : ParsedQuery) (t : str) (type : TagState) :
  Spec.absent p t = true -> removed (added p t type) t type = p.
Proof.
  unfold Spec.absent. intros H.
  apply andb_prop in H as [H Hn]. apply andb_prop in H as [Hl Hm].
  apply negb_true_iff in Hl, Hm, Hn.
  unfold removed, added. destruct p as [q l m n].
  cbn [query likeTags mustTags mustNotTags] in *.
  destruct type; cbn [query likeTags mustTags mustNotTags];
    rewrite ?without_snoc_same, ?(without_absent l t Hl),
      ?(without_absent m t Hm), ?(without_absent n t Hn); reflexivity.
Qed.

End MoreTagMachineFacts.

(** X1: [parseSearchInput] of NaviSearch.jsx loses no token and invents none.
    The white-space separated tokens of the input are the words of the free
    text followed by the tokens of the tags; and the tokens of the tags are,
    up to their order, the like tags, each as it stands or with [~] in front,
    the must tags with [+] in front and the must-not tags with [-] in front.
    So the words of the free text and the tags of the three sets are together
    as many as the tokens of the input.  The free text is its words joined by
    single spaces, and every tag is a token (not empty, no white space). *)
Theorem parseSearchInput_keeps_every_token (input : str) :
  let parsed := NaviSearch.parseSearchInput input in
  (exists rest likes : list str,
      words input = words (query parsed) ++ rest
      /\ Permutation rest
           (likes ++ Spec.prefixed "+" (mustTags parsed)
                  ++ Spec.prefixed "-" (mustNotTags parsed))
      /\ Forall2 (fun token tag => token = tag \/ token = "~"%char :: tag)
                 likes (likeTags parsed))
  /\ (length (words (query parsed)) + length (likeTags parsed)
      + length (mustTags parsed) + length (mustNotTags parsed)
      = length (words input))%nat
  /\ join (lit " ") (words (query parsed)) = query parsed
  /\ forallb is_token (likeTags parsed ++ mustTags parsed ++ mustNotTags parsed)
     = true.
Proof.
  cbv zeta. split.
  - rewrite parseSearchInput_spec. unfold Spec.parse.
    pose proof (splitAtFirstTag_app (words input)) as Happ.
    pose proof (words_all_tokens input) as Htok.
    destruct (Spec.splitAtFirstTag (words input)) as [before from].
    cbn [fst snd] in Happ. cbn [query likeTags mustTags mustNotTags].
    rewrite Happ in Htok. apply forallb_app_inv in Htok as [Hb _].
    exists from,
      (filter (fun t => negb (is_tag_token t) || startsWith t "~") from).
    split; [now rewrite (words_join_tokens before Hb)|].
    split; [apply tag_tokens_perm|apply like_tokens].
  - split; [apply parse_token_count|].
    destruct (textual_parts _ (parseSearchInput_textual input))
      as (Hq & _ & Hl & Hm & Hn).
    split; [exact Hq|].
    rewrite !forallb_app, Hl, Hm, Hn. reflexivity.
Qed.

(** X2: both parsers read the tokens only: two search texts with the same
    white-space separated tokens, whatever white space is around and between
    them, parse to the same structured query, in NaviSearch.jsx and in
    prototype.jsx. *)
Theorem parsers_read_the_tokens_only (input1 input2 : str) :
  words input1 = words input2 ->
  NaviSearch.parseSearchInput input1 = NaviSearch.parseSearchInput input2
  /\ Prototype.parseSearchInput input1 = Prototype.parseSearchInput input2.
Proof.
  intros H. split.
  - rewrite !parseSearchInput_words. now rewrite H.
  - rewrite !prototype_parseSearchInput_spec. unfold Spec.parsePrototype.
    now rewrite H.
Qed.

Lemma parsers_read_the_tokens_only_witness :
  NaviSearch.parseSearchInput (lit "  fire   wall +secure ")
  = NaviSearch.parseSearchInput (lit "fire wall +secure")
  /\ Prototype.parseSearchInput (lit "  fire   wall +secure ")
     = Prototype.parseSearchInput (lit "fire wall +secure").
Proof.
  apply (parsers_read_the_tokens_only (lit "  fire   wall +secure ")
                                      (lit "fire wall +secure")).
  vm_compute. reflexivity.
Defined.

(** X3: the text that [updateSearchInputWithTags] writes for the parse of
    any search text parses to the same structured query again, and its tokens
    are the words of the free text, then the like tags with [~], the must
    tags with [+] and the must-not tags with [-], each set in its order. *)
Theorem canonical_text_parses_to_the_same_query (input : str) :
  let parsed := NaviSearch.parseSearchInput input in
  let canonical :=
    NaviSearch.updateSearchInputWithTags
      (query parsed) (likeTags parsed) (mustTags parsed) (mustNotTags parsed) in
  NaviSearch.parseSearchInput canonical = parsed
  /\ words canonical
     = words (query parsed)
       ++ map (fun t => "~"%char :: t) (likeTags parsed)
       ++ map (fun t => "+"%char :: t) (mustTags parsed)
       ++ map (fun t => "-"%char :: t) (mustNotTags parsed).
Proof.
  cbv zeta.
  pose proof (parseSearchInput_textual input) as Ht.
  split.
  - exact (parse_serialize_textual _ Ht).
  - destruct (textual_parts _ Ht) as (_ & _ & Hl & Hm & Hn).
    apply words_updateSearchInputWithTags; now apply forallb_token_no_space.
Qed.

(** X4: whatever query and tags it is given, [updateSearchInputWithTags]
    writes a text in normal spacing: its tokens joined by single spaces, with
    no white space at the two ends and no other white space character. *)
Theorem updateSearchInputWithTags_spacing (q : str) (l m n : list str) :
  let text := NaviSearch.updateSearchInputWithTags q l m n in
  join (lit " ") (words text) = text.
Proof.
  cbv zeta. unfold NaviSearch.updateSearchInputWithTags.
  rewrite trim_collapse_ws. now rewrite words_join_words.
Qed.


(** X6: one click of [toggleTagInSearch] on a tag that is a token moves the
    state of the tag one step along the cycle none, like, must, must-not,
    none, from whatever state [getTagState] gives it, also when the text
    lists the tag in several sets. *)
Theorem toggleTagInSearch_advances_state (searchInput tag : str) :
  is_token tag = true ->
  NaviSearch.getTagState
    (NaviSearch.parseSearchInput (NaviSearch.toggleTagInSearch searchInput tag))
    tag
  = Notions.nextState
      (NaviSearch.getTagState (NaviSearch.parseSearchInput searchInput) tag).
Proof.
  intros Ht.
  pose proof (parse_applyOp searchInput (NaviSearch.OpToggle tag) Ht) as Hp.
  cbn [NaviSearch.applyOp NaviSearch.applied] in Hp. rewrite Hp.
  set (p := NaviSearch.parseSearchInput searchInput).
  rewrite (getTagState_member (NaviSearch.toggled p tag) tag).
  destruct (member_toggled p tag tag) as (-> & -> & ->).
  rewrite sameTag_refl. cbn [negb]. rewrite !andb_false_r, !andb_true_r.
  cbn [orb].
  destruct (NaviSearch.getTagState p tag); reflexivity.
Qed.

Lemma toggleTagInSearch_advances_state_witness :
  NaviSearch.getTagState
    (NaviSearch.parseSearchInput
       (NaviSearch.toggleTagInSearch (lit "react ~JS +web") (lit "js")))
    (lit "js")
  = must.
Proof.
  exact (toggleTagInSearch_advances_state (lit "react ~JS +web") (lit "js")
                                          eq_refl).
Defined.

(** X7: [addTagFromRecommendation] with a tag that is a token puts the tag
    in the state it is given, whatever its state was; a second call for the
    same tag overrides the first: the text is the one the second call alone
    would have written. *)
Theorem addTagFromRecommendation_sets_state (searchInput tag : str)
    (previous type : TagState) :
  is_token tag = true ->
  NaviSearch.getTagState
    (NaviSearch.parseSearchInput
       (NaviSearch.addTagFromRecommendation searchInput tag type))
    tag = type
  /\ NaviSearch.addTagFromRecommendation
       (NaviSearch.addTagFromRecommendation searchInput tag previous) tag type
     = NaviSearch.addTagFromRecommendation searchInput tag type.
Proof.
  intros Ht. split.
  - pose proof (parse_applyOp searchInput (NaviSearch.OpAdd tag type) Ht) as Hp.
    cbn [NaviSearch.applyOp NaviSearch.applied] in Hp. rewrite Hp.
    set (p := NaviSearch.parseSearchInput searchInput).
    rewrite (getTagState_member (NaviSearch.added p tag type) tag).
    destruct (member_added p tag tag type) as (-> & -> & ->).
    rewrite sameTag_refl. cbn [negb]. rewrite !andb_false_r, !andb_true_r.
    cbn [orb]. destruct type; reflexivity.
  - pose proof (applyOp_serialize
                  (NaviSearch.addTagFromRecommendation searchInput tag previous)
                  (NaviSearch.OpAdd tag type)) as H2.
    pose proof (applyOp_serialize searchInput (NaviSearch.OpAdd tag type)) as H1.
    pose proof (parse_applyOp searchInput (NaviSearch.OpAdd tag previous) Ht)
      as Hp.
    cbn [NaviSearch.applyOp NaviSearch.applied] in H1, H2, Hp.
    rewrite H2, H1, Hp. now rewrite added_added.
Qed.

Lemma addTagFromRecommendation_sets_state_witness :
  NaviSearch.getTagState
    (NaviSearch.parseSearchInput
       (NaviSearch.addTagFromRecommendation (lit "react ~JS +web") (lit "Web")
                                            mustNot))
    (lit "Web") = mustNot.
Proof.
  exact (proj1 (addTagFromRecommendation_sets_state
                  (lit "react ~JS +web") (lit "Web") none mustNot eq_refl)).
Defined.

(** X8: [removeTagFromPill] removes from the set it names every tag equal
    to the given one up to case and changes nothing else of the structured
    query: the free text and the other two sets are the same, in the same
    order, and the given tag is no longer in that set.  This holds for every
    search text and every tag. *)
Theorem removeTagFromPill_effect (searchInput tagToRemove : str)
    (type : TagState) :
  let before := NaviSearch.parseSearchInput searchInput in
  let after :=
    NaviSearch.parseSearchInput
      (NaviSearch.removeTagFromPill searchInput tagToRemove type) in
  query after = query before
  /\ likeTags after
     = (if TagState_eqb type like
        then NaviSearch.without (toLowerCase tagToRemove) (likeTags before)
        else likeTags before)
  /\ mustTags after
     = (if TagState_eqb type must
        then NaviSearch.without (toLowerCase tagToRemove) (mustTags before)
        else mustTags before)
  /\ mustNotTags after
     = (if TagState_eqb type mustNot
        then NaviSearch.without (toLowerCase tagToRemove) (mustNotTags before)
        else mustNotTags before)
  /\ Spec.member (Notions.tagsIn type after) tagToRemove = false.
Proof.
  cbv zeta.
  pose proof (parse_applyOp searchInput
                (NaviSearch.OpRemove tagToRemove type) eq_refl) as Hp.
  cbn [NaviSearch.applyOp NaviSearch.applied] in Hp. rewrite Hp.
  set (p := NaviSearch.parseSearchInput searchInput).
  assert (Hgone : forall l,
             Spec.member (NaviSearch.without (toLowerCase tagToRemove) l)
                         tagToRemove = false).
  { intros l. rewrite member_without, sameTag_refl. apply andb_false_r. }
  unfold NaviSearch.removed.
  destruct type; cbn [query likeTags mustTags mustNotTags TagState_eqb
                      Notions.tagsIn];
    repeat split; try apply Hgone; reflexivity.
Qed.

(** X9: adding a tag that is a token and is in none of the three sets with
    [addTagFromRecommendation], then removing it from the same set with
    [removeTagFromPill], gives back the structured query of the text before
    the two clicks. *)
Theorem add_then_remove_restores_the_query (searchInput tag : str)
    (type : TagState) :
  is_token tag = true ->
  Spec.absent (NaviSearch.parseSearchInput searchInput) tag = true ->
  NaviSearch.parseSearchInput
    (NaviSearch.removeTagFromPill
       (NaviSearch.addTagFromRecommendation searchInput tag type) tag type)
  = NaviSearch.parseSearchInput searchInput.
Proof.
  intros Ht Habs.
  pose proof (parse_applyOp
                (NaviSearch.addTagFromRecommendation searchInput tag type)
                (NaviSearch.OpRemove tag type) eq_refl) as Hr.
  pose proof (parse_applyOp searchInput (NaviSearch.OpAdd tag type) Ht) as Ha.
  cbn [NaviSearch.applyOp NaviSearch.applied] in Hr, Ha.
  rewrite Hr, Ha. now apply removed_added.
Qed.

Lemma add_then_remove_restores_the_query_witness :
  NaviSearch.parseSearchInput
    (NaviSearch.removeTagFromPill
       (NaviSearch.addTagFromRecommendation (lit "react ~JS +web") (lit "css")
                                            must)
       (lit "css") must)
  = NaviSearch.parseSearchInput (lit "react ~JS +web").
Proof.
  apply (add_then_remove_restores_the_query (lit "react ~JS +web") (lit "css")
                                            must); reflexivity.
Defined.

(* ------------------------------------------------------------------ *)
(** ** NaviSearch.jsx: the tag dictionary and the original document *)
(* ------------------------------------------------------------------ *)

Section DictionaryFacts.
Import NaviSearch.

Lemma split_char_pieces (sep : ascii) (s : str) :
  forallb (forallb (fun c => negb (Ascii.eqb c sep))) (split_char sep s) = true.
Proof.
  induction s as [|c s IH]; [reflexivity|].
  simpl. destruct (Ascii.eqb c sep) eqn:E; [exact IH|].
  destruct (split_char sep s) as [|w ws]; simpl; [now rewrite E|].
  simpl in IH. now rewrite E.
Qed.

Lemma split_char_piece (sep : ascii) (x : str) :
  forallb (fun c => negb (Ascii.eqb c sep)) x = true -> split_char sep x = [x].
Proof.
  induction x as [|c x IH]; [reflexivity|].
  simpl. intros H. apply andb_prop in H as [Hc Hx].
  apply negb_true_iff in Hc. rewrite Hc, (IH Hx). reflexivity.
Qed.

Lemma split_char_app (sep : ascii) (x rest : str) :
  forallb (fun c => negb (Ascii.eqb c sep)) x = true ->
  split_char sep (x ++ sep :: rest) = x :: split_char sep rest.
Proof.
  induction x as [|c x IH]; simpl.
  - intros _. now rewrite Ascii.eqb_refl.
  - intros H. apply andb_prop in H as [Hc Hx].
    apply negb_true_iff in Hc. now rewrite Hc, (IH Hx).
Qed.

Lemma split_char_join (sep : ascii) (l : list str) :
  l <> [] ->
  forallb (forallb (fun c => negb (Ascii.eqb c sep))) l = true ->
  split_char sep (join [sep] l) = l.
Proof.
  induction l as [|x l IH]; [congruence|].
  intros _ H. simpl in H. apply andb_prop in H as [Hx Hl].
  destruct l as [|y l]; [now apply split_char_piece|].
  change (join [sep] (x :: y :: l)) with (x ++ sep :: join [sep] (y :: l)).
  rewrite split_char_app by exact Hx.
  now rewrite IH.
Qed.

Lemma forallb_trimStart (P : ascii -> bool) (s : str) :
  forallb P s = true -> forallb P (trimStart s) = true.
Proof.
  induction s as [|c s IH]; [reflexivity|].
  intros H. simpl. destruct (is_space c); [|exact H].
  simpl in H. apply andb_prop in H as [_ H]. now apply IH.
Qed.

Lemma forallb_trimEnd (P : ascii -> bool) (s : str) :
  forallb P s = true -> forallb P (trimEnd s) = true.
Proof.
  induction s as [|c s IH]; [reflexivity|].
  intros H. simpl in H. apply andb_prop in H as [Hc Hs].
  rewrite trimEnd_cons. specialize (IH Hs).
  destruct (trimEnd s) as [|r rs].
  - destruct (is_space c); simpl; [reflexivity|now rewrite Hc].
  - change (forallb P (c :: r :: rs)) with (P c && forallb P (r :: rs)).
    now rewrite Hc, IH.
Qed.

Lemma forallb_trim (P : ascii -> bool) (s : str) :
  forallb P s = true -> forallb P (trim s) = true.
Proof. intros H. unfold trim. now apply forallb_trimEnd, forallb_trimStart. Qed.

Lemma trimStart_fixed (s : str) : starts_with_space s = false -> trimStart s = s.
Proof. destruct s as [|c s]; [reflexivity|]. simpl. now intros ->. Qed.

Lemma trim_idem (s : str) : trim (trim s) = trim s.
Proof.
  unfold trim.
  assert (H : starts_with_space (trimEnd (trimStart s)) = false).
  { destruct (trimEnd (trimStart s)) as [|c r] eqn:E; [reflexivity|].
    rewrite <- E.
    destruct (trimEnd_head (trimStart s)) as [_ ->]; [rewrite E; discriminate|].
    apply trimStart_head. }
  rewrite (trimStart_fixed _ H). apply trimEnd_idem.
Qed.

Lemma dictionaryTag_parts (t : str) :
  Notions.dictionaryTag t = true ->
  is_empty t = false /\ trim t = t
  /\ forallb (fun c => negb (Ascii.eqb c newline)) t = true.
Proof.
  unfold Notions.dictionaryTag. intros H.
  apply andb_prop in H as [H Hn]. apply andb_prop in H as [He Ht].
  apply negb_true_iff in He. apply str_eqb_eq in Ht. auto.
Qed.

(** The text that [fetchTagDictionary] puts in the editor is read back as the
    tags it was made of. *)
Lemma tagsArray_join (tags : list str) :
  forallb Notions.dictionaryTag tags = true ->
  tagsArray (join [newline] tags) = tags.
Proof.
  intros H. unfold tagsArray.
  destruct tags as [|t tags]; [reflexivity|].
  rewrite split_char_join; [|discriminate|].
  - induction (t :: tags) as [|a l IH]; [reflexivity|].
    simpl in H. apply andb_prop in H as [Ha Hl].
    destruct (dictionaryTag_parts a Ha) as (He & Ht & _).
    simpl. rewrite Ht, He. simpl. now rewrite (IH Hl).
  - induction (t :: tags) as [|a l IH]; [reflexivity|].
    simpl in H. apply andb_prop in H as [Ha Hl].
    destruct (dictionaryTag_parts a Ha) as (_ & _ & Hn).
    simpl. now rewrite Hn, (IH Hl).
Qed.

Lemma tagsArray_dictionaryTags (editableTags : str) :
  forallb Notions.dictionaryTag (tagsArray editableTags) = true.
Proof.
  unfold tagsArray.
  pose proof (split_char_pieces newline editableTags) as H.
  induction (split_char newline editableTags) as [|a l IH]; [reflexivity|].
  simpl in H. apply andb_prop in H as [Ha Hl].
  simpl. destruct (is_empty (trim a)) eqn:E; simpl; [now apply IH|].
  rewrite (IH Hl), andb_true_r.
  unfold Notions.dictionaryTag.
  rewrite E, trim_idem, str_eqb_refl. simpl.
  now apply forallb_trim.
Qed.

End DictionaryFacts.

Section FileIdFacts.
Import NaviSearch.


Lemma matchFileId_complete (fileId name : str) :
  length fileId = 32 ->
  forallb is_hex_digit fileId = true ->
  forallb (fun c => negb (is_line_terminator c)) name = true ->
  matchFileId (fileId ++ "_"%char :: name) = Some (fileId, name).
Proof.
  intros Hlen Hhex Hname. unfold matchFileId. rewrite <- Hlen.
  rewrite firstn_app, Nat.sub_diag, firstn_all, firstn_O, app_nil_r.
  rewrite skipn_app, Nat.sub_diag, skipn_all. cbn [skipn app].
  rewrite Nat.eqb_refl, Hhex, Hname. reflexivity.
Qed.

End FileIdFacts.

(** X10: every tag that [handleUpdateTagDictionary] reads from the editor
    is not empty, has no white space at its two ends and no line feed (it may
    have white space inside); and reading is idempotent: the tags read from
    the lines of the tags read are the same tags. *)
Theorem tagsArray_entries (editableTags : str) :
  forallb Notions.dictionaryTag (NaviSearch.tagsArray editableTags) = true
  /\ NaviSearch.tagsArray
       (join [newline] (NaviSearch.tagsArray editableTags))
     = NaviSearch.tagsArray editableTags.
Proof.
  pose proof (tagsArray_dictionaryTags editableTags) as H.
  split; [exact H|]. now apply tagsArray_join.
Qed.

(** X11: with an auth token set, after [fetchTagDictionary] has received
    tags that are not empty, have no white space at their ends and no line
    feed, the dictionary holds these tags, the editor's text is read back as
    exactly these tags, and [handleUpdateTagDictionary] on the unchanged text
    sends exactly these tags. *)
Theorem dictionary_editor_round_trip (authToken : str) (tags : list str)
    (st : NaviSearch.TagDictionaryState) :
  is_empty authToken = false ->
  forallb Notions.dictionaryTag tags = true ->
  let fetched := NaviSearch.fetchTagDictionary authToken (Some tags) st in
  NaviSearch.tagDictionary fetched = tags
  /\ NaviSearch.tagsArray (NaviSearch.editableTags fetched) = tags
  /\ (forall putTags data_tags,
        NaviSearch.handleUpdateTagDictionary authToken putTags data_tags fetched
        = if putTags tags
          then NaviSearch.fetchTagDictionary authToken data_tags fetched
          else fetched).
Proof.
  intros Htoken Htags. cbv zeta.
  assert (Hf : NaviSearch.fetchTagDictionary authToken (Some tags) st
               = NaviSearch.mkTagDictionaryState tags (join [newline] tags))
    by (unfold NaviSearch.fetchTagDictionary; now rewrite Htoken).
  rewrite Hf. cbn [NaviSearch.tagDictionary NaviSearch.editableTags].
  pose proof (tagsArray_join tags Htags) as Hrt.
  split; [reflexivity|]. split; [exact Hrt|].
  intros putTags data_tags. unfold NaviSearch.handleUpdateTagDictionary.
  cbn [NaviSearch.editableTags]. rewrite Hrt. reflexivity.
Qed.

Lemma dictionary_editor_round_trip_witness :
  NaviSearch.tagsArray
    (NaviSearch.editableTags
       (NaviSearch.fetchTagDictionary (lit "token")
          (Some [lit "network security"; lit "audit"])
          (NaviSearch.mkTagDictionaryState [] [])))
  = [lit "network security"; lit "audit"].
Proof.
  exact (proj1 (proj2 (dictionary_editor_round_trip
                         (lit "token") [lit "network security"; lit "audit"]
                         (NaviSearch.mkTagDictionaryState [] [])
                         eq_refl eq_refl))).
Defined.


(* ------------------------------------------------------------------ *)
(** ** prototype.jsx: the tag handlers *)
(* ------------------------------------------------------------------ *)

Section MorePrototypeTextFacts.
Import Prototype.

Lemma tagStateIn_filtered (ts : list str) (t : str) :
  tagStateIn (filter (fun e => negb (str_eqb (cleanTag e) t)) ts) t = none.
Proof.
  induction ts as [|e ts IH]; [reflexivity|].
  simpl. destruct (str_eqb (cleanTag e) t) eqn:E; simpl; [exact IH|].
  now rewrite E.
Qed.

(** The state that the tokens give a tag, and a token that gives it. *)
Lemma tagStateIn_token (ts : list str) (t : str) :
  match tagStateIn ts t with
  | none => forall e, In e ts -> cleanTag e <> t
  | like =>
      exists e, In e ts /\ cleanTag e = t
                /\ startsWith e "+" = false /\ startsWith e "-" = false
  | must => exists e, In e ts /\ cleanTag e = t /\ startsWith e "+" = true
  | mustNot => exists e, In e ts /\ cleanTag e = t /\ startsWith e "-" = true
  end.
Proof.
  induction ts as [|e ts IH]; [intros e []|].
  simpl. destruct (str_eqb (cleanTag e) t) eqn:E.
  - apply str_eqb_eq in E.
    destruct (startsWith e "+") eqn:Ep; [exists e; auto|].
    destruct (startsWith e "-") eqn:Em; [exists e; auto|].
    exists e; auto.
  - apply str_eqb_neq in E.
    destruct (tagStateIn ts t).
    + intros e' [<-|H]; [exact E|now apply IH].
    + destruct IH as (e' & H & H'). exists e'. auto.
    + destruct IH as (e' & H & H'). exists e'. auto.
    + destruct IH as (e' & H & H'). exists e'. auto.
Qed.

Lemma words_addTagWithType (s t : str) (type : TagState) :
  words s <> [] -> no_space t = true ->
  words (addTagWithType s t type) = words s ++ [prefixFor type ++ t].
Proof.
  intros Hw Ht. unfold addTagWithType.
  rewrite (words_nonblank_trim s Hw).
  rewrite words_app by reflexivity. rewrite words_trim.
  change (lit " " ++ prefixFor type ++ t)
    with (" "%char :: prefixFor type ++ t).
  rewrite words_space by reflexivity.
  rewrite (words_token (prefixFor type ++ t)); [reflexivity|].
  destruct type; cbn [prefixFor lit list_ascii_of_string app];
    rewrite is_token_cons; exact Ht.
Qed.

Lemma getTagState_addTagWithType (s t : str) (type : TagState) :
  words s <> [] -> no_space t = true -> getTagState s t = none ->
  getTagState (addTagWithType s t type) t
  = match type with none => like | _ => type end.
Proof.
  intros Hw Ht Hn.
  rewrite getTagState_words in Hn.
  rewrite getTagState_words, (words_addTagWithType s t type Hw Ht).
  destruct (words s) as [|q ts]; [now elim Hw|]. cbn [tl app] in *.
  destruct type; cbn [prefixFor lit list_ascii_of_string app].
  - now destruct (tagStateIn_snoc ts "~" t Hn eq_refl) as [-> _].
  - now destruct (tagStateIn_snoc ts "~" t Hn eq_refl) as [-> _].
  - now destruct (tagStateIn_snoc ts "+" t Hn eq_refl) as [-> _].
  - now destruct (tagStateIn_snoc ts "-" t Hn eq_refl) as [-> _].
Qed.

Lemma words_removeTag (s t : str) (type : TagState) :
  words (removeTag s t type)
  = match words s with
    | [] => []
    | q :: ts =>
        q :: filter (fun tag => negb (str_eqb tag (prefixFor type ++ t))
                                && negb (str_eqb tag t)) ts
    end.
Proof.
  unfold removeTag. rewrite split_ws_trim, words_trim.
  destruct (words s) as [|q ts] eqn:Hw.
  - rewrite (words_nil_trim s Hw). reflexivity.
  - assert (Hne : is_empty (trim s) = false)
      by (apply words_nonblank_trim; rewrite Hw; discriminate).
    rewrite Hne. cbn [hd tl].
    pose proof (words_all_tokens s) as Htok. rewrite Hw in Htok.
    simpl in Htok. apply andb_prop in Htok as [Hq Hts].
    set (filtered := filter _ ts).
    assert (Hf : forallb is_token filtered = true) by now apply filter_tokens.
    destruct filtered as [|f fs] eqn:Ef; cbn [length Nat.ltb Nat.leb].
    + rewrite app_nil_r. now apply words_token.
    + rewrite words_app by reflexivity.
      change (lit " " ++ join (lit " ") (f :: fs))
        with (" "%char :: join (lit " ") (f :: fs)).
      rewrite words_space by reflexivity.
      now rewrite (words_token q Hq), (words_join_tokens _ Hf).
Qed.

Lemma cleanTag_prefixFor (t : str) (type : TagState) :
  cleanTag (prefixFor type ++ t) = t.
Proof. destruct type; reflexivity. Qed.

(** The three tag lists of the prototype's parser, from the tokens after the
    first, all by [cleanTag]. *)
Lemma prototype_parse_words (s : str) :
  parseSearchInput s
  = match words s with
    | [] => mkParsed [] [] [] []
    | first :: rest =>
        mkParsed first
          (map cleanTag
               (filter (fun e => negb (startsWith e "+") && negb (startsWith e "-"))
                       rest))
          (map cleanTag (filter (fun e => startsWith e "+") rest))
          (map cleanTag (filter (fun e => startsWith e "-") rest))
    end.
Proof.
  rewrite prototype_parseSearchInput_spec. unfold Spec.parsePrototype.
  destruct (words s) as [|first rest]; [reflexivity|].
  now rewrite (musts_as_cleanTag "+" rest), (musts_as_cleanTag "-" rest) by auto.
Qed.

Lemma In_clean_filter (p : str -> bool) (ts : list str) (u : str) :
  In u (map cleanTag (filter p ts))
  <-> exists e, In e ts /\ p e = true /\ cleanTag e = u.
Proof.
  rewrite in_map_iff. split.
  - intros (e & He & Hi). apply filter_In in Hi as [Hi Hp]. exists e. auto.
  - intros (e & Hi & Hp & He). exists e. split; [exact He|].
    apply filter_In. auto.
Qed.

End MorePrototypeTextFacts.

(** X14: in prototype.jsx the state that [getTagState] reads from the
    search text agrees with the sets that [parseSearchInput] builds from it:
    a tag in state like, must or must-not is in the like, must or must-not
    tags, and a tag in state none is in none of the three sets. *)
Theorem prototype_state_agrees_with_parse (searchInput tag : str) :
  let parsed := Prototype.parseSearchInput searchInput in
  match Prototype.getTagState searchInput tag with
  | none =>
      ~ In tag (likeTags parsed) /\ ~ In tag (mustTags parsed)
      /\ ~ In tag (mustNotTags parsed)
  | st => In tag (Notions.tagsIn st parsed)
  end.
Proof.
  cbv zeta. rewrite getTagState_words, prototype_parse_words.
  destruct (words searchInput) as [|q ts]; [simpl; tauto|].
  cbn [tl]. pose proof (tagStateIn_token ts tag) as H.
  destruct (Prototype.tagStateIn ts tag);
    cbn [Notions.tagsIn likeTags mustTags mustNotTags].
  - repeat split; intros Hin; apply In_clean_filter in Hin as (e & Hi & _ & He);
      exact (H e Hi He).
  - destruct H as (e & Hi & He & Hp & Hm). apply In_clean_filter.
    exists e. now rewrite Hp, Hm.
  - destruct H as (e & Hi & He & Hp). apply In_clean_filter. exists e. auto.
  - destruct H as (e & Hi & He & Hp). apply In_clean_filter. exists e. auto.
Qed.

(** X15: [addTag] of prototype.jsx, for a search text with at least one
    token and a tag without white space whose state is none, appends the tag
    to the set of the given type (to the like tags for any other type) and
    changes nothing else of the structured query; the state of the tag is
    then that type. *)
Theorem prototype_addTag_effect (searchInput tag : str) (type : TagState) :
  words searchInput <> [] ->
  no_space tag = true ->
  Prototype.getTagState searchInput tag = none ->
  let before := Prototype.parseSearchInput searchInput in
  let after :=
    Prototype.parseSearchInput (Prototype.addTag searchInput tag type) in
  query after = query before
  /\ likeTags after
     = likeTags before ++ match type with must | mustNot => [] | _ => [tag] end
  /\ mustTags after
     = mustTags before ++ match type with must => [tag] | _ => [] end
  /\ mustNotTags after
     = mustNotTags before ++ match type with mustNot => [tag] | _ => [] end
  /\ Prototype.getTagState (Prototype.addTag searchInput tag type) tag
     = match type with none => like | _ => type end.
Proof.
  intros Hw Ht Hn. cbv zeta. unfold Prototype.addTag. rewrite Hn.
  rewrite (getTagState_addTagWithType searchInput tag type Hw Ht Hn).
  rewrite !prototype_parse_words, (words_addTagWithType _ _ type Hw Ht).
  destruct (words searchInput) as [|q ts]; [now elim Hw|].
  cbn [app query likeTags mustTags mustNotTags].
  rewrite !filter_app, !map_app.
  destruct type; cbn; rewrite ?app_nil_r; repeat split; reflexivity.
Qed.

Lemma prototype_addTag_effect_witness :
  mustTags (Prototype.parseSearchInput
              (Prototype.addTag (lit "React ~web") (lit "JS") must))
  = mustTags (Prototype.parseSearchInput (lit "React ~web")) ++ [lit "JS"].
Proof.
  pose proof (prototype_addTag_effect (lit "React ~web") (lit "JS") must) as H.
  cbv zeta in H.
  destruct H as (_ & _ & Hm & _);
    [discriminate|reflexivity|reflexivity|exact Hm].
Defined.

(** X16: [addTag] of prototype.jsx never reclassifies: on a search text
    with at least one token, a second [addTag] for the same tag, of whatever
    type, leaves the text that the first one wrote. *)
Theorem prototype_addTag_keeps_the_first_state (searchInput tag : str)
    (type later : TagState) :
  words searchInput <> [] ->
  no_space tag = true ->
  Prototype.addTag (Prototype.addTag searchInput tag type) tag later
  = Prototype.addTag searchInput tag type.
Proof.
  intros Hw Ht.
  destruct (Prototype.getTagState searchInput tag) eqn:Hst.
  - assert (Hadd : Prototype.addTag searchInput tag type
                   = Prototype.addTagWithType searchInput tag type)
      by (unfold Prototype.addTag; now rewrite Hst).
    rewrite Hadd. unfold Prototype.addTag at 1.
    rewrite (getTagState_addTagWithType searchInput tag type Hw Ht Hst).
    now destruct type.
  - unfold Prototype.addTag. now rewrite Hst, Hst.
  - unfold Prototype.addTag. now rewrite Hst, Hst.
  - unfold Prototype.addTag. now rewrite Hst, Hst.
Qed.

Lemma prototype_addTag_keeps_the_first_state_witness :
  Prototype.addTag (Prototype.addTag (lit "React") (lit "JS") like) (lit "JS") must
  = lit "React ~JS".
Proof.
  rewrite (prototype_addTag_keeps_the_first_state (lit "React") (lit "JS")
             like must); [reflexivity|discriminate|reflexivity].
Defined.

(** X17: on a blank search text [addTag] of prototype.jsx writes the
    prefixed tag alone; the prototype's parser reads it as the free text, so
    the three tag sets stay empty and the state of the tag stays none. *)
Theorem prototype_addTag_on_blank_text (searchInput tag : str)
    (type : TagState) :
  words searchInput = [] ->
  no_space tag = true ->
  Prototype.addTag searchInput tag type = Prototype.prefixFor type ++ tag
  /\ Prototype.parseSearchInput (Prototype.addTag searchInput tag type)
     = mkParsed (Prototype.prefixFor type ++ tag) [] [] []
  /\ Prototype.getTagState (Prototype.addTag searchInput tag type) tag = none.
Proof.
  intros Hw Ht.
  assert (Hadd : Prototype.addTag searchInput tag type
                 = Prototype.prefixFor type ++ tag).
  { unfold Prototype.addTag. rewrite getTagState_words, Hw. cbn [tl Prototype.tagStateIn].
    unfold Prototype.addTagWithType. now rewrite (words_nil_trim _ Hw). }
  assert (Hwords : words (Prototype.prefixFor type ++ tag)
                   = [Prototype.prefixFor type ++ tag]).
  { apply words_token.
    destruct type; cbn [Prototype.prefixFor lit list_ascii_of_string app];
      rewrite is_token_cons; exact Ht. }
  rewrite Hadd. split; [reflexivity|]. split.
  - now rewrite prototype_parse_words, Hwords.
  - now rewrite getTagState_words, Hwords.
Qed.

Lemma prototype_addTag_on_blank_text_witness :
  Prototype.parseSearchInput (Prototype.addTag (lit "  ") (lit "JS") must)
  = mkParsed (lit "+JS") [] [] [].
Proof.
  exact (proj1 (proj2 (prototype_addTag_on_blank_text (lit "  ") (lit "JS") must
                         eq_refl eq_refl))).
Defined.

(** X18: [removeTag] of prototype.jsx keeps the free text, never adds a
    tag to a set, and leaves the removed tag out of the set of the given
    type; a tag that is neither the removed tag nor the removed tag without
    its own leading prefix character stays in every set it was in. *)
Theorem prototype_removeTag_effect (searchInput tagToRemove other : str)
    (type : TagState) :
  let before := Prototype.parseSearchInput searchInput in
  let after :=
    Prototype.parseSearchInput
      (Prototype.removeTag searchInput tagToRemove type) in
  query after = query before
  /\ (type <> none -> ~ In tagToRemove (Notions.tagsIn type after))
  /\ (forall st, incl (Notions.tagsIn st after) (Notions.tagsIn st before))
  /\ (other <> tagToRemove -> other <> Prototype.cleanTag tagToRemove ->
      forall st,
        In other (Notions.tagsIn st before) -> In other (Notions.tagsIn st after)).
Proof.
  cbv zeta. rewrite !prototype_parse_words, words_removeTag.
  destruct (words searchInput) as [|q ts].
  { split; [reflexivity|]. split; [intros _; destruct type; intros []|].
    split; [intros st; destruct st; intros x []|].
    intros _ _ st; destruct st; intros []. }
  set (kept := fun tag : str =>
                 negb (str_eqb tag (Prototype.prefixFor type ++ tagToRemove))
                 && negb (str_eqb tag tagToRemove)).
  assert (Hkept : forall e, In e (filter kept ts) ->
             In e ts /\ e <> Prototype.prefixFor type ++ tagToRemove
             /\ e <> tagToRemove).
  { intros e He. apply filter_In in He as [He Hk]. unfold kept in Hk.
    apply andb_prop in Hk as [H1 H2]. apply negb_true_iff in H1, H2.
    apply str_eqb_neq in H1, H2. auto. }
  assert (Hsub : forall p u,
             In u (map Prototype.cleanTag (filter p (filter kept ts))) ->
             In u (map Prototype.cleanTag (filter p ts))).
  { intros p u Hu. apply In_clean_filter in Hu as (e & He & Hp & Hc).
    apply In_clean_filter. exists e. split; [now apply Hkept|auto]. }
  assert (Hframe : forall p u,
             u <> tagToRemove -> u <> Prototype.cleanTag tagToRemove ->
             In u (map Prototype.cleanTag (filter p ts)) ->
             In u (map Prototype.cleanTag (filter p (filter kept ts)))).
  { intros p u H1 H2 Hu. apply In_clean_filter in Hu as (e & He & Hp & Hc).
    apply In_clean_filter. exists e. split; [|auto].
    apply filter_In. split; [exact He|]. unfold kept.
    apply andb_true_intro. split; apply negb_true_iff, str_eqb_neq; intros ->.
    - rewrite cleanTag_prefixFor in Hc. congruence.
    - congruence. }
  cbn [query Notions.tagsIn likeTags mustTags mustNotTags].
  split; [reflexivity|]. split; [|split].
  - intros Hty Hin.
    destruct type; [now elim Hty| | |];
      cbn [Notions.tagsIn likeTags mustTags mustNotTags] in Hin;
      apply In_clean_filter in Hin as (e & He & Hp & Hc);
      apply Hkept in He as (_ & He1 & He2);
      cbn [Prototype.prefixFor lit list_ascii_of_string app] in He1;
      unfold Prototype.cleanTag in Hc;
      (destruct e as [|c r]; cbn [starts_with_prefix startsWith tl] in *;
       [congruence|]).
    + apply andb_prop in Hp as [Hp Hm]. apply negb_true_iff in Hp, Hm.
      unfold is_prefix_char in Hc. rewrite Hp, Hm in Hc. cbn [orb] in Hc.
      destruct (Ascii.eqb c "~") eqn:E; [|congruence].
      apply Ascii.eqb_eq in E. congruence.
    + unfold is_prefix_char in Hc. rewrite Hp in Hc. cbn [orb] in Hc.
      apply Ascii.eqb_eq in Hp. congruence.
    + unfold is_prefix_char in Hc. rewrite Hp in Hc.
      rewrite orb_true_r in Hc. cbn [orb] in Hc.
      apply Ascii.eqb_eq in Hp. congruence.
  - intros st u. destruct st; cbn [Notions.tagsIn likeTags mustTags mustNotTags];
      [intros []| | |]; apply Hsub.
  - intros H1 H2 st.
    destruct st; cbn [Notions.tagsIn likeTags mustTags mustNotTags];
      [intros []| | |]; now apply Hframe.
Qed.

(** X19: on a search text with at least one token, one click of
    [toggleTag] of prototype.jsx on a tag without white space moves the state
    of the tag one step along the cycle none, like, must, must-not, none. *)
Theorem prototype_toggleTag_advances_state (searchInput tag : str) :
  words searchInput <> [] ->
  no_space tag = true ->
  Prototype.getTagState (Prototype.toggleTag searchInput tag) tag
  = Notions.nextState (Prototype.getTagState searchInput tag).
Proof.
  intros Hw Ht.
  destruct (words searchInput) as [|q ts] eqn:Ew; [now elim Hw|].
  rewrite !getTagState_words, (words_toggleTag searchInput tag q ts Ew Ht), Ew.
  cbn [tl].
  pose proof (tagStateIn_filtered ts tag) as Hnone.
  set (kept := filter (fun e => negb (str_eqb (Prototype.cleanTag e) tag)) ts)
    in *.
  destruct (Prototype.tagStateIn ts tag);
    cbn [Spec.suffixFor Notions.nextState].
  - now destruct (tagStateIn_snoc kept "~" tag Hnone eq_refl) as [-> _].
  - now destruct (tagStateIn_snoc kept "+" tag Hnone eq_refl) as [-> _].
  - now destruct (tagStateIn_snoc kept "-" tag Hnone eq_refl) as [-> _].
  - now rewrite app_nil_r.
Qed.

Lemma prototype_toggleTag_advances_state_witness :
  Prototype.getTagState (Prototype.toggleTag (lit "React ~JS") (lit "JS")) (lit "JS")
  = must.
Proof.
  rewrite (prototype_toggleTag_advances_state (lit "React ~JS") (lit "JS"));
    [reflexivity|discriminate|reflexivity].
Defined.

(* ------------------------------------------------------------------ *)
(** ** prototype.jsx: the search *)
(* ------------------------------------------------------------------ *)

Section MoreRankerFacts.
Import Prototype.

Lemma taken_trans (A : Type) (a b c : list A) :
  Notions.taken a b -> Notions.taken b c -> Notions.taken a c.
Proof.
  intros [x Hx] [y Hy]. exists (x ++ y).
  rewrite app_assoc. rewrite <- Hy. now apply Permutation_app_tail.
Qed.

Lemma taken_perm (A : Type) (a b : list A) : Permutation a b -> Notions.taken a b.
Proof. intros H. exists []. now rewrite app_nil_r. Qed.

Lemma taken_firstn (A : Type) (n : nat) (l : list A) : Notions.taken (firstn n l) l.
Proof. exists (skipn n l). now rewrite firstn_skipn. Qed.

Lemma taken_filter (A : Type) (p : A -> bool) (l : list A) :
  Notions.taken (filter p l) l.
Proof. exists (filter (fun x => negb (p x)) l). apply partition_perm. Qed.

Lemma taken_map (A B : Type) (f : A -> B) (a l : list A) :
  Notions.taken a l -> Notions.taken (map f a) (map f l).
Proof.
  intros [x Hx]. exists (map f x). rewrite <- map_app. now apply Permutation_map.
Qed.

Lemma taken_incl (A : Type) (a l : list A) : Notions.taken a l -> incl a l.
Proof.
  intros [x Hx] e He. apply (Permutation_in e Hx). apply in_or_app. now left.
Qed.

Lemma taken_NoDup (A : Type) (a l : list A) : Notions.taken a l -> NoDup l -> NoDup a.
Proof.
  intros [x Hx] Hl. apply Permutation_sym in Hx.
  apply (Permutation_NoDup Hx) in Hl. now apply NoDup_app_remove_r in Hl.
Qed.

(** The candidates of the recall step are the documents, in their order. *)
Lemma mapR_docs (query : str) (mockDocuments : list Document)
    (draws : nat -> JsNumber.float) (n : nat) :
  map c_doc
      (fst (mapR (fun doc =>
                    bind (calculateSimilarity query (content doc)) (fun s =>
                      ret (mkCand doc (JsNumber.number s))))
                 mockDocuments draws n))
  = mockDocuments.
Proof.
  revert n. induction mockDocuments as [|d l IH]; intros n; [reflexivity|].
  simpl mapR. rewrite bind_eq.
  destruct (bind (calculateSimilarity query (content d))
              (fun s => ret (mkCand d (JsNumber.number s))) draws n)
    as [c n'] eqn:E.
  rewrite bind_eq. specialize (IH n').
  destruct (mapR _ l draws n') as [cs n'']. cbn [ret fst map] in *.
  rewrite IH. f_equal.
  unfold bind, calculateSimilarity, Math_random, ret in E.
  destruct (is_empty query); injection E as <- _; reflexivity.
Qed.

(** The calls of [Math.random] that the recall step makes. *)
Lemma mapR_calls (query : str) (mockDocuments : list Document)
    (draws : nat -> JsNumber.float) (n : nat) :
  snd (mapR (fun doc =>
               bind (calculateSimilarity query (content doc)) (fun s =>
                 ret (mkCand doc (JsNumber.number s))))
            mockDocuments draws n)
  = if is_empty query then n else (n + length mockDocuments)%nat.
Proof.
  revert n. induction mockDocuments as [|d l IH]; intros n.
  - simpl. destruct (is_empty query); [reflexivity|lia].
  - simpl mapR. rewrite bind_eq.
    destruct (bind (calculateSimilarity query (content d))
                (fun s => ret (mkCand d (JsNumber.number s))) draws n)
      as [c n'] eqn:E.
    rewrite bind_eq. specialize (IH n').
    destruct (mapR _ l draws n') as [cs n'']. cbn [ret snd] in *.
    rewrite IH.
    unfold bind, calculateSimilarity, Math_random, ret in E.
    destruct (is_empty query); injection E as _ <-; [reflexivity|].
    simpl. lia.
Qed.

Lemma recall_docs (mockDocuments : list Document) (query : str)
    (draws : nat -> JsNumber.float) :
  Notions.taken (map c_doc (run (recall mockDocuments query) draws))
        mockDocuments.
Proof.
  unfold run, recall. rewrite bind_eq.
  pose proof (mapR_docs query mockDocuments draws 0) as H.
  destruct (mapR _ mockDocuments draws 0) as [cs n]. cbn [ret fst] in *.
  rewrite <- H. apply taken_map. unfold JsArray.slice0.
  apply (taken_trans _ _ (JsArray.sort bySimilarity cs)).
  - apply taken_firstn.
  - apply taken_perm, sort_perm.
Qed.

Lemma rank_docs (parsed : ParsedQuery) (candidates : list Candidate) :
  Notions.taken (map r_cand (rank parsed candidates)) candidates.
Proof.
  unfold rank, JsArray.slice0, rerank, applyFilterTags.
  set (kept := filter _ candidates).
  apply (taken_trans _ _ kept); [|apply taken_filter].
  set (scored := map (fun doc => mkRanked doc (countLikes (likeTags parsed) doc))
                     kept).
  assert (Hs : map r_cand scored = kept).
  { unfold scored. rewrite map_map. cbn [r_cand]. apply map_id. }
  rewrite <- Hs. apply taken_map.
  apply (taken_trans _ _ (JsArray.sort byLikeThenSimilarity scored)).
  - apply taken_firstn.
  - apply taken_perm, sort_perm.
Qed.

Lemma countLikes_bounds (likeTags : list str) (doc : Candidate) :
  (0 <= countLikes likeTags doc <= Z.of_nat (length likeTags))%Z.
Proof.
  rewrite countLikes_spec. pose proof (filter_length_le (hasTag (tags (c_doc doc))) likeTags).
  lia.
Qed.

Lemma substringOf_trans (u t s : str) :
  Spec.substringOf u t -> Spec.substringOf t s -> Spec.substringOf u s.
Proof.
  intros (b1 & a1 & ->) (b2 & a2 & ->).
  exists (b2 ++ b1), (a1 ++ a2). now rewrite <- !app_assoc.
Qed.

(** A tag that contains another tag is found in every document tag that the
    other tag is found in. *)
Lemma hasTag_contained (docTags : list str) (t u : str) :
  includes (toLowerCase t) (toLowerCase u) = true ->
  hasTag docTags t = true -> hasTag docTags u = true.
Proof.
  intros Hu Ht. apply includes_spec in Hu.
  apply hasTag_spec in Ht as (docTag & Hin & Hsub).
  apply hasTag_spec. exists docTag. split; [exact Hin|].
  now apply (substringOf_trans _ (toLowerCase t)).
Qed.

Lemma includes_empty (s : str) : includes s [] = true.
Proof. destruct s; reflexivity. Qed.

Lemma hasTag_empty (docTags : list str) :
  hasTag docTags [] = match docTags with [] => false | _ :: _ => true end.
Proof.
  unfold hasTag, JsArray.some, tagIncludes. destruct docTags as [|d l]; [reflexivity|].
  simpl. now rewrite includes_empty.
Qed.

Lemma hasTag_lower (docTags : list str) (t u : str) :
  toLowerCase t = toLowerCase u -> hasTag docTags t = hasTag docTags u.
Proof. intros H. unfold hasTag, tagIncludes. now rewrite H. Qed.

Lemma forallb_lower (p : str -> bool) (l1 l2 : list str) :
  (forall t u, toLowerCase t = toLowerCase u -> p t = p u) ->
  map toLowerCase l1 = map toLowerCase l2 ->
  forallb p l1 = forallb p l2.
Proof.
  intros Hp. revert l2. induction l1 as [|a l1 IH]; intros [|b l2] H;
    try discriminate; [reflexivity|].
  simpl in H. injection H as Hab Hl. simpl.
  now rewrite (Hp a b Hab), (IH l2 Hl).
Qed.

Lemma filter_length_lower (p : str -> bool) (l1 l2 : list str) :
  (forall t u, toLowerCase t = toLowerCase u -> p t = p u) ->
  map toLowerCase l1 = map toLowerCase l2 ->
  length (filter p l1) = length (filter p l2).
Proof.
  intros Hp. revert l2. induction l1 as [|a l1 IH]; intros [|b l2] H;
    try discriminate; [reflexivity|].
  simpl in H. injection H as Hab Hl. simpl.
  rewrite (Hp a b Hab). destruct (p b); simpl; now rewrite (IH l2 Hl).
Qed.

Lemma calculateSimilarity_lower (q1 q2 content : str) :
  toLowerCase q1 = toLowerCase q2 ->
  calculateSimilarity q1 content = calculateSimilarity q2 content.
Proof.
  intros H. unfold calculateSimilarity, totalScore. rewrite H.
  assert (He : is_empty q1 = is_empty q2).
  { destruct q1, q2; try reflexivity; discriminate. }
  now rewrite He.
Qed.

End MoreRankerFacts.

(** X20: [performSearch] of prototype.jsx returns at most five results;
    their documents are documents of the collection, each returned at most as
    often as the collection has it (so documents with distinct ids give
    results with distinct ids); and the like score of a result is between 0
    and the number of like tags. *)
Theorem prototype_results_are_documents
    (mockDocuments : list Prototype.Document) (parsed : ParsedQuery)
    (draws : nat -> JsNumber.float) :
  let results :=
    Prototype.run (Prototype.performSearch mockDocuments parsed) draws in
  let found := map (fun r => Prototype.c_doc (Prototype.r_cand r)) results in
  (length results <= 5)%nat
  /\ (exists others, Permutation (found ++ others) mockDocuments)
  /\ (NoDup (map Prototype.id mockDocuments) -> NoDup (map Prototype.id found))
  /\ (forall r, In r results ->
        (0 <= Prototype.likeScore r <= Z.of_nat (length (likeTags parsed)))%Z).
Proof.
  cbv zeta. rewrite performSearch_rank.
  set (candidates :=
         Prototype.run (Prototype.recall mockDocuments (query parsed)) draws).
  assert (Hfound : Notions.taken
                     (map (fun r => Prototype.c_doc (Prototype.r_cand r))
                          (Prototype.rank parsed candidates))
                     mockDocuments).
  { rewrite <- map_map.
    apply (taken_trans _ _ (map Prototype.c_doc candidates)).
    - apply taken_map, rank_docs.
    - apply recall_docs. }
  split; [|split; [exact Hfound|split]].
  - unfold Prototype.rank, JsArray.slice0. apply firstn_le_length.
  - intros Hids.
    apply (taken_NoDup _ _ (map Prototype.id mockDocuments)); [|exact Hids].
    now apply taken_map.
  - intros r Hr. unfold Prototype.rank, JsArray.slice0 in Hr.
    apply In_firstn in Hr. apply rerank_In in Hr as [_ ->].
    apply countLikes_bounds.
Qed.

(** X21: when a must tag contains a must-not tag, both in lower case (the
    same tag in both sets, or [+JavaScript -java]), [performSearch] of
    prototype.jsx returns no result, whatever the documents and the values of
    [Math.random]. *)
Theorem prototype_conflicting_tags_give_no_result
    (mockDocuments : list Prototype.Document) (parsed : ParsedQuery)
    (draws : nat -> JsNumber.float) (wanted excluded : str) :
  In wanted (mustTags parsed) ->
  In excluded (mustNotTags parsed) ->
  includes (toLowerCase wanted) (toLowerCase excluded) = true ->
  Prototype.run (Prototype.performSearch mockDocuments parsed) draws = [].
Proof.
  intros Hw He Hinc. rewrite performSearch_rank.
  set (candidates :=
         Prototype.run (Prototype.recall mockDocuments (query parsed)) draws).
  unfold Prototype.rank, Prototype.applyFilterTags.
  assert (Hnone : filter (Prototype.keeps (mustTags parsed) (mustNotTags parsed))
                         candidates = []).
  { induction candidates as [|c l IH]; [reflexivity|].
    simpl. rewrite IH.
    destruct (Prototype.keeps (mustTags parsed) (mustNotTags parsed) c) eqn:K;
      [|reflexivity].
    apply keeps_spec in K as [Hmust Hnot].
    pose proof (hasTag_contained _ wanted excluded Hinc (Hmust wanted Hw)) as H.
    rewrite (Hnot excluded He) in H. discriminate. }
  rewrite Hnone. reflexivity.
Qed.

Lemma prototype_conflicting_tags_give_no_result_witness :
  Prototype.run
    (Prototype.performSearch Examples.documents
       (Prototype.parseSearchInput (lit "library +JavaScript -java")))
    Examples.drawsLowFirst = [].
Proof.
  apply (prototype_conflicting_tags_give_no_result Examples.documents
           (Prototype.parseSearchInput (lit "library +JavaScript -java"))
           Examples.drawsLowFirst (lit "JavaScript") (lit "java"));
    [left; reflexivity|left; reflexivity|reflexivity].
Defined.

(** X22: [performSearch] of prototype.jsx ignores the case of the query:
    two structured queries that differ only in the case of the letters of the
    free text and of the tags give the same results, for the same documents
    and the same values of [Math.random]. *)
Theorem prototype_search_ignores_case
    (mockDocuments : list Prototype.Document) (parsed1 parsed2 : ParsedQuery)
    (draws : nat -> JsNumber.float) :
  Notions.sameUpToCase parsed1 parsed2 ->
  Prototype.run (Prototype.performSearch mockDocuments parsed1) draws
  = Prototype.run (Prototype.performSearch mockDocuments parsed2) draws.
Proof.
  intros (Hq & Hl & Hm & Hn). rewrite !performSearch_rank.
  assert (Hrecall : Prototype.run
                      (Prototype.recall mockDocuments (query parsed1)) draws
                    = Prototype.run
                        (Prototype.recall mockDocuments (query parsed2)) draws).
  { unfold Prototype.run, Prototype.recall. rewrite !bind_eq.
    assert (Hmap : forall n,
               Prototype.mapR
                 (fun doc =>
                    Prototype.bind
                      (Prototype.calculateSimilarity (query parsed1)
                                                     (Prototype.content doc))
                      (fun s => Prototype.ret
                                  (Prototype.mkCand doc (JsNumber.number s))))
                 mockDocuments draws n
               = Prototype.mapR
                   (fun doc =>
                      Prototype.bind
                        (Prototype.calculateSimilarity (query parsed2)
                                                       (Prototype.content doc))
                        (fun s => Prototype.ret
                                    (Prototype.mkCand doc (JsNumber.number s))))
                   mockDocuments draws n).
    { induction mockDocuments as [|d l IH]; intros n; [reflexivity|].
      simpl Prototype.mapR.
      rewrite (calculateSimilarity_lower _ _ (Prototype.content d) Hq).
      rewrite bind_eq. rewrite (bind_eq _ _ (Prototype.bind _ _)).
      destruct (Prototype.bind
                  (Prototype.calculateSimilarity (query parsed2)
                                                 (Prototype.content d))
                  _ draws n) as [c n'].
      rewrite !bind_eq. now rewrite IH. }
    now rewrite Hmap. }
  rewrite Hrecall.
  set (candidates :=
         Prototype.run (Prototype.recall mockDocuments (query parsed2)) draws).
  unfold Prototype.rank, Prototype.rerank, Prototype.applyFilterTags.
  assert (Hkeeps : forall c,
             Prototype.keeps (mustTags parsed1) (mustNotTags parsed1) c
             = Prototype.keeps (mustTags parsed2) (mustNotTags parsed2) c).
  { intros c. unfold Prototype.keeps, JsArray.every.
    rewrite (forallb_lower _ (mustTags parsed1) (mustTags parsed2)) by
      (try exact Hm; intros t u H; now apply hasTag_lower).
    rewrite (forallb_lower _ (mustNotTags parsed1) (mustNotTags parsed2)) by
      (try exact Hn; intros t u H; f_equal; now apply hasTag_lower).
    reflexivity. }
  assert (Hlikes : forall c,
             Prototype.countLikes (likeTags parsed1) c
             = Prototype.countLikes (likeTags parsed2) c).
  { intros c. rewrite !countLikes_spec. f_equal.
    apply filter_length_lower; [|exact Hl].
    intros t u H. now apply hasTag_lower. }
  rewrite (filter_ext _ _ Hkeeps).
  f_equal. f_equal. apply map_ext. intros c. now rewrite Hlikes.
Qed.

Lemma prototype_search_ignores_case_witness :
  Prototype.run
    (Prototype.performSearch Examples.documents
       (Prototype.parseSearchInput (lit "LIBRARY +javascript ~REACT")))
    Examples.drawsLowFirst
  = Prototype.run
      (Prototype.performSearch Examples.documents
         (Prototype.parseSearchInput (lit "library +JavaScript ~react")))
      Examples.drawsLowFirst.
Proof.
  apply (prototype_search_ignores_case Examples.documents
           (Prototype.parseSearchInput (lit "LIBRARY +javascript ~REACT"))
           (Prototype.parseSearchInput (lit "library +JavaScript ~react"))
           Examples.drawsLowFirst).
  repeat split.
Defined.

(** X23: in prototype.jsx a bare [-] after the first token of the search
    text is parsed as an empty must-not tag, which every document tag
    contains: every result that the pipeline returns is then a document
    without tags. *)
Theorem prototype_bare_minus_hides_tagged_documents
    (mockDocuments : list Prototype.Document) (searchInput : str)
    (draws : nat -> JsNumber.float) :
  In (lit "-") (tl (words searchInput)) ->
  let results :=
    fst (Prototype.run (Prototype.pipeline mockDocuments searchInput) draws) in
  In (lit "") (mustNotTags (Prototype.parseSearchInput searchInput))
  /\ forall r, In r results -> Prototype.r_tags r = [].
Proof.
  intros Hminus. cbv zeta.
  assert (Hempty : In (lit "")
                      (mustNotTags (Prototype.parseSearchInput searchInput))).
  { rewrite prototype_parse_words.
    destruct (words searchInput) as [|q ts]; [destruct Hminus|].
    cbn [tl] in Hminus. cbn [mustNotTags].
    apply In_clean_filter. exists (lit "-"). auto. }
  split; [exact Hempty|].
  intros r Hr.
  unfold Prototype.run, Prototype.pipeline in Hr. rewrite bind_eq in Hr.
  pose proof (performSearch_rank mockDocuments
                (Prototype.parseSearchInput searchInput) draws) as Hrank.
  unfold Prototype.run in Hrank.
  destruct (Prototype.performSearch mockDocuments
              (Prototype.parseSearchInput searchInput) draws 0)
    as [results n].
  cbn [Prototype.ret fst] in Hr, Hrank. rewrite Hrank in Hr.
  unfold Prototype.rank, JsArray.slice0 in Hr. apply In_firstn in Hr.
  apply rerank_In in Hr as [Hr _].
  unfold Prototype.applyFilterTags in Hr. apply filter_In in Hr as [_ Hk].
  apply keeps_spec in Hk as [_ Hnot].
  specialize (Hnot _ Hempty). change (lit "") with (@nil ascii) in Hnot.
  rewrite hasTag_empty in Hnot.
  unfold Prototype.r_tags. now destruct (Prototype.tags _).
Qed.

Lemma prototype_bare_minus_hides_tagged_documents_witness :
  In (lit "") (mustNotTags (Prototype.parseSearchInput (lit "JavaScript -")))
  /\ forall r,
       In r (fst (Prototype.run
                    (Prototype.pipeline Examples.documents (lit "JavaScript -"))
                    Examples.drawsLowFirst)) ->
       Prototype.r_tags r = [].
Proof.
  exact (prototype_bare_minus_hides_tagged_documents Examples.documents
           (lit "JavaScript -") Examples.drawsLowFirst (or_introl eq_refl)).
Defined.

(** X24: the pipeline of prototype.jsx calls [Math.random] once for every
    document of the collection when the free text of the parsed query is not
    empty, and never when it is empty. *)
Theorem prototype_random_calls (mockDocuments : list Prototype.Document)
    (searchInput : str) (draws : nat -> JsNumber.float) (made : nat) :
  snd (Prototype.pipeline mockDocuments searchInput draws made)
  = if is_empty (query (Prototype.parseSearchInput searchInput))
    then made
    else (made + length mockDocuments)%nat.
Proof.
  unfold Prototype.pipeline, Prototype.performSearch, Prototype.recall.
  rewrite !bind_eq.
  pose proof (mapR_calls (query (Prototype.parseSearchInput searchInput))
                mockDocuments draws made) as H.
  destruct (Prototype.mapR _ mockDocuments draws made) as [cs n].
  cbn [Prototype.ret snd] in *. exact H.
Qed.

(* ------------------------------------------------------------------ *)
(** ** prototype.jsx: the recommendations *)
(* ------------------------------------------------------------------ *)

Section MoreScorerFacts.
Import Prototype.

Lemma tagSets_NoDup (results : list RankedResult) :
  Spec.tagSets results = true -> forall r, In r results -> NoDup (r_tags r).
Proof.
  unfold Spec.tagSets. rewrite forallb_forall. intros H r Hr.
  specialize (H r Hr). induction (r_tags r) as [|t l IH]; [constructor|].
  simpl in H. apply andb_prop in H as [Ht Hl].
  constructor; [|now apply IH].
  intros Hin. apply negb_true_iff in Ht.
  assert (existsb (str_eqb t) l = true).
  { apply existsb_exists. exists t. split; [exact Hin|apply str_eqb_refl]. }
  congruence.
Qed.

Lemma occurrences_nonneg (k : str) (l : list str) : (0 <= Spec.occurrences k l)%Z.
Proof. unfold Spec.occurrences. lia. Qed.

Lemma occurrences_In (k : str) (l : list str) :
  In k l -> (1 <= Spec.occurrences k l)%Z.
Proof.
  unfold Spec.occurrences. intros H.
  assert (Hin : In k (filter (str_eqb k) l))
    by (apply filter_In; split; [exact H|apply str_eqb_refl]).
  destruct (filter (str_eqb k) l); [destruct Hin|simpl; lia].
Qed.

Lemma listings_nonneg (results : list RankedResult) (k : str) :
  (0 <= Notions.listings results k)%Z.
Proof.
  induction results as [|r rs IH]; simpl; [lia|].
  pose proof (occurrences_nonneg k (r_tags r)). lia.
Qed.

Lemma listings_In (results : list RankedResult) (k : str) :
  (exists r, In r results /\ In k (r_tags r)) ->
  (1 <= Notions.listings results k)%Z.
Proof.
  intros (r & Hr & Hk). induction results as [|a rs IH]; [destruct Hr|].
  simpl. destruct Hr as [->|Hr].
  - pose proof (occurrences_In k (r_tags r) Hk).
    pose proof (listings_nonneg rs k). lia.
  - pose proof (occurrences_nonneg k (r_tags a)). specialize (IH Hr). lia.
Qed.

Lemma frequencyIn_bounds (results : list RankedResult) (k : str) :
  (exists r, In r results /\ In k (r_tags r)) ->
  (1 <= Spec.frequencyIn results k <= Z.of_nat (length results))%Z.
Proof.
  intros (r & Hr & Hk). unfold Spec.frequencyIn.
  set (p := fun r => existsb (str_eqb k) (r_tags r)).
  pose proof (filter_length_le p results) as Hle.
  assert (Hin : In r (filter p results)).
  { apply filter_In. split; [exact Hr|]. unfold p.
    apply existsb_exists. exists k. split; [exact Hk|apply str_eqb_refl]. }
  destruct (filter p results); [destruct Hin|]. simpl in *. lia.
Qed.

(** A recommendation is one of the scored entries. *)
Lemma calculateTagEIG_entry (results : list RankedResult) (e : TagRecommendation) :
  In e (calculateTagEIG results) -> In e (tagsWithEIG results).
Proof.
  unfold calculateTagEIG. destruct (length results =? 0); [intros []|].
  unfold JsArray.slice0. apply In_firstn.
Qed.

Lemma calculateTagEIG_length (results : list RankedResult) :
  (length (calculateTagEIG results) <= 15)%nat.
Proof.
  unfold calculateTagEIG. destruct (length results =? 0); [simpl; lia|].
  apply firstn_le_length.
Qed.

(** An entry for tag sets without inherited names: a count, and a number as
    [eig]. *)
Lemma tagsWithEIG_entry_counted (results : list RankedResult)
    (e : TagRecommendation) :
  Spec.tagSets results = true -> Notions.ownNames results = true ->
  In e (tagsWithEIG results) ->
  (exists r, In r results /\ In (tag e) (r_tags r))
  /\ frequency e = Count (Spec.frequencyIn results (tag e))
  /\ eig e
     = JsNumber.Finite
         (Qabs (inject_Z (Spec.frequencyIn results (tag e))
                - inject_Z (Z.of_nat (length results)) / 2)).
Proof.
  intros Hsets Hown He.
  apply tagsWithEIG_entry in He as (_ & Hocc & He).
  destruct (ownNames_tag results (tag e) Hown Hocc) as [_ Hm].
  unfold Notions.counted in He. rewrite Hm in He.
  rewrite (listings_frequencyIn results (tag e) (tagSets_NoDup results Hsets))
    in He.
  split; [exact Hocc|].
  destruct e as [t f g]. cbn [tag frequency eig scored] in *.
  injection He as -> ->. split; reflexivity.
Qed.

End MoreScorerFacts.

(** X25: for results whose tag lists have no repeated tag and no name that
    an object inherits, [calculateTagEIG] returns at most 15
    recommendations, and each has as frequency a count between 1 and the
    number of results and as [eig] a number between 0 and half the number of
    results. *)
Theorem calculateTagEIG_bounds (results : list Prototype.RankedResult) :
  Spec.tagSets results = true ->
  Notions.ownNames results = true ->
  (length (Prototype.calculateTagEIG results) <= 15)%nat
  /\ forall e, In e (Prototype.calculateTagEIG results) ->
       exists n q,
         Prototype.frequency e = Prototype.Count n
         /\ Prototype.eig e = JsNumber.Finite q
         /\ (1 <= n <= Z.of_nat (length results))%Z
         /\ (0 <= q)%Q
         /\ (q <= inject_Z (Z.of_nat (length results)) / 2)%Q.
Proof.
  intros Hsets Hown. split; [apply calculateTagEIG_length|].
  intros e He. apply calculateTagEIG_entry in He.
  destruct (tagsWithEIG_entry_counted results e Hsets Hown He)
    as (Hocc & Hf & Hq).
  pose proof (frequencyIn_bounds results (Prototype.tag e) Hocc) as Hb.
  set (n := Spec.frequencyIn results (Prototype.tag e)) in *.
  exists n, (Qabs (inject_Z n - inject_Z (Z.of_nat (length results)) / 2)).
  split; [exact Hf|]. split; [exact Hq|]. split; [exact Hb|].
  split; [apply Qabs_nonneg|].
  apply Qabs_Qle_condition.
  assert (H0 : (inject_Z 0 <= inject_Z n)%Q) by (rewrite <- Zle_Qle; lia).
  change (inject_Z 0) with 0%Q in H0.
  assert (H1 : (inject_Z n <= inject_Z (Z.of_nat (length results)))%Q)
    by (rewrite <- Zle_Qle; lia).
  unfold Qdiv. change (/ 2)%Q with (1 # 2)%Q.
  set (F := inject_Z n) in *.
  set (N := inject_Z (Z.of_nat (length results))) in *.
  clearbody F N. split; lra.
Qed.

Lemma calculateTagEIG_bounds_witness :
  (length (Prototype.calculateTagEIG
             [Examples.result 1 ["a"; "b"]%string; Examples.result 2 ["a"%string]])
   <= 15)%nat
  /\ forall e,
       In e (Prototype.calculateTagEIG
               [Examples.result 1 ["a"; "b"]%string;
                Examples.result 2 ["a"%string]]) ->
       exists n q,
         Prototype.frequency e = Prototype.Count n
         /\ Prototype.eig e = JsNumber.Finite q
         /\ (1 <= n <= Z.of_nat 2)%Z
         /\ (0 <= q)%Q
         /\ (q <= inject_Z (Z.of_nat 2) / 2)%Q.
Proof.
  exact (calculateTagEIG_bounds
           [Examples.result 1 ["a"; "b"]%string; Examples.result 2 ["a"%string]]
           eq_refl eq_refl).
Defined.

(** X26: for any results, a recommendation of [calculateTagEIG] is for a
    tag that some result lists and that is not [__proto__].  Let [n] be the
    number of times the results list the tag (a tag that a result lists
    twice counts twice, so [n] can exceed the number of results); it is at
    least 1.  When the tag is no method name that an object inherits, the
    frequency is [n] and the [eig] is the absolute value of [n] minus half
    the number of results.  When the tag is such a name, the frequency is a
    string, the text of the inherited function followed by [n] characters
    [1], and the [eig] is NaN. *)
Theorem calculateTagEIG_counts_every_listing
    (results : list Prototype.RankedResult) (e : Prototype.TagRecommendation) :
  In e (Prototype.calculateTagEIG results) ->
  let n := Notions.listings results (Prototype.tag e) in
  (exists r, In r results /\ In (Prototype.tag e) (Prototype.r_tags r))
  /\ Prototype.tag e <> Prototype.proto
  /\ (1 <= n)%Z
  /\ (Prototype.is_inherited_method (Prototype.tag e) = false ->
      Prototype.frequency e = Prototype.Count n
      /\ Prototype.eig e
         = JsNumber.Finite
             (Qabs (inject_Z n - inject_Z (Z.of_nat (length results)) / 2)))
  /\ (Prototype.is_inherited_method (Prototype.tag e) = true ->
      Prototype.frequency e
      = Prototype.FunctionText (Prototype.tag e) (Z.to_nat n)
      /\ Prototype.eig e = JsNumber.NaN).
Proof.
  intros He n. apply calculateTagEIG_entry in He.
  apply tagsWithEIG_entry in He as (Hp & Hocc & He). fold n in He.
  split; [exact Hocc|]. split; [exact Hp|].
  split; [now apply listings_In|].
  unfold Notions.counted in He.
  destruct e as [t f g].
  cbn [Prototype.tag Prototype.frequency Prototype.eig Prototype.scored] in *.
  split; intros Hm; rewrite Hm in He; injection He as -> ->;
    split; reflexivity.
Qed.

Lemma calculateTagEIG_counts_every_listing_witness :
  Prototype.frequency
    (Prototype.mkRec (lit "a") (Prototype.Count 3)
                     (JsNumber.Finite (Qabs (3 - 2 / 2))))
  = Prototype.Count
      (Notions.listings
         [Examples.result 1 ["a"; "b"; "a"]%string; Examples.result 2 ["a"%string]]
         (lit "a"))
  /\ Prototype.frequency
       (Prototype.mkRec (lit "valueOf")
                        (Prototype.FunctionText (lit "valueOf") 2) JsNumber.NaN)
     = Prototype.FunctionText (lit "valueOf")
         (Z.to_nat
            (Notions.listings
               [Examples.result 1 ["valueOf"; "valueOf"]%string] (lit "valueOf"))).
Proof.
  split.
  - apply (calculateTagEIG_counts_every_listing
             [Examples.result 1 ["a"; "b"; "a"]%string;
              Examples.result 2 ["a"%string]]
             (Prototype.mkRec (lit "a") (Prototype.Count 3)
                              (JsNumber.Finite (Qabs (3 - 2 / 2))))).
    + left. reflexivity.
    + reflexivity.
  - apply (calculateTagEIG_counts_every_listing
             [Examples.result 1 ["valueOf"; "valueOf"]%string]
             (Prototype.mkRec (lit "valueOf")
                              (Prototype.FunctionText (lit "valueOf") 2)
                              JsNumber.NaN)).
    + left. reflexivity.
    + reflexivity.
Defined.

(** X28: for a non-empty result list whose results each list their tags
    without repetition (a tag set) and without a name that an object
    inherits, [calculateTagEIG] returns the first fifteen entries of a list
    that is sorted descending by [eig] and has exactly one entry for every
    tag occurring in the results; the entry of a tag reports as [frequency]
    the number of results whose tags contain it and as [eig] the absolute
    value of that number minus half the number of results.  For the empty
    result list it returns the empty list. *)
Theorem calculateTagEIG_scores (results : list Prototype.RankedResult) :
  Spec.tagSets results = true ->
  Notions.ownNames results = true ->
  Prototype.calculateTagEIG [] = []
  /\ (results <> [] ->
      Prototype.calculateTagEIG results
      = firstn 15 (Prototype.tagsWithEIG results)
      /\ StronglySorted Notions.descendingByEig (Prototype.tagsWithEIG results)
      /\ NoDup (map Prototype.tag (Prototype.tagsWithEIG results))
      /\ (forall t,
            In t (map Prototype.tag (Prototype.tagsWithEIG results))
            <-> exists r, In r results /\ In t (Prototype.r_tags r))
      /\ (forall e, In e (Prototype.tagsWithEIG results) ->
            Prototype.frequency e
            = Prototype.Count (Spec.frequencyIn results (Prototype.tag e))
            /\ Prototype.eig e
               = JsNumber.Finite
                   (Qabs (inject_Z (Spec.frequencyIn results (Prototype.tag e))
                          - inject_Z (Z.of_nat (length results)) / 2)))).
Proof.
  intros Hsets Hown. split; [reflexivity|]. intros Hne.
  assert (Hkeys : NoDup (map fst (Prototype.countTags results)))
    by (apply keys_countFrom_NoDup; constructor).
  split; [|split; [|split; [|split]]].
  - unfold Prototype.calculateTagEIG.
    destruct results; [now elim Hne|reflexivity].
  - now apply tagsWithEIG_sorted.
  - eapply Permutation_NoDup; [apply Permutation_sym, tagsWithEIG_tags|exact Hkeys].
  - intros t. split.
    + intros H. apply (Permutation_in _ (tagsWithEIG_tags results)) in H.
      apply keys_countFrom in H as [[]|[_ H]]. exact H.
    + intros H.
      apply (Permutation_in _ (Permutation_sym (tagsWithEIG_tags results))).
      apply keys_countFrom. right. split; [|exact H].
      now apply (ownNames_tag results t Hown H).
  - intros e He.
    now apply (tagsWithEIG_entry_counted results e Hsets Hown He).
Qed.

Lemma calculateTagEIG_scores_witness :
  map (fun e => (Prototype.tag e, Prototype.frequency e))
      (Prototype.calculateTagEIG
         [Examples.result 1 ["a"; "b"]%string; Examples.result 2 ["a"%string];
          Examples.result 3 ["b"%string]; Examples.result 4 ["c"%string]])
  = [(lit "c", Prototype.Count 1); (lit "a", Prototype.Count 2);
     (lit "b", Prototype.Count 2)]
  /\ StronglySorted Notions.descendingByEig
       (Prototype.tagsWithEIG
          [Examples.result 1 ["a"; "b"]%string; Examples.result 2 ["a"%string];
           Examples.result 3 ["b"%string]; Examples.result 4 ["c"%string]]).
Proof.
  split; [reflexivity|].
  refine (proj1 (proj2 (proj2 (calculateTagEIG_scores
            [Examples.result 1 ["a"; "b"]%string; Examples.result 2 ["a"%string];
             Examples.result 3 ["b"%string]; Examples.result 4 ["c"%string]]
            eq_refl eq_refl) _))).
  discriminate.
Defined.

(* ------------------------------------------------------------------ *)
(** ** prototype.jsx: the bound on the similarity *)
(* ------------------------------------------------------------------ *)

Section FloatFacts.
Import SpecFloat.

Lemma digits2_pos_bound (m : positive) :
  (Zpos m < 2 ^ Zpos (digits2_pos m))%Z.
Proof.
  induction m as [m IH|m IH|]; cbn [digits2_pos];
    rewrite ?Pos2Z.inj_succ, ?Z.pow_succ_r by lia; lia.
Qed.

(** The mantissa of a binary64 number has at most 53 bits. *)
Lemma valid_mantissa (s : bool) (m : positive) (e : Z) :
  valid_binary FloatOps.prec FloatOps.emax (S754_finite s m e) = true ->
  (Zpos m < 2 ^ 53)%Z.
Proof.
  unfold valid_binary, bounded, canonical_mantissa, fexp, emin,
    FloatOps.prec, FloatOps.emax.
  intros H. apply andb_prop in H as [H _]. apply Z.eqb_eq in H.
  pose proof (digits2_pos_bound m) as Hm.
  assert (Hd : (Zpos (digits2_pos m) <= 53)%Z) by lia.
  pose proof (Z.pow_le_mono_r 2 _ 53 ltac:(lia) Hd). lia.
Qed.

Lemma Qpower_2_pos (e : Z) : (0 < 2 ^ e)%Q.
Proof. now apply Qpower_0_lt. Qed.

Lemma scaled_le (m m0 : positive) (e e0 : Z) :
  (Zpos m < 2 ^ 53)%Z -> (2 ^ 52 <= Zpos m0)%Z ->
  (e < e0)%Z \/ (e = e0 /\ (Zpos m <= Zpos m0)%Z) ->
  (inject_Z (Zpos m) * 2 ^ e <= inject_Z (Zpos m0) * 2 ^ e0)%Q.
Proof.
  intros Hm Hm0 [He|[-> Hle]].
  - set (k := (e0 - e)%Z).
    assert (Hk : (1 <= k)%Z) by (unfold k; lia).
    assert (Hpow : (2 ^ e0 == inject_Z (2 ^ k) * 2 ^ e)%Q).
    { replace e0 with (k + e)%Z by (unfold k; lia).
      rewrite Qpower_plus by discriminate.
      now rewrite (Zpower_Qpower 2 k) by lia. }
    rewrite Hpow, Qmult_assoc.
    apply Qmult_le_compat_r; [|apply Qlt_le_weak, Qpower_2_pos].
    rewrite <- inject_Z_mult, <- Zle_Qle.
    assert (H2 : (2 ^ 1 <= 2 ^ k)%Z) by (apply Z.pow_le_mono_r; lia).
    change (2 ^ 53)%Z with (2 ^ 52 * 2 ^ 1)%Z in Hm.
    nia.
  - apply Qmult_le_compat_r; [|apply Qlt_le_weak, Qpower_2_pos].
    now rewrite <- Zle_Qle.
Qed.

Lemma scaled_nonneg (m : positive) (e : Z) :
  (0 <= inject_Z (Zpos m) * 2 ^ e)%Q.
Proof.
  apply Qmult_le_0_compat; [|apply Qlt_le_weak, Qpower_2_pos].
  change 0%Q with (inject_Z 0). rewrite <- Zle_Qle. lia.
Qed.

(** A number that the comparison does not put above a positive normal number
    [y] denotes at most what [y] denotes. *)
Lemma number_le (x y : JsNumber.float) (m0 : positive) (e0 : Z) :
  FloatOps.Prim2SF y = S754_finite false m0 e0 ->
  (2 ^ 52 <= Zpos m0)%Z ->
  PrimFloat.ltb x y = true \/ PrimFloat.ltb y x = false ->
  (JsNumber.number x <= JsNumber.number y)%Q.
Proof.
  intros Hy Hm0 Hcmp. rewrite !FloatAxioms.ltb_spec, Hy in Hcmp.
  pose proof (FloatAxioms.Prim2SF_valid x) as Hv.
  unfold JsNumber.number. rewrite Hy.
  destruct (FloatOps.Prim2SF x) as [s|s| |s m e];
    try apply scaled_nonneg.
  destruct s.
  - apply Qle_trans with 0%Q; [|apply scaled_nonneg].
    apply (Qopp_le_compat 0). apply scaled_nonneg.
  - apply scaled_le; [now apply (valid_mantissa false m e)|exact Hm0|].
    unfold SFltb, SFcompare in Hcmp.
    rewrite !Pos.compare_cont_spec in Hcmp. cbn [Pos.switch_Eq] in Hcmp.
    destruct (Z.compare_spec e e0), (Z.compare_spec e0 e); try lia;
      destruct (Pos.compare_spec m m0), (Pos.compare_spec m0 m); try lia;
      first [ left; lia | right; split; lia | destruct Hcmp; discriminate ].
Qed.

Lemma Math_min_at_most (x y : JsNumber.float) (m0 : positive) (e0 : Z) :
  FloatOps.Prim2SF y = S754_finite false m0 e0 ->
  (2 ^ 52 <= Zpos m0)%Z ->
  (JsNumber.number (JsNumber.Math_min x y) <= JsNumber.number y)%Q.
Proof.
  intros Hy Hm0. unfold JsNumber.Math_min.
  destruct (PrimFloat.is_nan x || PrimFloat.is_nan y).
  - unfold JsNumber.number at 1.
    change (FloatOps.Prim2SF PrimFloat.nan) with S754_nan. cbv iota.
    unfold JsNumber.number. rewrite Hy. apply scaled_nonneg.
  - destruct (PrimFloat.ltb x y) eqn:Hxy.
    + apply (number_le x y m0 e0 Hy Hm0). now left.
    + destruct (PrimFloat.ltb y x) eqn:Hyx; [apply Qle_refl|].
      destruct (PrimFloat.get_sign x); [|apply Qle_refl].
      apply (number_le x y m0 e0 Hy Hm0). now right.
Qed.

End FloatFacts.

Section SimilarityFacts.
Import Prototype.

Lemma f0_95_bits :
  FloatOps.Prim2SF JsNumber.f0_95
  = SpecFloat.S754_finite false 8556839292003942 (-53).
Proof. reflexivity. Qed.

Lemma calculateSimilarity_at_most (query content : str)
    (draws : nat -> JsNumber.float) (n : nat) :
  (JsNumber.number (fst (calculateSimilarity query content draws n))
   <= JsNumber.number JsNumber.f0_95)%Q.
Proof.
  unfold calculateSimilarity.
  destruct (is_empty query).
  - cbn [ret fst]. vm_compute. discriminate.
  - rewrite bind_eq. cbn [Math_random ret fst].
    apply (Math_min_at_most _ _ _ _ f0_95_bits). vm_compute. discriminate.
Qed.

Lemma mapR_similarity (query : str) (mockDocuments : list Document)
    (draws : nat -> JsNumber.float) (n : nat) (c : Candidate) :
  In c (fst (mapR (fun doc =>
                     bind (calculateSimilarity query (content doc)) (fun s =>
                       ret (mkCand doc (JsNumber.number s))))
                  mockDocuments draws n)) ->
  (similarity c <= JsNumber.number JsNumber.f0_95)%Q.
Proof.
  revert n. induction mockDocuments as [|d l IH]; intros n; [intros []|].
  simpl mapR. rewrite bind_eq.
  pose proof (calculateSimilarity_at_most query (content d) draws n) as Hd.
  rewrite bind_eq.
  destruct (calculateSimilarity query (content d) draws n) as [s n'].
  cbn [ret fst] in *. rewrite bind_eq. specialize (IH n').
  destruct (mapR _ l draws n') as [cs n'']. cbn [ret fst] in *.
  intros [<-|Hc]; [exact Hd|now apply IH].
Qed.

Lemma recall_In (mockDocuments : list Document) (query : str)
    (draws : nat -> JsNumber.float) (c : Candidate) :
  In c (run (recall mockDocuments query) draws) ->
  In c (fst (mapR (fun doc =>
                     bind (calculateSimilarity query (content doc)) (fun s =>
                       ret (mkCand doc (JsNumber.number s))))
                  mockDocuments draws 0)).
Proof.
  unfold run, recall. rewrite bind_eq.
  destruct (mapR _ mockDocuments draws 0) as [cs n]. cbn [ret fst].
  unfold JsArray.slice0. intros H. apply In_firstn in H.
  now apply sort_In in H.
Qed.

End SimilarityFacts.

(** X27: the similarity of every result of [performSearch] of
    prototype.jsx is at most 0.95, for all documents, queries and values of
    [Math.random]; when the free text is empty it is the base score 0.3. *)
Theorem prototype_similarity_at_most_95_percent
    (mockDocuments : list Prototype.Document) (parsed : ParsedQuery)
    (draws : nat -> JsNumber.float) (r : Prototype.RankedResult) :
  In r (Prototype.run (Prototype.performSearch mockDocuments parsed) draws) ->
  (Prototype.r_similarity r <= 95 # 100)%Q
  /\ (query parsed = [] ->
      Prototype.r_similarity r = JsNumber.number JsNumber.f0_3).
Proof.
  intros Hr. rewrite performSearch_rank in Hr.
  assert (Hc : In (Prototype.r_cand r)
                  (Prototype.run
                     (Prototype.recall mockDocuments (query parsed)) draws)).
  { apply (taken_incl _ _ _ (rank_docs parsed _)).
    apply in_map_iff. now exists r. }
  apply recall_In in Hc. unfold Prototype.r_similarity. split.
  - apply Qle_trans with (JsNumber.number JsNumber.f0_95).
    + now apply (mapR_similarity _ _ _ _ _ Hc).
    + vm_compute. discriminate.
  - intros Hq. rewrite Hq, mapR_no_query in Hc. cbn [fst] in Hc.
    apply in_map_iff in Hc as (d & <- & _). reflexivity.
Qed.

Lemma prototype_similarity_at_most_95_percent_witness :
  (JsNumber.number
     (fst (Prototype.calculateSimilarity
             (lit "JavaScript") (Prototype.content Examples.vueTutorial)
             Examples.drawsLowFirst 1%nat))
   <= 95 # 100)%Q.
Proof.
  apply (prototype_similarity_at_most_95_percent Examples.documents
           (Prototype.parseSearchInput (lit "JavaScript"))
           Examples.drawsLowFirst
           (Prototype.mkRanked
              (Prototype.mkCand Examples.vueTutorial
                 (JsNumber.number
                    (fst (Prototype.calculateSimilarity
                            (lit "JavaScript")
                            (Prototype.content Examples.vueTutorial)
                            Examples.drawsLowFirst 1%nat))))
              0)).
  vm_compute. left. reflexivity.
Defined.
